(** * draw-engine: the geometry kernel and the pointer state machine of
      [src/websvg/app.js], embedded in Rocq.

    Numbers.  A JavaScript number is modelled as an exact real extended with
    the three special values [Infinity], [-Infinity] and [NaN]; the
    arithmetic of the special values follows IEEE 754, the arithmetic of
    finite values is exact (no rounding, no overflow, one zero).  The source
    never divides by a negative zero: its divisors are the constants 2 and
    20, an absolute value, a square, or a square root.

    Identifiers are integers ([Z]); strings are [string]. *)

From Stdlib Require Import Reals Zfloor Lra Lia ZArith List Ascii String Bool.
From Stdlib Require Import Permutation.
Import ListNotations.

Open Scope R_scope.

(** ** JavaScript numbers *)

Inductive num : Type :=
| Fin (r : R)
| PInf
| NInf
| NaN.

Definition Reqb (a b : R) : bool := if Req_dec_T a b then true else false.
Definition Rleb (a b : R) : bool := if Rle_dec a b then true else false.
Definition Rltb (a b : R) : bool := if Rlt_dec a b then true else false.

Definition isFinite (a : num) : bool :=
  match a with Fin _ => true | _ => false end.

Definition nneg (a : num) : num :=
  match a with
  | Fin r => Fin (- r)
  | PInf => NInf
  | NInf => PInf
  | NaN => NaN
  end.

Definition nadd (a b : num) : num :=
  match a, b with
  | NaN, _ | _, NaN => NaN
  | Fin r, Fin s => Fin (r + s)
  | PInf, NInf | NInf, PInf => NaN
  | PInf, _ | _, PInf => PInf
  | NInf, _ | _, NInf => NInf
  end.

Definition nsub (a b : num) : num := nadd a (nneg b).

(** An infinity scaled by the finite factor [r]. *)
Definition scaleInf (pos : bool) (r : R) : num :=
  if Reqb r 0 then NaN
  else if Bool.eqb pos (Rltb 0 r) then PInf else NInf.

Definition nmul (a b : num) : num :=
  match a, b with
  | NaN, _ | _, NaN => NaN
  | Fin r, Fin s => Fin (r * s)
  | Fin r, PInf | PInf, Fin r => scaleInf true r
  | Fin r, NInf | NInf, Fin r => scaleInf false r
  | PInf, PInf | NInf, NInf => PInf
  | PInf, NInf | NInf, PInf => NInf
  end.

Definition ndiv (a b : num) : num :=
  match a, b with
  | NaN, _ | _, NaN => NaN
  | Fin r, Fin s =>
      if Reqb s 0
      then (if Reqb r 0 then NaN else if Rltb 0 r then PInf else NInf)
      else Fin (r / s)
  | Fin _, _ => Fin 0
  | PInf, Fin s => if Rleb 0 s then PInf else NInf
  | NInf, Fin s => if Rleb 0 s then NInf else PInf
  | _, _ => NaN
  end.

(** [Math.abs]. *)
Definition nabs (a : num) : num :=
  match a with
  | Fin r => Fin (Rabs r)
  | PInf | NInf => PInf
  | NaN => NaN
  end.

(** [a <= b]; every comparison with [NaN] is false. *)
Definition nle (a b : num) : bool :=
  match a, b with
  | NaN, _ | _, NaN => false
  | Fin r, Fin s => Rleb r s
  | NInf, _ | _, PInf => true
  | _, _ => false
  end.

(** [a >= b]. *)
Definition nge (a b : num) : bool := nle b a.

(** [a === b]. *)
Definition nseq (a b : num) : bool :=
  match a, b with
  | Fin r, Fin s => Reqb r s
  | PInf, PInf | NInf, NInf => true
  | _, _ => false
  end.

(** [Math.min(a, b)] and [Math.max(a, b)]. *)
Definition nmin (a b : num) : num :=
  match a, b with
  | NaN, _ | _, NaN => NaN
  | _, _ => if nle a b then a else b
  end.

Definition nmax (a b : num) : num :=
  match a, b with
  | NaN, _ | _, NaN => NaN
  | _, _ => if nle a b then b else a
  end.

(** [Math.sqrt]. *)
Definition nsqrt (a : num) : num :=
  match a with
  | Fin r => if Rltb r 0 then NaN else Fin (sqrt r)
  | PInf => PInf
  | NInf | NaN => NaN
  end.

(** [Math.round]: the nearest integer, a tie going up. *)
Definition nround (a : num) : num :=
  match a with
  | Fin r => Fin (IZR (Zfloor (r + / 2)))
  | _ => a
  end.

Declare Scope js_scope.
Delimit Scope js_scope with js.
Bind Scope js_scope with num.
Infix "+" := nadd : js_scope.
Infix "-" := nsub : js_scope.
Infix "*" := nmul : js_scope.
Infix "/" := ndiv : js_scope.
Infix "<=?" := nle : js_scope.
Infix ">=?" := nge : js_scope.
Infix "===" := nseq (at level 70) : js_scope.

(** ** Data model *)

Record Point : Type := mkPoint { p_x : num; p_y : num }.

(** A shape record [{id,type,x,y,w,h,fill,outline,width,text,symbol}].  A
    field that may be missing from a loaded document is an [option]. *)
Record Shape : Type := mkShape {
  s_id : Z;
  s_type : string;
  s_symbol : option string;
  s_x : num;
  s_y : num;
  s_w : num;
  s_h : num;
  s_fill : string;
  s_outline : string;
  s_width : Z;
  s_text : string
}.

(** A connector record [{id,src,dst,arrow,stroke,width}]. *)
Record Connector : Type := mkConnector {
  c_id : Z;
  c_src : Z;
  c_dst : Z;
  c_arrow : string;
  c_stroke : string;
  c_width : Z
}.

(** ** Geometry kernel *)

Definition gridSize : num := Fin 20.

Definition snap (v : num) : num := (nround (v / gridSize) * gridSize)%js.

Definition shapeCenter (s : Shape) : Point :=
  {| p_x := (s_x s + s_w s / Fin 2)%js; p_y := (s_y s + s_h s / Fin 2)%js |}.

Definition anchorPoint (s : Shape) (toward : Point) : Point :=
  let c := shapeCenter s in
  let dx := (p_x toward - p_x c)%js in
  let dy := (p_y toward - p_y c)%js in
  if (dx === Fin 0)%js && (dy === Fin 0)%js then c
  else if (s_type s =? "rect")%string || (s_type s =? "symbol")%string then
    let rx := (s_w s / Fin 2)%js in
    let ry := (s_h s / Fin 2)%js in
    let tx := if (dx === Fin 0)%js then PInf else (rx / nabs dx)%js in
    let ty := if (dy === Fin 0)%js then PInf else (ry / nabs dy)%js in
    let t := nmin tx ty in
    {| p_x := (p_x c + dx * t)%js; p_y := (p_y c + dy * t)%js |}
  else if (s_type s =? "ellipse")%string then
    let a := (s_w s / Fin 2)%js in
    let b := (s_h s / Fin 2)%js in
    let denom := ((dx * dx) / (a * a) + (dy * dy) / (b * b))%js in
    if (denom <=? Fin 0)%js then c
    else
      let t := (Fin 1 / nsqrt denom)%js in
      {| p_x := (p_x c + dx * t)%js; p_y := (p_y c + dy * t)%js |}
  else c.

(** ** Document model and editor state *)

(** A selection tag: the [data-id] attribute [s:<id>] of a shape group or
    [c:<id>] of a connector line.  [render] is the only writer of these
    attributes, and [parseInt(tag.slice(2), 10)] reads the integer id back. *)
Inductive Tag : Type :=
| ShapeTag (i : Z)
| ConnTag (i : Z).

Definition Tag_eqb (a b : Tag) : bool :=
  match a, b with
  | ShapeTag i, ShapeTag j | ConnTag i, ConnTag j => (i =? j)%Z
  | _, _ => false
  end.

(** [tag.startsWith('s:')]. *)
Definition isShapeTag (t : Tag) : bool :=
  match t with ShapeTag _ => true | ConnTag _ => false end.

(** The dashed preview line of a connect gesture. *)
Record Line : Type := mkLine { l_x1 : num; l_y1 : num; l_x2 : num; l_y2 : num }.

(** The snapshot [{x,y,w,h}] taken when a resize starts. *)
Record Geom : Type := mkGeom { g_x : num; g_y : num; g_w : num; g_h : num }.

(** The drag descriptor; the constructor is the [kind] field. *)
Inductive Drag : Type :=
| DragResize (sid : Z) (pos : string) (start : Point) (orig : Geom)
| DragMove (sids : list Z) (start : Point)
| DragMarquee (start : Point)
| DragCreate (sid : Z) (start : Point)
| DragConnect (src : Z) (preview : Line).

(** The attributes of the [#marquee] rectangle. *)
Record MarqueeRect : Type := mkMarquee {
  m_x : num; m_y : num; m_width : num; m_height : num; m_visible : bool
}.

(** The editor state: the [state] object, and the two pieces of the page the
    handlers write beside it, namely whether the preview line is a child of
    the content layer and the attributes of the marquee rectangle. *)
Record State : Type := mkState {
  tool : string;
  symbol : string;
  nextId : Z;
  shapes : list Shape;
  connectors : list Connector;
  selection : list Tag;
  drag : option Drag;
  previewAttached : bool;
  marqueeRect : MarqueeRect
}.

Definition initialState : State :=
  {| tool := "select"; symbol := "pipe"; nextId := 1; shapes := [];
     connectors := []; selection := []; drag := None;
     previewAttached := false;
     marqueeRect := mkMarquee (Fin 0) (Fin 0) (Fin 0) (Fin 0) false |}.

Definition set_tool (v : string) (st : State) : State :=
  mkState v (symbol st) (nextId st) (shapes st) (connectors st)
    (selection st) (drag st) (previewAttached st) (marqueeRect st).
Definition set_symbol (v : string) (st : State) : State :=
  mkState (tool st) v (nextId st) (shapes st) (connectors st)
    (selection st) (drag st) (previewAttached st) (marqueeRect st).
Definition set_nextId (v : Z) (st : State) : State :=
  mkState (tool st) (symbol st) v (shapes st) (connectors st)
    (selection st) (drag st) (previewAttached st) (marqueeRect st).
Definition set_shapes (v : list Shape) (st : State) : State :=
  mkState (tool st) (symbol st) (nextId st) v (connectors st)
    (selection st) (drag st) (previewAttached st) (marqueeRect st).
Definition set_connectors (v : list Connector) (st : State) : State :=
  mkState (tool st) (symbol st) (nextId st) (shapes st) v
    (selection st) (drag st) (previewAttached st) (marqueeRect st).
Definition set_selection (v : list Tag) (st : State) : State :=
  mkState (tool st) (symbol st) (nextId st) (shapes st) (connectors st)
    v (drag st) (previewAttached st) (marqueeRect st).
Definition set_drag (v : option Drag) (st : State) : State :=
  mkState (tool st) (symbol st) (nextId st) (shapes st) (connectors st)
    (selection st) v (previewAttached st) (marqueeRect st).
Definition set_previewAttached (v : bool) (st : State) : State :=
  mkState (tool st) (symbol st) (nextId st) (shapes st) (connectors st)
    (selection st) (drag st) v (marqueeRect st).
Definition set_marqueeRect (v : MarqueeRect) (st : State) : State :=
  mkState (tool st) (symbol st) (nextId st) (shapes st) (connectors st)
    (selection st) (drag st) (previewAttached st) v.

(** [newId]: the post-increment of the shared counter. *)
Definition newId (st : State) : Z * State :=
  (nextId st, set_nextId (nextId st + 1)%Z st).

(** [state.shapes.find(s => s.id === sid)]. *)
Definition findShape (sid : Z) (l : list Shape) : option Shape :=
  find (fun s => (s_id s =? sid)%Z) l.

(** Assignment to fields of the shape object that [find] returns: the first
    shape with that id is changed in place; nothing changes when there is
    none. *)
Fixpoint updateShape (sid : Z) (f : Shape -> Shape) (l : list Shape)
  : list Shape :=
  match l with
  | [] => []
  | s :: r =>
      if (s_id s =? sid)%Z then f s :: r else s :: updateShape sid f r
  end.

Definition setXY (nx ny : num) (s : Shape) : Shape :=
  mkShape (s_id s) (s_type s) (s_symbol s) nx ny (s_w s) (s_h s)
    (s_fill s) (s_outline s) (s_width s) (s_text s).
Definition setGeom (nx ny nw nh : num) (s : Shape) : Shape :=
  mkShape (s_id s) (s_type s) (s_symbol s) nx ny nw nh
    (s_fill s) (s_outline s) (s_width s) (s_text s).
Definition setText (t : string) (s : Shape) : Shape :=
  mkShape (s_id s) (s_type s) (s_symbol s) (s_x s) (s_y s) (s_w s) (s_h s)
    (s_fill s) (s_outline s) (s_width s) t.

(** [Set.prototype.add] on the selection, kept in insertion order. *)
Definition selAdd (t : Tag) (sel : list Tag) : list Tag :=
  if existsb (Tag_eqb t) sel then sel else sel ++ [t].

Definition selectedShapeIds (st : State) : list Z :=
  flat_map (fun t => match t with ShapeTag i => [i] | ConnTag _ => [] end)
    (selection st).

(** [render] rebuilds the content layer from the model and leaves the model
    as it is; emptying the layer also drops a preview line that was in it.
    The two anchor points of a connector line are given by
    [connectorEndpoints]; a connector with a missing shape is skipped.
    The one step of [render] that can raise, [drawHandles] handed
    [undefined] when the only selected shape tag has no shape, is not part
    of this function: it is modelled apart, by [renderHandles] below, and
    the invariant [selectionValid] excludes it in every run whose
    pointer-downs are on shapes of the document. *)
Definition render (st : State) : State := set_previewAttached false st.

Definition connectorEndpoints (l : list Shape) (c : Connector)
  : option (Point * Point) :=
  match findShape (c_src c) l, findShape (c_dst c) l with
  | Some s1, Some s2 =>
      Some (anchorPoint s1 (shapeCenter s2), anchorPoint s2 (shapeCenter s1))
  | _, _ => None
  end.

Definition updateMarquee (x0 y0 x1 y1 : num) (st : State) : State :=
  let left := nmin x0 x1 in
  let top := nmin y0 y1 in
  let w := nabs (x1 - x0) in
  let h := nabs (y1 - y0) in
  set_marqueeRect (mkMarquee left top w h true) st.

Definition hideMarquee (st : State) : State :=
  let m := marqueeRect st in
  set_marqueeRect (mkMarquee (m_x m) (m_y m) (m_width m) (m_height m) false) st.

(** The test of [applyMarquee] on one shape. *)
Definition shapeInMarquee (left right top bottom : num) (s : Shape) : bool :=
  (left <=? s_x s)%js && (right >=? s_x s + s_w s)%js
  && (top <=? s_y s)%js && (bottom >=? s_y s + s_h s)%js.

(** The test of [applyMarquee] on the two anchor points of a connector. *)
Definition segmentInMarquee (left right top bottom : num) (p1 p2 : Point)
  : bool :=
  let lx := nmin (p_x p1) (p_x p2) in
  let rx := nmax (p_x p1) (p_x p2) in
  let ty := nmin (p_y p1) (p_y p2) in
  let by_ := nmax (p_y p1) (p_y p2) in
  (left <=? lx)%js && (right >=? rx)%js && (top <=? ty)%js
  && (bottom >=? by_)%js.

Definition applyMarquee (x0 y0 x1 y1 : num) (add : bool) (st : State)
  : State :=
  let sel0 := if add then selection st else [] in
  let left := nmin x0 x1 in
  let right := nmax x0 x1 in
  let top := nmin y0 y1 in
  let bottom := nmax y0 y1 in
  let sel1 :=
    fold_left
      (fun sel s =>
         if shapeInMarquee left right top bottom s
         then selAdd (ShapeTag (s_id s)) sel else sel)
      (shapes st) sel0 in
  let sel2 :=
    fold_left
      (fun sel c =>
         match findShape (c_src c) (shapes st),
               findShape (c_dst c) (shapes st) with
         | Some s1, Some s2 =>
             let p1 := anchorPoint s1 (shapeCenter s2) in
             let p2 := anchorPoint s2 (shapeCenter s1) in
             if segmentInMarquee left right top bottom p1 p2
             then selAdd (ConnTag (c_id c)) sel else sel
         | _, _ => sel
         end)
      (connectors st) sel1 in
  set_selection sel2 st.

(** ** Pointer events and the collaborators they read *)

(** What a handler reads from a mouse event: the pointer mapped into document
    space ([pt(e)]); the [data-h] attribute [<id>:<pos>] when the target is a
    resize handle; the tag [pickTag(e.target)] finds; the shift key; and the
    answer [prompt] would give for the text tool ([None] for [null]). *)
Record PointerEvent : Type := mkEvent {
  e_pt : Point;
  e_handle : option (Z * string);
  e_tag : option Tag;
  shiftKey : bool;
  e_prompt : option string
}.

(** The values of the toolbar inputs; [widthParsed] is
    [parseInt(widthInput.value, 10)], [None] for [NaN]. *)
Record Inputs : Type := mkInputs {
  symbolKindValue : string;
  fillValue : string;
  strokeValue : string;
  widthParsed : option Z
}.

(** [parseInt(widthInput.value, 10) || 2]. *)
Definition defaultWidth (inp : Inputs) : Z :=
  match widthParsed inp with
  | Some n => if (n =? 0)%Z then 2%Z else n
  | None => 2%Z
  end.

(** [pos.includes(c)] for a one-character [c]. *)
Fixpoint includes (c : Ascii.ascii) (pos : string) : bool :=
  match pos with
  | EmptyString => false
  | String d r => Ascii.eqb d c || includes c r
  end.

(** The handlers return [None] where the source raises a [TypeError] (a
    field of [undefined] is read or written); the state is then as it was
    before the event, nothing having been assigned yet. *)

Definition onDown (inp : Inputs) (e : PointerEvent) (st : State)
  : option State :=
  let x := p_x (e_pt e) in
  let y := p_y (e_pt e) in
  let add := shiftKey e in
  match e_handle e with
  | Some (sid, pos) =>
      match findShape sid (shapes st) with
      | None => Some st
      | Some s =>
          Some (set_drag
                  (Some (DragResize (s_id s) pos (mkPoint x y)
                           (mkGeom (s_x s) (s_y s) (s_w s) (s_h s)))) st)
      end
  | None =>
      if (tool st =? "select")%string then
        match e_tag e with
        | Some tag =>
            let st1 :=
              set_selection
                (selAdd tag (if add then selection st else [])) st in
            let st2 :=
              if isShapeTag tag
              then set_drag
                     (Some (DragMove (selectedShapeIds st1) (mkPoint x y))) st1
              else st1 in
            Some (render st2)
        | None =>
            Some (updateMarquee x y x y
                    (set_drag (Some (DragMarquee (mkPoint x y))) st))
        end
      else if (tool st =? "rect")%string || (tool st =? "ellipse")%string
              || (tool st =? "symbol")%string then
        let (i, st1) := newId st in
        let s :=
          {| s_id := i;
             s_type := if (tool st =? "symbol")%string
                       then "symbol"%string else tool st;
             s_symbol := Some (symbolKindValue inp);
             s_x := snap x; s_y := snap y; s_w := Fin 1; s_h := Fin 1;
             s_fill := fillValue inp; s_outline := strokeValue inp;
             s_width := defaultWidth inp; s_text := ""%string |} in
        Some (render
                (set_drag (Some (DragCreate (s_id s) (mkPoint x y)))
                   (set_selection [ShapeTag (s_id s)]
                      (set_shapes (shapes st1 ++ [s]) st1))))
      else if (tool st =? "connector")%string then
        match e_tag e with
        | Some (ShapeTag sid) =>
            Some (set_previewAttached true
                    (set_drag (Some (DragConnect sid (mkLine x y x y))) st))
        | _ => Some st
        end
      else if (tool st =? "text")%string then
        match e_tag e with
        | Some (ShapeTag sid) =>
            match findShape sid (shapes st) with
            | None => None
            | Some _ =>
                match e_prompt e with
                | Some t =>
                    Some (render
                            (set_shapes
                               (updateShape sid (setText t) (shapes st)) st))
                | None => Some st
                end
            end
        | _ => Some st
        end
      else Some st
  end.

(** The [x]/[w] pair and the [y]/[h] pair a resize step computes. *)
Definition resizeX (pos : string) (orig : Geom) (x1 : num) : num * num :=
  let ox := g_x orig in
  let ow := g_w orig in
  let r := (ox, ow) in
  let r := if includes "w"%char pos
           then (nmin x1 (ox + ow), nabs (ox + ow - x1)) else r in
  let r := if includes "e"%char pos
           then (nmin ox x1, nabs (x1 - ox)) else r in
  r.

Definition resizeY (pos : string) (orig : Geom) (y1 : num) : num * num :=
  let oy := g_y orig in
  let oh := g_h orig in
  let r := (oy, oh) in
  let r := if includes "n"%char pos
           then (nmin y1 (oy + oh), nabs (oy + oh - y1)) else r in
  let r := if includes "s"%char pos
           then (nmin oy y1, nabs (y1 - oy)) else r in
  r.

Definition onMove (e : PointerEvent) (st : State) : option State :=
  match drag st with
  | None => Some st
  | Some d =>
      let x := p_x (e_pt e) in
      let y := p_y (e_pt e) in
      match d with
      | DragCreate sid start =>
          match findShape sid (shapes st) with
          | None => None
          | Some _ =>
              let x0 := p_x start in
              let y0 := p_y start in
              let x1 := snap x in
              let y1 := snap y in
              Some (render
                      (set_shapes
                         (updateShape sid
                            (setGeom (nmin x0 x1) (nmin y0 y1)
                               (nmax (Fin 1) (nabs (x1 - x0)))
                               (nmax (Fin 1) (nabs (y1 - y0))))
                            (shapes st)) st))
          end
      | DragMove sids start =>
          let dx := (x - p_x start)%js in
          let dy := (y - p_y start)%js in
          let moved :=
            fold_left
              (fun l sid =>
                 updateShape sid
                   (fun s => setXY (snap (s_x s + dx)) (snap (s_y s + dy)) s)
                   l)
              sids (shapes st) in
          Some (render
                  (set_drag (Some (DragMove sids (mkPoint x y)))
                     (set_shapes moved st)))
      | DragResize sid pos start orig =>
          match findShape sid (shapes st) with
          | None => Some st
          | Some _ =>
              let x1 := snap x in
              let y1 := snap y in
              let '(nx, nw) := resizeX pos orig x1 in
              let '(ny, nh) := resizeY pos orig y1 in
              Some (render
                      (set_shapes
                         (updateShape sid
                            (setGeom nx ny (nmax (Fin 1) nw)
                               (nmax (Fin 1) nh))
                            (shapes st)) st))
          end
      | DragConnect src preview =>
          match findShape src (shapes st) with
          | None => Some st
          | Some s =>
              let ap := anchorPoint s (mkPoint x y) in
              Some (set_drag
                      (Some (DragConnect src
                               (mkLine (p_x ap) (p_y ap) x y))) st)
          end
      | DragMarquee start =>
          Some (updateMarquee (p_x start) (p_y start) x y st)
      end
  end.

Definition onUp (inp : Inputs) (e : PointerEvent) (st : State)
  : option State :=
  match drag st with
  | None => Some st
  | Some d =>
      let x := p_x (e_pt e) in
      let y := p_y (e_pt e) in
      let st1 :=
        match d with
        | DragConnect src preview =>
            let st2 :=
              match e_tag e with
              | Some (ShapeTag dst) =>
                  if negb (dst =? src)%Z then
                    let (i, st3) := newId st in
                    set_connectors
                      (connectors st3 ++
                         [{| c_id := i; c_src := src; c_dst := dst;
                             c_arrow := "last"%string;
                             c_stroke := strokeValue inp;
                             c_width := defaultWidth inp |}]) st3
                  else st
              | _ => st
              end in
            render (set_previewAttached false st2)
        | DragMarquee start =>
            render
              (hideMarquee
                 (applyMarquee (p_x start) (p_y start) x y (shiftKey e) st))
        | _ => st
        end in
      Some (set_drag None st1)
  end.

(** ** Toolbar and document handlers *)

Definition toolClick (t : string) (st : State) : State := set_tool t st.

Definition symbolChange (v : string) (st : State) : State := set_symbol v st.

(** The new-document button. *)
Definition newDoc (st : State) : State :=
  render
    (mkState (tool st) (symbol st) 1%Z [] [] [] None (previewAttached st)
       (marqueeRect st)).

(** A parsed JSON document; a key that is absent is [None]. *)
Record Document : Type := mkDocument {
  d_shapes : option (list Shape);
  d_connectors : option (list Connector);
  d_next_id : option Z;
  d_nextId : option Z
}.

(** [v || rest] on an optional number: an absent key and 0 are falsy. *)
Definition orElse (v : option Z) (rest : Z) : Z :=
  match v with
  | Some n => if (n =? 0)%Z then rest else n
  | None => rest
  end.

(** [Math.max(1, ...ids)]. *)
Definition maxFrom1 (ids : list Z) : Z := fold_left Z.max ids 1%Z.

(** The body of the file-input handler after [JSON.parse]. *)
Definition loadDocument (data : Document) (st : State) : State :=
  let shapes' := match d_shapes data with Some l => l | None => [] end in
  let connectors' :=
    match d_connectors data with Some l => l | None => [] end in
  let nextId' :=
    orElse (d_next_id data)
      (orElse (d_nextId data)
         (maxFrom1 (map s_id shapes' ++ map c_id connectors') + 1)%Z) in
  render
    (set_selection []
       (set_nextId nextId'
          (set_connectors connectors' (set_shapes shapes' st)))).

(** [serialize] keeps every field of a shape but [item_ids], [canvas_id] and
    [text_id], which no shape of this model has. *)
Definition serializeShapes (st : State) : list Shape :=
  map (fun s => s) (shapes st).

(** ** Runs of the editor *)

Inductive Event : Type :=
| MouseDown (inp : Inputs) (e : PointerEvent)
| MouseMove (e : PointerEvent)
| MouseUp (inp : Inputs) (e : PointerEvent)
| ToolClick (t : string)
| SymbolChange (v : string)
| NewDoc.

(** An exception in a handler ends that handler only. *)
Definition orSame (st : State) (r : option State) : State :=
  match r with Some st' => st' | None => st end.

Definition dispatch (st : State) (ev : Event) : State :=
  match ev with
  | MouseDown inp e => orSame st (onDown inp e st)
  | MouseMove e => orSame st (onMove e st)
  | MouseUp inp e => orSame st (onUp inp e st)
  | ToolClick t => toolClick t st
  | SymbolChange v => symbolChange v st
  | NewDoc => newDoc st
  end.

Definition run (evs : list Event) (st : State) : State :=
  fold_left dispatch evs st.

(** ** The formulas of the specification, over the reals *)

(** The scale factor the specification gives for a rectangle with half-sides
    [hw] and [hh] along the direction [(dx, dy)]: a zero component is
    unconstrained. *)
Definition spec_rectScale (hw hh dx dy : R) : R :=
  if Req_dec_T dx 0 then hh / Rabs dy
  else if Req_dec_T dy 0 then hw / Rabs dx
  else Rmin (hw / Rabs dx) (hh / Rabs dy).

(** The denominator and the ray parameter the specification gives for an
    ellipse with half-axes [a] and [b]. *)
Definition spec_ellipseDenom (a b dx dy : R) : R :=
  (dx * dx) / (a * a) + (dy * dy) / (b * b).

Definition spec_ellipseScale (a b dx dy : R) : R :=
  1 / sqrt (spec_ellipseDenom a b dx dy).

(** The denominator as [anchorPoint] computes it. *)
Definition ellipseDenom (s : Shape) (toward : Point) : num :=
  let c := shapeCenter s in
  let dx := (p_x toward - p_x c)%js in
  let dy := (p_y toward - p_y c)%js in
  let a := (s_w s / Fin 2)%js in
  let b := (s_h s / Fin 2)%js in
  ((dx * dx) / (a * a) + (dy * dy) / (b * b))%js.

(** The shape [s] with the real geometry [x], [y], [w], [h]. *)
Definition withGeom (x y w h : R) (s : Shape) : Shape :=
  setGeom (Fin x) (Fin y) (Fin w) (Fin h) s.

(** The three kinds of shape the editor draws. *)
Definition rectLike (s : Shape) : Prop :=
  s_type s = "rect"%string \/ s_type s = "symbol"%string.

(** A multiple of the grid unit. *)
Definition aligned (v : num) : Prop := exists k : Z, v = Fin (IZR k * 20).

(** A point of the closed rectangle with the given sides, by the
    comparisons of the source language. *)
Definition spec_pointInMarquee (left right top bottom : num) (p : Point)
  : bool :=
  (left <=? p_x p)%js && (p_x p <=? right)%js
  && (top <=? p_y p)%js && (p_y p <=? bottom)%js.

(** A rectangle shape and an ellipse shape for the worked examples. *)
Definition rect0 : Shape :=
  mkShape 1 "rect" (Some "pipe"%string) (Fin 0) (Fin 0) (Fin 1) (Fin 1)
    "#ffffff" "#000000" 2 "".

Definition ellipse0 : Shape :=
  mkShape 2 "ellipse" (Some "pipe"%string) (Fin 0) (Fin 0) (Fin 1) (Fin 1)
    "#ffffff" "#000000" 2 "".

(** Every id of the document: the shapes' ids, then the connectors' ids. *)
Definition allIds (st : State) : list Z :=
  map s_id (shapes st) ++ map c_id (connectors st).

(** The connector a connect gesture from [src] released over [dst] adds. *)
Definition newConnector (inp : Inputs) (st : State) (src dst : Z)
  : Connector :=
  {| c_id := nextId st; c_src := src; c_dst := dst; c_arrow := "last";
     c_stroke := strokeValue inp; c_width := defaultWidth inp |}.

(** A document with two empty collections and no counter. *)
Definition emptyDocument : Document :=
  mkDocument (Some []) (Some []) None None.

(** A pointer event at the real point [(x, y)] over the empty canvas. *)
Definition pointerAt (x y : R) : PointerEvent :=
  mkEvent (mkPoint (Fin x) (Fin y)) None None false None.

Definition inputs0 : Inputs := mkInputs "pipe" "#ffffff" "#000000" (Some 2%Z).

(** The fields of a shape no handler assigns after its creation. *)
Definition identity (s : Shape) : Z * string * option string :=
  (s_id s, s_type s, s_symbol s).

(** The ids of the document are pairwise distinct and below the counter. *)
Definition idsFresh (st : State) : Prop :=
  Forall (fun i => (i < nextId st)%Z) (allIds st) /\ NoDup (allIds st).

(** A state in the middle of a connect gesture that started on shape 1. *)
Definition connectingFrom1 : State :=
  set_previewAttached true
    (set_drag (Some (DragConnect 1 (mkLine (Fin 0) (Fin 0) (Fin 0) (Fin 0))))
       (set_tool "connector" initialState)).

(** A pointer event at the real point [(x, y)] over the element with the
    tag [t]. *)
Definition pointerOver (x y : R) (t : Tag) : PointerEvent :=
  mkEvent (mkPoint (Fin x) (Fin y)) None (Some t) false None.

(** The drawing tools. *)
Definition drawingTool (t : string) : Prop :=
  t = "rect"%string \/ t = "ellipse"%string \/ t = "symbol"%string.

(** A multiple of the grid unit, or the minimum size 1 of a shape side. *)
Definition alignedOrMin (v : num) : Prop := aligned v \/ v = Fin 1.

Definition finiteXY (s : Shape) : Prop :=
  isFinite (s_x s) = true /\ isFinite (s_y s) = true.

Definition alignedXY (s : Shape) : Prop :=
  aligned (s_x s) /\ aligned (s_y s).

Definition alignedGeom (s : Shape) : Prop :=
  aligned (s_x s) /\ aligned (s_y s) /\
  alignedOrMin (s_w s) /\ alignedOrMin (s_h s).

(** The editor after the rectangle tool is chosen and the button goes down
    at the real point [(x, y)] of the empty canvas. *)
Definition drawingRectFrom (x y : R) : State :=
  run [ToolClick "rect"; MouseDown inputs0 (pointerAt x y)] initialState.

(** The editor in the middle of a move of shape 1, a 100 by 40 rectangle at
    the origin, grabbed at (50,20). *)
Definition movingShape1 : State :=
  mkState "select" "pipe" 2
    [setGeom (Fin 0) (Fin 0) (Fin 100) (Fin 40) rect0] [] [ShapeTag 1]
    (Some (DragMove [1%Z] (mkPoint (Fin 50) (Fin 20)))) false
    (mkMarquee (Fin 0) (Fin 0) (Fin 0) (Fin 0) false).

(** The same editor in the middle of a resize of shape 1 by its north-west
    handle. *)
Definition resizingShape1 : State :=
  mkState "select" "pipe" 2
    [setGeom (Fin 0) (Fin 0) (Fin 100) (Fin 40) rect0] [] [ShapeTag 1]
    (Some (DragResize 1 "nw" (mkPoint (Fin 0) (Fin 0))
             (mkGeom (Fin 0) (Fin 0) (Fin 100) (Fin 40)))) false
    (mkMarquee (Fin 0) (Fin 0) (Fin 0) (Fin 0) false).

(** A shape of a kind the editor does not draw. *)
Definition triangle0 : Shape :=
  mkShape 3 "triangle" None (Fin 0) (Fin 0) (Fin 10) (Fin 10)
    "#ffffff" "#000000" 2 "".

(** The events that draw one rectangle with a click at the origin. *)
Definition oneRectDrawn : list Event :=
  [ToolClick "rect"; MouseDown inputs0 (pointerAt 0 0);
   MouseUp inputs0 (pointerAt 0 0)].

(** The four things an event can do to the collections and the counter. *)
Inductive footprint (st st' : State) : Prop :=
| fp_same :
    map identity (shapes st') = map identity (shapes st) ->
    connectors st' = connectors st ->
    nextId st' = nextId st ->
    footprint st st'
| fp_shape (s : Shape) :
    shapes st' = shapes st ++ [s] ->
    s_id s = nextId st ->
    s_symbol s <> None ->
    connectors st' = connectors st ->
    nextId st' = (nextId st + 1)%Z ->
    footprint st st'
| fp_connector (c : Connector) :
    shapes st' = shapes st ->
    connectors st' = connectors st ++ [c] ->
    c_id c = nextId st ->
    c_src c <> c_dst c ->
    nextId st' = (nextId st + 1)%Z ->
    footprint st st'
| fp_reset :
    shapes st' = [] ->
    connectors st' = [] ->
    nextId st' = 1%Z ->
    footprint st st'.

(** The editor in the middle of a marquee gesture that started at (0,0),
    with one 100 by 100 rectangle at the origin. *)
Definition marqueeFrom0 : State :=
  mkState "select" "pipe" 2
    [setGeom (Fin 0) (Fin 0) (Fin 100) (Fin 100) rect0] [] []
    (Some (DragMarquee (mkPoint (Fin 0) (Fin 0)))) false
    (mkMarquee (Fin 0) (Fin 0) (Fin 0) (Fin 0) true).

(** ** The rest of the renderer and of the document handlers *)

(** [Math.floor]. *)
Definition nfloor (a : num) : num :=
  match a with
  | Fin r => Fin (IZR (Zfloor r))
  | _ => a
  end.

(** The elements [symbolGeometry] builds, with the attributes it sets that
    vary: a [line], a [polyline] (never filled), a [polygon] and an
    [ellipse]. *)
Inductive Prim : Type :=
| PLine (x1 y1 x2 y2 : num) (stroke : string) (strokeWidth : num)
| PPolyline (points : list Point) (stroke : string) (strokeWidth : num)
| PPolygon (points : list Point) (stroke : string) (strokeWidth : num)
    (fill : string)
| PEllipse (cx cy rx ry : num) (stroke : string) (strokeWidth : num)
    (fill : string).

(** [Math.max(1, Math.floor(Math.min(s.w, s.h) * 0.25))] and the same with
    0.08: the two stroke widths of a symbol. *)
Definition symbolThick (s : Shape) : num :=
  nmax (Fin 1) (nfloor (nmin (s_w s) (s_h s) * Fin (25 / 100))%js).

Definition symbolThin (s : Shape) : num :=
  nmax (Fin 1) (nfloor (nmin (s_w s) (s_h s) * Fin (8 / 100))%js).

(** [s.symbol || 'pipe']: a missing field and the empty string are falsy. *)
Definition symbolKindOf (s : Shape) : string :=
  match s_symbol s with
  | Some k => if (k =? "")%string then "pipe"%string else k
  | None => "pipe"%string
  end.

Definition symbolGeometry (s : Shape) : list Prim :=
  let stroke := s_outline s in
  let fill := s_fill s in
  let cx := (s_x s + s_w s / Fin 2)%js in
  let cy := (s_y s + s_h s / Fin 2)%js in
  let thick := symbolThick s in
  let thin := symbolThin s in
  let kind := symbolKindOf s in
  let line := fun x1 y1 x2 y2 w => PLine x1 y1 x2 y2 stroke w in
  if (kind =? "pipe")%string then
    [line (s_x s) cy (s_x s + s_w s)%js cy thick]
  else if (kind =? "elbow")%string then
    [PPolyline
       [mkPoint (s_x s) cy; mkPoint (s_x s) (s_y s); mkPoint cx (s_y s)]
       stroke thick]
  else if (kind =? "tee")%string then
    [line cx (s_y s + s_h s)%js cx (s_y s) thick;
     line (s_x s) cy (s_x s + s_w s)%js cy thick]
  else if (kind =? "valve")%string then
    [line (s_x s) (s_y s) (s_x s + s_w s)%js (s_y s + s_h s)%js thin;
     line (s_x s + s_w s)%js (s_y s) (s_x s) (s_y s + s_h s)%js thin]
  else if (kind =? "reducer")%string then
    let top := (s_y s + s_h s * Fin (2 / 10))%js in
    let bottom := (s_y s + s_h s * Fin (8 / 10))%js in
    let small := (s_x s + s_w s * Fin (75 / 100))%js in
    [PPolygon
       [mkPoint (s_x s) top; mkPoint (s_x s) bottom; mkPoint small cy]
       stroke thin fill]
  else if (kind =? "flange")%string then
    let lf := (s_x s + s_w s * Fin (25 / 100))%js in
    let rf := (s_x s + s_w s * Fin (75 / 100))%js in
    [line (s_x s) cy (s_x s + s_w s)%js cy thin;
     line lf (s_y s) lf (s_y s + s_h s)%js thin;
     line rf (s_y s) rf (s_y s + s_h s)%js thin]
  else if (kind =? "instrument")%string then
    let r := (nmin (s_w s) (s_h s) / Fin 2)%js in
    [PEllipse cx cy r r stroke thin fill]
  else
    [line (s_x s) cy (s_x s + s_w s)%js cy thick].

(** A resize handle: the attributes of its [rect], [h_data] being the
    [data-h] attribute [<id>:<pos>]. *)
Record Handle : Type := mkHandle {
  h_x : num; h_y : num; h_width : num; h_height : num;
  h_data : Z * string
}.

(** The table [pts] of [drawHandles]. *)
Definition handlePoints (s : Shape) : list (num * num * string) :=
  [ (s_x s, s_y s, "nw"%string);
    ((s_x s + s_w s / Fin 2)%js, s_y s, "n"%string);
    ((s_x s + s_w s)%js, s_y s, "ne"%string);
    (s_x s, (s_y s + s_h s / Fin 2)%js, "w"%string);
    ((s_x s + s_w s)%js, (s_y s + s_h s / Fin 2)%js, "e"%string);
    (s_x s, (s_y s + s_h s)%js, "sw"%string);
    ((s_x s + s_w s / Fin 2)%js, (s_y s + s_h s)%js, "s"%string);
    ((s_x s + s_w s)%js, (s_y s + s_h s)%js, "se"%string) ].

Definition drawHandles (s : Shape) : list Handle :=
  map (fun '(x, y, pos) =>
         mkHandle (x - Fin 5)%js (y - Fin 5)%js (Fin 10) (Fin 10)
           (s_id s, pos))
    (handlePoints s).

(** The handles [render] draws: those of the selected shape when the
    selection holds exactly one shape; [None] where [drawHandles] is handed
    [undefined] and raises. *)
Definition renderHandles (st : State) : option (list Handle) :=
  match selectedShapeIds st with
  | [i] => option_map drawHandles (findShape i (shapes st))
  | _ => Some []
  end.

(** The [settings] object of a saved document. *)
Record Settings : Type := mkSettings {
  default_fill : string;
  default_outline : string;
  default_width : Z
}.

(** [serialize]: the object that is written out.  The connectors lose only
    [canvas_id], which no connector of this model has. *)
Definition serialize (inp : Inputs) (st : State) : Document * Settings :=
  (mkDocument (Some (serializeShapes st))
     (Some (map (fun c => c) (connectors st)))
     (Some (nextId st)) None,
   mkSettings (fillValue inp) (strokeValue inp) (defaultWidth inp)).

(** ** Predicates of the further properties *)

(** The real point [(px, py)] is in the bounding rectangle of a shape with
    real geometry. *)
Definition inBox (x y w h : R) (p : Point) : Prop :=
  exists px py : R,
    p = mkPoint (Fin px) (Fin py) /\
    x <= px <= x + w /\ y <= py <= y + h.

(** The points that bound a primitive: the ends of a line, the vertices of
    a polyline or polygon, two opposite corners of the box of an ellipse. *)
Definition primPoints (p : Prim) : list Point :=
  match p with
  | PLine x1 y1 x2 y2 _ _ => [mkPoint x1 y1; mkPoint x2 y2]
  | PPolyline pts _ _ => pts
  | PPolygon pts _ _ _ => pts
  | PEllipse cx cy rx ry _ _ _ =>
      [mkPoint (cx - rx)%js (cy - ry)%js; mkPoint (cx + rx)%js (cy + ry)%js]
  end.

Definition primStrokeWidth (p : Prim) : num :=
  match p with
  | PLine _ _ _ _ _ w => w
  | PPolyline _ _ w => w
  | PPolygon _ _ w _ => w
  | PEllipse _ _ _ _ _ w _ => w
  end.

(** The real value [snap] gives on a real. *)
Definition snapR (v : R) : R := IZR (Zfloor (v / 20 + / 2)) * 20.

(** A shape with finite geometry and sides of at least 1. *)
Definition wellSized (s : Shape) : Prop :=
  exists x y w h : R,
    s_x s = Fin x /\ s_y s = Fin y /\ s_w s = Fin w /\ s_h s = Fin h /\
    1 <= w /\ 1 <= h.

Definition finitePoint (p : Point) : Prop :=
  isFinite (p_x p) = true /\ isFinite (p_y p) = true.

Definition finiteGeom (g : Geom) : Prop :=
  isFinite (g_x g) = true /\ isFinite (g_y g) = true /\
  isFinite (g_w g) = true /\ isFinite (g_h g) = true.

(** The numbers a drag descriptor carries are finite. *)
Definition dragFinite (d : Drag) : Prop :=
  match d with
  | DragResize _ _ start orig => finitePoint start /\ finiteGeom orig
  | DragMove _ start => finitePoint start
  | DragMarquee start => finitePoint start
  | DragCreate _ start => finitePoint start
  | DragConnect _ _ => True
  end.

(** The event carries a finite pointer position, if it is a mouse event. *)
Definition finitePointer (ev : Event) : Prop :=
  match ev with
  | MouseDown _ e | MouseMove e | MouseUp _ e => finitePoint (e_pt e)
  | _ => True
  end.

(** Every shape is well sized and the drag descriptor, if any, is finite. *)
Definition sizesKept (st : State) : Prop :=
  Forall wellSized (shapes st) /\
  (forall d, drag st = Some d -> dragFinite d).

(** A create gesture in flight has its shape in the document. *)
Definition createTargetExists (st : State) : Prop :=
  forall sid start,
    drag st = Some (DragCreate sid start) -> In sid (map s_id (shapes st)).

Definition isNewDoc (ev : Event) : bool :=
  match ev with NewDoc => true | _ => false end.

(** Two symbol shapes for the worked examples: one of an unknown kind, one
    flange. *)
Definition pump0 : Shape :=
  mkShape 4 "symbol" (Some "pump"%string) (Fin 0) (Fin 0) (Fin 100) (Fin 40)
    "#ffffff" "#000000" 2 "".

Definition flange0 : Shape :=
  mkShape 5 "symbol" (Some "flange"%string) (Fin 0) (Fin 0) (Fin 100) (Fin 40)
    "#ffffff" "#000000" 2 "".

(** A shape on the grid with sides of at least one grid unit. *)
Definition gridShape (s : Shape) : Prop :=
  exists a b c d : Z,
    s_x s = Fin (IZR a * 20) /\ s_y s = Fin (IZR b * 20) /\
    s_w s = Fin (IZR c * 20) /\ s_h s = Fin (IZR d * 20) /\
    (1 <= c)%Z /\ (1 <= d)%Z.

(** The point [p] is on the square of the handle [hd]. *)
Definition insideHandle (hd : Handle) (p : Point) : Prop :=
  exists hx hy px py : R,
    h_x hd = Fin hx /\ h_y hd = Fin hy /\
    p = mkPoint (Fin px) (Fin py) /\
    hx <= px <= hx + 10 /\ hy <= py <= hy + 10.

(** A mouse event at [p] whose target is the handle [hd]. *)
Definition onHandle (hd : Handle) (p : Point) : PointerEvent :=
  mkEvent p (Some (h_data hd)) None false None.

(** The drag descriptor is one of a create or of a resize gesture. *)
Definition absoluteGesture (d : option Drag) : Prop :=
  match d with
  | Some (DragCreate _ _) | Some (DragResize _ _ _ _) => True
  | _ => False
  end.

(** The ids of the shapes a gesture may change. *)
Definition gestureIds (d : option Drag) : list Z :=
  match d with
  | Some (DragMove sids _) => sids
  | Some (DragCreate sid _) | Some (DragResize sid _ _ _) => [sid]
  | _ => []
  end.

(** Everything of a shape but its geometry. *)
Definition sameStyle (s s' : Shape) : Prop :=
  s_id s' = s_id s /\ s_type s' = s_type s /\ s_symbol s' = s_symbol s /\
  s_fill s' = s_fill s /\ s_outline s' = s_outline s /\
  s_width s' = s_width s /\ s_text s' = s_text s.

(** The mouse-move events through the real points [pts]. *)
Definition moveEvents (pts : list (R * R)) : list Event :=
  map (fun p => MouseMove (pointerAt (fst p) (snd p))) pts.

(** Each point of [pts] is less than half a grid unit from the one before
    it, starting from [(x0, y0)], along both axes. *)
Fixpoint smallSteps (x0 y0 : R) (pts : list (R * R)) : Prop :=
  match pts with
  | [] => True
  | (x, y) :: rest =>
      -10 <= x - x0 < 10 /\ -10 <= y - y0 < 10 /\ smallSteps x y rest
  end.

(** The editor with shape 1, a 100 by 40 rectangle at the origin, as the
    only selected element. *)
Definition shape1Selected : State :=
  mkState "select" "pipe" 2
    [setGeom (Fin 0) (Fin 0) (Fin 100) (Fin 40) rect0] [] [ShapeTag 1]
    None false (mkMarquee (Fin 0) (Fin 0) (Fin 0) (Fin 0) false).

(** The rectangle of [shape1Selected] and its north-west handle. *)
Definition shape1 : Shape := setGeom (Fin 0) (Fin 0) (Fin 100) (Fin 40) rect0.

Definition nwHandle1 : Handle :=
  mkHandle (Fin 0 - Fin 5)%js (Fin 0 - Fin 5)%js (Fin 10) (Fin 10)
    (1%Z, "nw"%string).

(** A shape after an event, against the same shape before it: its style is
    kept, and it is untouched unless its id is among [ids]. *)
Definition frameRel (ids : list Z) (s s' : Shape) : Prop :=
  sameStyle s s' /\ (~ In (s_id s) ids -> s' = s).

(** One event adds nothing, one shape, or one connector, each with the
    counter's value as its id. *)
Definition growsStep (st st' : State) : Prop :=
  (map identity (shapes st') = map identity (shapes st) /\
   connectors st' = connectors st /\ nextId st' = nextId st) \/
  (exists s, shapes st' = shapes st ++ [s] /\ s_id s = nextId st /\
             connectors st' = connectors st /\
             nextId st' = (nextId st + 1)%Z) \/
  (exists c, shapes st' = shapes st /\
             connectors st' = connectors st ++ [c] /\ c_id c = nextId st /\
             nextId st' = (nextId st + 1)%Z).

(** The ids a document brings, with the loader's defaults for missing
    collections. *)
Definition documentIds (data : Document) : list Z :=
  map s_id (match d_shapes data with Some l => l | None => [] end)
  ++ map c_id (match d_connectors data with Some l => l | None => [] end).

(** A document with two shapes, ids 3 and 8, and no counter. *)
Definition twoShapeDocument : Document :=
  mkDocument
    (Some [mkShape 3 "rect" None (Fin 0) (Fin 0) (Fin 20) (Fin 20)
             "#ffffff" "#000000" 2 "";
           mkShape 8 "ellipse" None (Fin 40) (Fin 0) (Fin 20) (Fin 20)
             "#ffffff" "#000000" 2 ""])
    None None None.

(** A pointer event with the shift key held or not. *)
Definition pick (shift : bool) (x y : R) (t : Tag) : PointerEvent :=
  mkEvent (mkPoint (Fin x) (Fin y)) None (Some t) shift None.

(** The shape a pointer-down is on, if it is on one, is in the document. *)
Definition targetExists (st : State) (ev : Event) : Prop :=
  match ev with
  | MouseDown _ e =>
      forall i, e_tag e = Some (ShapeTag i) -> In i (map s_id (shapes st))
  | _ => True
  end.

(** Every pointer-down of the run is on an element of the document it
    meets. *)
Fixpoint targetsExist (st : State) (evs : list Event) : Prop :=
  match evs with
  | [] => True
  | ev :: rest => targetExists st ev /\ targetsExist (dispatch st ev) rest
  end.

(** Every selected shape tag has its shape. *)
Definition selectionValid (st : State) : Prop :=
  forall i, In (ShapeTag i) (selection st) -> In i (map s_id (shapes st)).

(** A tag of an element that can be in the document [st]. *)
Definition tagValid (st : State) (t : Tag) : Prop :=
  match t with
  | ShapeTag i => In i (map s_id (shapes st))
  | ConnTag _ => True
  end.

(** One rectangle drawn, then picked with the select tool. *)
Definition drawnThenPicked : list Event :=
  oneRectDrawn
  ++ [ToolClick "select"; MouseDown inputs0 (pick false 10 10 (ShapeTag 1))].

(** One rectangle drawn, the new-document button, and the rectangle tool
    pressed again. *)
Definition drawnResetDrawn : list Event :=
  oneRectDrawn ++ [NewDoc; MouseDown inputs0 (pointerAt 40 40)].

(** * Proofs *)

(** ** Decisions on reals *)

Lemma Reqb_true_iff (a b : R) : Reqb a b = true <-> a = b.
Proof. unfold Reqb; destruct (Req_dec_T a b); split; congruence. Qed.

Lemma Rleb_true_iff (a b : R) : Rleb a b = true <-> a <= b.
Proof. unfold Rleb; destruct (Rle_dec a b); split; congruence. Qed.

Lemma Rltb_true_iff (a b : R) : Rltb a b = true <-> a < b.
Proof. unfold Rltb; destruct (Rlt_dec a b); split; congruence. Qed.

Lemma Reqb_neq (a b : R) : a <> b -> Reqb a b = false.
Proof. unfold Reqb; destruct (Req_dec_T a b); congruence. Qed.

Lemma Rleb_le (a b : R) : a <= b -> Rleb a b = true.
Proof. apply Rleb_true_iff. Qed.

Lemma Rleb_gt (a b : R) : b < a -> Rleb a b = false.
Proof. unfold Rleb; destruct (Rle_dec a b); [lra | reflexivity]. Qed.

Lemma Rltb_ge (a b : R) : b <= a -> Rltb a b = false.
Proof. unfold Rltb; destruct (Rlt_dec a b); [lra | reflexivity]. Qed.

(** Splits every decision on reals in the goal and closes the branches that
    linear arithmetic refutes. *)
Ltac rdec :=
  unfold Reqb, Rleb, Rltb in *;
  repeat match goal with
    | |- context [Req_dec_T ?a ?b] => destruct (Req_dec_T a b); try lra
    | |- context [Rle_dec ?a ?b] => destruct (Rle_dec a b); try lra
    | |- context [Rlt_dec ?a ?b] => destruct (Rlt_dec a b); try lra
    end.

(** ** Arithmetic on finite numbers *)

Lemma nsub_Fin (a b : R) : (Fin a - Fin b)%js = Fin (a - b).
Proof. reflexivity. Qed.

Lemma nadd_Fin (a b : R) : (Fin a + Fin b)%js = Fin (a + b).
Proof. reflexivity. Qed.

Lemma nmul_Fin (a b : R) : (Fin a * Fin b)%js = Fin (a * b).
Proof. reflexivity. Qed.

Lemma ndiv_Fin (a b : R) : b <> 0 -> (Fin a / Fin b)%js = Fin (a / b).
Proof. intros H; unfold ndiv; now rewrite Reqb_neq. Qed.

Lemma ndiv_Fin_2 (a : R) : (Fin a / Fin 2)%js = Fin (a / 2).
Proof. apply ndiv_Fin; lra. Qed.

Lemma nseq_Fin (a b : R) : (Fin a === Fin b)%js = Reqb a b.
Proof. reflexivity. Qed.

Lemma nle_Fin (a b : R) : (Fin a <=? Fin b)%js = Rleb a b.
Proof. reflexivity. Qed.

Lemma nmin_Fin (a b : R) : nmin (Fin a) (Fin b) = Fin (Rmin a b).
Proof.
  unfold nmin, nle, Rleb, Rmin.
  destruct (Rle_dec a b); reflexivity.
Qed.

Lemma nmax_Fin (a b : R) : nmax (Fin a) (Fin b) = Fin (Rmax a b).
Proof.
  unfold nmax, nle, Rleb, Rmax.
  destruct (Rle_dec a b); reflexivity.
Qed.

Lemma nabs_Fin (a : R) : nabs (Fin a) = Fin (Rabs a).
Proof. reflexivity. Qed.

Lemma shapeCenter_withGeom (x y w h : R) (s : Shape) :
  shapeCenter (withGeom x y w h s)
  = mkPoint (Fin (x + w / 2)) (Fin (y + h / 2)).
Proof.
  unfold shapeCenter, withGeom, setGeom; cbn [s_x s_y s_w s_h].
  now rewrite !ndiv_Fin_2.
Qed.

(** ** Grid snap *)

Lemma snap_Fin (v : R) :
  snap (Fin v) = Fin (IZR (Zfloor (v / 20 + / 2)) * 20).
Proof.
  unfold snap, gridSize.
  rewrite ndiv_Fin by lra.
  reflexivity.
Qed.

Lemma snap_multiple (k : Z) : snap (Fin (IZR k * 20)) = Fin (IZR k * 20).
Proof.
  rewrite snap_Fin.
  replace (IZR k * 20 / 20 + / 2) with (/ 2 + IZR k) by lra.
  rewrite Zfloor_addz.
  replace (Zfloor (/ 2)) with 0%Z.
  - now rewrite Z.add_0_l.
  - symmetry; apply Zfloor_eq; simpl; lra.
Qed.

Lemma snap_aligned (v : R) : aligned (snap (Fin v)).
Proof. rewrite snap_Fin; eexists; reflexivity. Qed.

Lemma snap_special (v : num) : isFinite v = false -> snap v = v.
Proof.
  destruct v; simpl; intros H; try discriminate;
    unfold snap, gridSize, ndiv, nmul, nround, scaleInf; rdec; reflexivity.
Qed.

Lemma snap_nearest (v : R) (m : Z) :
  Rabs (IZR (Zfloor (v / 20 + / 2)) * 20 - v) <= Rabs (IZR m * 20 - v).
Proof.
  set (k := Zfloor (v / 20 + / 2)).
  destruct (Zfloor_bound (v / 20 + / 2)) as [Hlo Hhi]; fold k in Hlo, Hhi.
  assert (Hk : Rabs (IZR k * 20 - v) <= 10)
    by (apply Rabs_le; lra).
  destruct (Z.lt_trichotomy m k) as [Hm | [Hm | Hm]].
  - assert (IZR m <= IZR k - 1)
      by (rewrite <- minus_IZR; apply IZR_le; lia).
    apply Rle_trans with 10; [exact Hk |].
    rewrite Rabs_left1 by lra; lra.
  - subst m; apply Rle_refl.
  - assert (IZR k + 1 <= IZR m)
      by (rewrite <- plus_IZR; apply IZR_le; lia).
    apply Rle_trans with 10; [exact Hk |].
    rewrite Rabs_right by lra; lra.
Qed.

(** C8.  [snap] is idempotent on every number; on a real it returns a
    multiple of the grid unit 20 that is at least as close to the argument as
    any other multiple; and [snap(27) = 20], [snap(35) = 40]. *)
Theorem snap_idempotent :
  (forall v : num, snap (snap v) = snap v) /\
  (forall v : R, exists k : Z,
      snap (Fin v) = Fin (IZR k * 20) /\
      forall m : Z, Rabs (IZR k * 20 - v) <= Rabs (IZR m * 20 - v)) /\
  snap (Fin 27) = Fin 20 /\
  snap (Fin 35) = Fin 40.
Proof.
  split; [| split; [| split]].
  - intros [v | | |].
    + rewrite snap_Fin; apply snap_multiple.
    + now rewrite !(snap_special PInf).
    + now rewrite !(snap_special NInf).
    + now rewrite !(snap_special NaN).
  - intros v; exists (Zfloor (v / 20 + / 2)); split.
    + apply snap_Fin.
    + apply snap_nearest.
  - rewrite snap_Fin.
    replace (Zfloor (27 / 20 + / 2)) with 1%Z; [f_equal; lra |].
    symmetry; apply Zfloor_eq; simpl; lra.
  - rewrite snap_Fin.
    replace (Zfloor (35 / 20 + / 2)) with 2%Z; [f_equal; lra |].
    symmetry; apply Zfloor_eq; simpl; lra.
Qed.

(** ** Anchor points *)

Lemma rectLike_test (s : Shape) :
  rectLike s ->
  ((s_type s =? "rect")%string || (s_type s =? "symbol")%string) = true.
Proof. intros [H | H]; rewrite H; reflexivity. Qed.

Lemma Rabs_neq_0 (a : R) : a <> 0 -> Rabs a <> 0.
Proof. apply Rabs_no_R0. Qed.

Lemma rect_anchor_formula (s : Shape) (x y w h qx qy : R) :
  rectLike s ->
  qx <> x + w / 2 \/ qy <> y + h / 2 ->
  let dx := qx - (x + w / 2) in
  let dy := qy - (y + h / 2) in
  let t := spec_rectScale (w / 2) (h / 2) dx dy in
  anchorPoint (withGeom x y w h s) (mkPoint (Fin qx) (Fin qy))
  = mkPoint (Fin (x + w / 2 + dx * t)) (Fin (y + h / 2 + dy * t)).
Proof.
  intros Hty Hne dx dy t.
  unfold anchorPoint.
  rewrite shapeCenter_withGeom.
  replace (s_type (withGeom x y w h s)) with (s_type s) by reflexivity.
  rewrite (rectLike_test s Hty).
  cbn [p_x p_y withGeom setGeom s_w s_h].
  rewrite !nsub_Fin, !nseq_Fin, !ndiv_Fin_2, !nabs_Fin.
  fold dx dy.
  unfold t, spec_rectScale, Reqb.
  destruct (Req_dec_T dx 0) as [Hx | Hx];
    destruct (Req_dec_T dy 0) as [Hy | Hy];
    cbn [andb].
  - exfalso; unfold dx, dy in *; lra.
  - rewrite (ndiv_Fin _ _ (Rabs_neq_0 _ Hy)).
    reflexivity.
  - rewrite (ndiv_Fin _ _ (Rabs_neq_0 _ Hx)).
    reflexivity.
  - rewrite (ndiv_Fin _ _ (Rabs_neq_0 _ Hx)).
    rewrite (ndiv_Fin _ _ (Rabs_neq_0 _ Hy)).
    rewrite nmin_Fin.
    reflexivity.
Qed.

(** C1.  For a shape of kind rect or symbol with real geometry and a real
    target point other than its centre, [anchorPoint] is the centre plus
    [(dx, dy) * t], [t] being the smaller of [halfWidth/|dx|] and
    [halfHeight/|dy|] with a zero component left out; the rectangle of width
    100 and height 50 centred at (50,25) with target (200,25) gives
    (100,25). *)
Theorem anchorPoint_rect :
  (forall (s : Shape) (x y w h qx qy : R),
      rectLike s ->
      qx <> x + w / 2 \/ qy <> y + h / 2 ->
      let dx := qx - (x + w / 2) in
      let dy := qy - (y + h / 2) in
      let t := spec_rectScale (w / 2) (h / 2) dx dy in
      anchorPoint (withGeom x y w h s) (mkPoint (Fin qx) (Fin qy))
      = mkPoint (Fin (x + w / 2 + dx * t)) (Fin (y + h / 2 + dy * t))) /\
  (forall s : Shape,
      s_type s = "rect"%string ->
      anchorPoint (withGeom 0 0 100 50 s) (mkPoint (Fin 200) (Fin 25))
      = mkPoint (Fin 100) (Fin 25)).
Proof.
  split.
  - exact rect_anchor_formula.
  - intros s Hty.
    rewrite rect_anchor_formula by (try (left; exact Hty); left; lra).
    unfold spec_rectScale.
    destruct (Req_dec_T (200 - (0 + 100 / 2)) 0) as [H | _]; [lra |].
    destruct (Req_dec_T (25 - (0 + 50 / 2)) 0) as [_ | H]; [| lra].
    rewrite Rabs_right by lra.
    f_equal; f_equal; lra.
Qed.

(** C1 applied to the rectangle of the specification. *)
Lemma anchorPoint_rect_witness :
  rectLike rect0 /\
  (200 <> 0 + 100 / 2 \/ 25 <> 0 + 50 / 2) /\
  anchorPoint (withGeom 0 0 100 50 rect0) (mkPoint (Fin 200) (Fin 25))
  = mkPoint
      (Fin (0 + 100 / 2
            + (200 - (0 + 100 / 2))
              * spec_rectScale (100 / 2) (50 / 2)
                  (200 - (0 + 100 / 2)) (25 - (0 + 50 / 2))))
      (Fin (0 + 50 / 2
            + (25 - (0 + 50 / 2))
              * spec_rectScale (100 / 2) (50 / 2)
                  (200 - (0 + 100 / 2)) (25 - (0 + 50 / 2)))) /\
  anchorPoint (withGeom 0 0 100 50 rect0) (mkPoint (Fin 200) (Fin 25))
  = mkPoint (Fin 100) (Fin 25).
Proof.
  split; [left; reflexivity |].
  split; [left; lra |].
  split.
  - apply (proj1 anchorPoint_rect rect0 0 0 100 50 200 25);
      [left; reflexivity | left; lra].
  - apply (proj2 anchorPoint_rect rect0); reflexivity.
Defined.

Lemma ellipseDenom_pos (a b dx dy : R) :
  a <> 0 -> b <> 0 -> dx <> 0 \/ dy <> 0 ->
  0 < spec_ellipseDenom a b dx dy.
Proof.
  intros Ha Hb Hd; unfold spec_ellipseDenom.
  assert (Haa : 0 < / (a * a)) by (apply Rinv_0_lt_compat; nra).
  assert (Hbb : 0 < / (b * b)) by (apply Rinv_0_lt_compat; nra).
  unfold Rdiv.
  assert (0 <= dx * dx) by nra.
  assert (0 <= dy * dy) by nra.
  destruct Hd as [Hd | Hd].
  - assert (0 < dx * dx) by nra.
    assert (0 < dx * dx * / (a * a)) by (apply Rmult_lt_0_compat; lra).
    assert (0 <= dy * dy * / (b * b)) by (apply Rmult_le_pos; lra).
    lra.
  - assert (0 < dy * dy) by nra.
    assert (0 < dy * dy * / (b * b)) by (apply Rmult_lt_0_compat; lra).
    assert (0 <= dx * dx * / (a * a)) by (apply Rmult_le_pos; lra).
    lra.
Qed.

Lemma ellipse_anchor_formula (s : Shape) (x y w h qx qy : R) :
  s_type s = "ellipse"%string ->
  w <> 0 -> h <> 0 ->
  qx <> x + w / 2 \/ qy <> y + h / 2 ->
  let dx := qx - (x + w / 2) in
  let dy := qy - (y + h / 2) in
  let t := spec_ellipseScale (w / 2) (h / 2) dx dy in
  0 < spec_ellipseDenom (w / 2) (h / 2) dx dy /\
  anchorPoint (withGeom x y w h s) (mkPoint (Fin qx) (Fin qy))
  = mkPoint (Fin (x + w / 2 + dx * t)) (Fin (y + h / 2 + dy * t)).
Proof.
  intros Hty Hw Hh Hne dx dy t.
  assert (Hpos : 0 < spec_ellipseDenom (w / 2) (h / 2) dx dy).
  { apply ellipseDenom_pos; unfold dx, dy; lra. }
  split; [exact Hpos |].
  unfold anchorPoint.
  rewrite shapeCenter_withGeom.
  replace (s_type (withGeom x y w h s)) with (s_type s) by reflexivity.
  rewrite Hty.
  cbn [String.eqb Ascii.eqb Bool.eqb orb p_x p_y withGeom setGeom s_w s_h].
  rewrite !nsub_Fin, !nseq_Fin, !ndiv_Fin_2, !nmul_Fin.
  fold dx dy.
  replace (Reqb dx 0 && Reqb dy 0) with false.
  2:{ symmetry; apply andb_false_iff.
      destruct Hne; [left | right]; apply Reqb_neq; unfold dx, dy; lra. }
  rewrite !ndiv_Fin by nra.
  rewrite nadd_Fin.
  fold (spec_ellipseDenom (w / 2) (h / 2) dx dy).
  set (D := spec_ellipseDenom (w / 2) (h / 2) dx dy) in *.
  rewrite nle_Fin, (Rleb_gt D 0 Hpos).
  unfold nsqrt; rewrite (Rltb_ge D 0) by lra.
  assert (Hs : 0 < sqrt D) by now apply sqrt_lt_R0.
  rewrite ndiv_Fin by lra.
  reflexivity.
Qed.

Lemma anchorPoint_denom_guard (s : Shape) (toward : Point) :
  s_type s = "ellipse"%string ->
  (ellipseDenom s toward <=? Fin 0)%js = true ->
  anchorPoint s toward = shapeCenter s.
Proof.
  intros Hty Hden; unfold anchorPoint.
  destruct (_ && _); [reflexivity |].
  rewrite Hty.
  cbn [String.eqb Ascii.eqb Bool.eqb orb].
  unfold ellipseDenom in Hden; rewrite Hden; reflexivity.
Qed.

(** C2.  For an ellipse with real geometry, non-zero width and height, and a
    real target point other than its centre, the denominator
    [dx²/a² + dy²/b²] is positive and [anchorPoint] is the centre plus
    [(dx, dy) * t] with [t = 1 / sqrt(dx²/a² + dy²/b²)]; whenever the
    denominator the code computes is not positive the centre is returned;
    the ellipse with [a = 50], [b = 25] centred at the origin and a target
    straight above it (positive [y]) gives (0,25). *)
Theorem anchorPoint_ellipse :
  (forall (s : Shape) (x y w h qx qy : R),
      s_type s = "ellipse"%string ->
      w <> 0 -> h <> 0 ->
      qx <> x + w / 2 \/ qy <> y + h / 2 ->
      let dx := qx - (x + w / 2) in
      let dy := qy - (y + h / 2) in
      let t := spec_ellipseScale (w / 2) (h / 2) dx dy in
      0 < spec_ellipseDenom (w / 2) (h / 2) dx dy /\
      anchorPoint (withGeom x y w h s) (mkPoint (Fin qx) (Fin qy))
      = mkPoint (Fin (x + w / 2 + dx * t)) (Fin (y + h / 2 + dy * t))) /\
  (forall (s : Shape) (toward : Point),
      s_type s = "ellipse"%string ->
      (ellipseDenom s toward <=? Fin 0)%js = true ->
      anchorPoint s toward = shapeCenter s) /\
  (forall (s : Shape) (q : R),
      s_type s = "ellipse"%string ->
      0 < q ->
      anchorPoint (withGeom (-50) (-25) 100 50 s) (mkPoint (Fin 0) (Fin q))
      = mkPoint (Fin 0) (Fin 25)).
Proof.
  split; [exact ellipse_anchor_formula |].
  split; [exact anchorPoint_denom_guard |].
  intros s q Hty Hq.
  destruct (ellipse_anchor_formula s (-50) (-25) 100 50 0 q Hty)
    as [_ ->]; try lra.
  unfold spec_ellipseScale, spec_ellipseDenom.
  replace (sqrt _) with (q / 25).
  - f_equal; f_equal; field; lra.
  - symmetry; apply sqrt_lem_1.
    + assert (0 <= q * q) by nra.
      assert (0 <= (q - (-25 + 50 / 2)) * (q - (-25 + 50 / 2))) by nra.
      replace ((0 - (-50 + 100 / 2)) * (0 - (-50 + 100 / 2))) with 0 by lra.
      unfold Rdiv at 1; rewrite Rmult_0_l, Rplus_0_l.
      apply Rmult_le_pos; [lra |].
      apply Rlt_le, Rinv_0_lt_compat; lra.
    + apply Rmult_le_pos; lra.
    + field.
Qed.

(** Toward a point with a negative [y] the same ellipse is left at
    (0,-25). *)
Lemma ellipse_anchor_negative_y (s : Shape) (q : R) :
  s_type s = "ellipse"%string ->
  q < 0 ->
  anchorPoint (withGeom (-50) (-25) 100 50 s) (mkPoint (Fin 0) (Fin q))
  = mkPoint (Fin 0) (Fin (-25)).
Proof.
  intros Hty Hq.
  destruct (ellipse_anchor_formula s (-50) (-25) 100 50 0 q Hty)
    as [_ ->]; try lra.
  unfold spec_ellipseScale, spec_ellipseDenom.
  replace (sqrt _) with (- q / 25).
  - f_equal; f_equal; field; lra.
  - symmetry; apply sqrt_lem_1.
    + replace ((0 - (-50 + 100 / 2)) * (0 - (-50 + 100 / 2))) with 0 by lra.
      unfold Rdiv at 1; rewrite Rmult_0_l, Rplus_0_l.
      apply Rmult_le_pos; [nra |].
      apply Rlt_le, Rinv_0_lt_compat; lra.
    + apply Rmult_le_pos; lra.
    + field.
Qed.

(** C2 applied to the ellipse of the specification, target (0,100). *)
Lemma anchorPoint_ellipse_witness :
  s_type ellipse0 = "ellipse"%string /\
  100 <> 0 /\ 50 <> 0 /\
  (0 <> -50 + 100 / 2 \/ 100 <> -25 + 50 / 2) /\
  (0 < spec_ellipseDenom (100 / 2) (50 / 2)
         (0 - (-50 + 100 / 2)) (100 - (-25 + 50 / 2)) /\
   anchorPoint (withGeom (-50) (-25) 100 50 ellipse0)
     (mkPoint (Fin 0) (Fin 100))
   = mkPoint
       (Fin (-50 + 100 / 2
             + (0 - (-50 + 100 / 2))
               * spec_ellipseScale (100 / 2) (50 / 2)
                   (0 - (-50 + 100 / 2)) (100 - (-25 + 50 / 2))))
       (Fin (-25 + 50 / 2
             + (100 - (-25 + 50 / 2))
               * spec_ellipseScale (100 / 2) (50 / 2)
                   (0 - (-50 + 100 / 2)) (100 - (-25 + 50 / 2))))) /\
  anchorPoint (withGeom (-50) (-25) 100 50 ellipse0)
    (mkPoint (Fin 0) (Fin 100))
  = mkPoint (Fin 0) (Fin 25).
Proof.
  split; [reflexivity |].
  split; [lra |].
  split; [lra |].
  split; [right; lra |].
  split.
  - apply (proj1 anchorPoint_ellipse ellipse0 (-50) (-25) 100 50 0 100);
      [reflexivity | lra | lra | right; lra].
  - apply (proj2 (proj2 anchorPoint_ellipse) ellipse0 100);
      [reflexivity | lra].
Defined.

Lemma anchorPoint_zero_direction (s : Shape) (toward : Point) :
  ((p_x toward - p_x (shapeCenter s) === Fin 0)
   && (p_y toward - p_y (shapeCenter s) === Fin 0))%js = true ->
  anchorPoint s toward = shapeCenter s.
Proof. intros H; unfold anchorPoint; rewrite H; reflexivity. Qed.

Lemma anchorPoint_other_kind (s : Shape) (toward : Point) :
  s_type s <> "rect"%string ->
  s_type s <> "symbol"%string ->
  s_type s <> "ellipse"%string ->
  anchorPoint s toward = shapeCenter s.
Proof.
  intros Hr Hs He; unfold anchorPoint.
  apply String.eqb_neq in Hr, Hs, He.
  rewrite Hr, Hs, He; cbn [orb].
  destruct (_ && _); reflexivity.
Qed.

Lemma anchorPoint_at_center (s : Shape) (x y w h : R) :
  anchorPoint (withGeom x y w h s) (shapeCenter (withGeom x y w h s))
  = shapeCenter (withGeom x y w h s).
Proof.
  apply anchorPoint_zero_direction.
  rewrite shapeCenter_withGeom; cbn [p_x p_y].
  rewrite !nsub_Fin, !nseq_Fin.
  rewrite !(proj2 (Reqb_true_iff _ _)) by lra.
  reflexivity.
Qed.

Lemma anchorPoint_finite (s : Shape) (x y w h qx qy : R) :
  w <> 0 -> h <> 0 ->
  let r := anchorPoint (withGeom x y w h s) (mkPoint (Fin qx) (Fin qy)) in
  isFinite (p_x r) = true /\ isFinite (p_y r) = true.
Proof.
  intros Hw Hh.
  destruct (Req_dec_T qx (x + w / 2)) as [Hx | Hx];
    [destruct (Req_dec_T qy (y + h / 2)) as [Hy | Hy] |].
  1:{ subst qx qy.
      pose proof (anchorPoint_at_center s x y w h) as Hc.
      rewrite shapeCenter_withGeom in Hc; rewrite Hc.
      split; reflexivity. }
  all: assert (Hne : qx <> x + w / 2 \/ qy <> y + h / 2) by tauto.
  all: destruct (String.eqb_spec (s_type s) "rect") as [Hr | Hr];
    [rewrite rect_anchor_formula by (try (left; exact Hr); exact Hne);
     split; reflexivity |].
  all: destruct (String.eqb_spec (s_type s) "symbol") as [Hs | Hs];
    [rewrite rect_anchor_formula by (try (right; exact Hs); exact Hne);
     split; reflexivity |].
  all: destruct (String.eqb_spec (s_type s) "ellipse") as [He | He];
    [destruct (ellipse_anchor_formula s x y w h qx qy He Hw Hh Hne)
       as [_ ->]; split; reflexivity |].
  all: rewrite anchorPoint_other_kind by assumption.
  all: rewrite shapeCenter_withGeom; split; reflexivity.
Qed.

(** C3.  [anchorPoint] is a function on every shape and point (the source
    has no operation that raises on numbers).  For a shape of any kind with
    real geometry, the anchor toward its own centre is the centre; a
    zero-length direction gives the centre; an ellipse denominator that is
    not positive gives the centre; a kind other than rect, symbol and
    ellipse gives the centre; and with non-zero width and height and a real
    target both coordinates of the result are finite, so no division by zero
    shows in it. *)
Theorem anchorPoint_total :
  (forall (s : Shape) (x y w h : R),
      anchorPoint (withGeom x y w h s) (shapeCenter (withGeom x y w h s))
      = shapeCenter (withGeom x y w h s)) /\
  (forall (s : Shape) (toward : Point),
      ((p_x toward - p_x (shapeCenter s) === Fin 0)
       && (p_y toward - p_y (shapeCenter s) === Fin 0))%js = true ->
      anchorPoint s toward = shapeCenter s) /\
  (forall (s : Shape) (toward : Point),
      s_type s = "ellipse"%string ->
      (ellipseDenom s toward <=? Fin 0)%js = true ->
      anchorPoint s toward = shapeCenter s) /\
  (forall (s : Shape) (toward : Point),
      s_type s <> "rect"%string ->
      s_type s <> "symbol"%string ->
      s_type s <> "ellipse"%string ->
      anchorPoint s toward = shapeCenter s) /\
  (forall (s : Shape) (x y w h qx qy : R),
      w <> 0 -> h <> 0 ->
      let r := anchorPoint (withGeom x y w h s) (mkPoint (Fin qx) (Fin qy)) in
      isFinite (p_x r) = true /\ isFinite (p_y r) = true).
Proof.
  split; [exact anchorPoint_at_center |].
  split; [exact anchorPoint_zero_direction |].
  split; [exact anchorPoint_denom_guard |].
  split; [exact anchorPoint_other_kind |].
  exact anchorPoint_finite.
Qed.

(** C3 applied to a shape of an unknown kind and to the rectangle of the
    examples. *)
Lemma anchorPoint_total_witness :
  (s_type triangle0 <> "rect"%string /\
   s_type triangle0 <> "symbol"%string /\
   s_type triangle0 <> "ellipse"%string /\
   anchorPoint triangle0 (mkPoint (Fin 7) (Fin 9)) = shapeCenter triangle0) /\
  (100 <> 0 /\ 50 <> 0 /\
   isFinite
     (p_x (anchorPoint (withGeom 0 0 100 50 rect0)
             (mkPoint (Fin 200) (Fin 25)))) = true /\
   isFinite
     (p_y (anchorPoint (withGeom 0 0 100 50 rect0)
             (mkPoint (Fin 200) (Fin 25)))) = true).
Proof.
  split.
  - assert (H1 : s_type triangle0 <> "rect"%string) by discriminate.
    assert (H2 : s_type triangle0 <> "symbol"%string) by discriminate.
    assert (H3 : s_type triangle0 <> "ellipse"%string) by discriminate.
    repeat split; try assumption.
    exact (proj1 (proj2 (proj2 (proj2 anchorPoint_total)))
             triangle0 (mkPoint (Fin 7) (Fin 9)) H1 H2 H3).
  - assert (Hw : 100 <> 0) by lra.
    assert (Hh : 50 <> 0) by lra.
    split; [exact Hw |].
    split; [exact Hh |].
    exact (proj2 (proj2 (proj2 (proj2 anchorPoint_total)))
             rect0 0 0 100 50 200 25 Hw Hh).
Defined.

(** ** Selection and the marquee *)

Lemma Tag_eqb_eq (a b : Tag) : Tag_eqb a b = true <-> a = b.
Proof.
  destruct a as [i | i], b as [j | j]; simpl;
    rewrite ?Z.eqb_eq; split; intros H;
    try discriminate; try (inversion H; reflexivity); congruence.
Qed.

Lemma In_selAdd (t u : Tag) (sel : list Tag) :
  In t (selAdd u sel) <-> t = u \/ In t sel.
Proof.
  unfold selAdd.
  destruct (existsb (Tag_eqb u) sel) eqn:E.
  - apply existsb_exists in E as [v [Hv Huv]].
    apply Tag_eqb_eq in Huv; subst v.
    split; [tauto | intros [-> | H]; assumption].
  - rewrite in_app_iff; simpl; split; intros H; intuition congruence.
Qed.

(** Membership after a loop that adds, for each element [a] with
    [g a = Some u], the tag [u]. *)
Lemma In_fold_selAdd {A : Type} (g : A -> option Tag) (t : Tag)
  (l : list A) (sel : list Tag) :
  In t (fold_left
          (fun acc a => match g a with Some u => selAdd u acc | None => acc end)
          l sel)
  <-> In t sel \/ exists a, In a l /\ g a = Some t.
Proof.
  revert sel; induction l as [| a l IH]; intros sel; simpl.
  - split; [tauto | intros [H | [a [[] _]]]; exact H].
  - rewrite IH.
    destruct (g a) as [u |] eqn:Ega.
    + rewrite In_selAdd; split.
      * intros [[-> | H] | [b [Hb Hgb]]]; eauto.
      * intros [H | [b [[-> | Hb] Hgb]]]; eauto.
        rewrite Ega in Hgb; inversion Hgb; auto.
    + split.
      * intros [H | [b [Hb Hgb]]]; eauto.
      * intros [H | [b [[-> | Hb] Hgb]]]; eauto; congruence.
Qed.

Lemma fold_left_ext_in {A B : Type} (f g : B -> A -> B) (l : list A) (b : B) :
  (forall acc a, f acc a = g acc a) ->
  fold_left f l b = fold_left g l b.
Proof.
  intros H; revert b; induction l as [| a l IH]; intros b; simpl;
    [reflexivity | rewrite H; apply IH].
Qed.

Lemma nle_nmin (l a b : num) :
  (l <=? nmin a b)%js = (l <=? a)%js && (l <=? b)%js.
Proof.
  destruct l, a, b; cbn [nmin nle andb]; rdec;
    cbn [nle andb]; rdec; reflexivity.
Qed.

Lemma nge_nmax (r a b : num) :
  (r >=? nmax a b)%js = (a <=? r)%js && (b <=? r)%js.
Proof.
  unfold nge.
  destruct r, a, b; cbn [nmax nle andb]; rdec;
    cbn [nle andb]; rdec; reflexivity.
Qed.

Lemma segmentInMarquee_both (left right top bottom : num) (p1 p2 : Point) :
  segmentInMarquee left right top bottom p1 p2
  = spec_pointInMarquee left right top bottom p1
    && spec_pointInMarquee left right top bottom p2.
Proof.
  unfold segmentInMarquee, spec_pointInMarquee.
  rewrite !nle_nmin, !nge_nmax.
  destruct (left <=? p_x p1)%js, (left <=? p_x p2)%js,
    (p_x p1 <=? right)%js, (p_x p2 <=? right)%js,
    (top <=? p_y p1)%js, (top <=? p_y p2)%js,
    (p_y p1 <=? bottom)%js, (p_y p2 <=? bottom)%js; reflexivity.
Qed.

Lemma shapeInMarquee_real (s : Shape) (x y w h X0 Y0 X1 Y1 : R) :
  0 <= w -> 0 <= h ->
  shapeInMarquee (nmin (Fin X0) (Fin X1)) (nmax (Fin X0) (Fin X1))
    (nmin (Fin Y0) (Fin Y1)) (nmax (Fin Y0) (Fin Y1)) (withGeom x y w h s)
  = true
  <-> (forall px py : R,
          x <= px <= x + w -> y <= py <= y + h ->
          Rmin X0 X1 <= px <= Rmax X0 X1 /\ Rmin Y0 Y1 <= py <= Rmax Y0 Y1).
Proof.
  intros Hw Hh.
  unfold shapeInMarquee, nge, withGeom, setGeom; cbn [s_x s_y s_w s_h].
  rewrite !nmin_Fin, !nmax_Fin, !nadd_Fin, !nle_Fin.
  rewrite !andb_true_iff, !Rleb_true_iff.
  split.
  - intros [[[H1 H2] H3] H4] px py Hx Hy; lra.
  - intros H.
    destruct (H x y) as [Ha Hb]; [lra | lra |].
    destruct (H (x + w) (y + h)) as [Hc Hd]; [lra | lra |].
    repeat split; lra.
Qed.

(** C5.  A pointer-up that ends a marquee gesture commits the selection
    [applyMarquee] computes from the gesture's start and the release point,
    hides the marquee and clears the drag descriptor.  After
    [applyMarquee], a shape tag is in the selection exactly when
    it was kept from the old selection (additive commit) or a shape with that
    id passes the containment test; for real geometry with non-negative size
    the test holds exactly when every point of the shape's bounding
    rectangle is in the closed marquee rectangle, so a shape touching the
    boundary is in and a shape one unit over a side is out.  A connector tag
    is in the selection exactly when it was kept or a connector with that id
    has both shapes and both of its rendered anchor points in the closed
    marquee rectangle. *)
Theorem applyMarquee_selects :
  (forall (inp : Inputs) (e : PointerEvent) (st : State) (start : Point),
      drag st = Some (DragMarquee start) ->
      exists st',
        onUp inp e st = Some st' /\
        drag st' = None /\
        m_visible (marqueeRect st') = false /\
        selection st'
        = selection
            (applyMarquee (p_x start) (p_y start)
               (p_x (e_pt e)) (p_y (e_pt e)) (shiftKey e) st)) /\
  (forall (x0 y0 x1 y1 : num) (add : bool) (st : State) (i : Z),
      let left := nmin x0 x1 in
      let right := nmax x0 x1 in
      let top := nmin y0 y1 in
      let bottom := nmax y0 y1 in
      let st' := applyMarquee x0 y0 x1 y1 add st in
      (In (ShapeTag i) (selection st') <->
       (add = true /\ In (ShapeTag i) (selection st)) \/
       exists s, In s (shapes st) /\ s_id s = i /\
                 shapeInMarquee left right top bottom s = true) /\
      (In (ConnTag i) (selection st') <->
       (add = true /\ In (ConnTag i) (selection st)) \/
       exists c p1 p2,
         In c (connectors st) /\ c_id c = i /\
         connectorEndpoints (shapes st) c = Some (p1, p2) /\
         spec_pointInMarquee left right top bottom p1 = true /\
         spec_pointInMarquee left right top bottom p2 = true)) /\
  (forall (s : Shape) (x y w h X0 Y0 X1 Y1 : R),
      0 <= w -> 0 <= h ->
      shapeInMarquee (nmin (Fin X0) (Fin X1)) (nmax (Fin X0) (Fin X1))
        (nmin (Fin Y0) (Fin Y1)) (nmax (Fin Y0) (Fin Y1))
        (withGeom x y w h s) = true
      <-> (forall px py : R,
              x <= px <= x + w -> y <= py <= y + h ->
              Rmin X0 X1 <= px <= Rmax X0 X1 /\
              Rmin Y0 Y1 <= py <= Rmax Y0 Y1)) /\
  (forall s : Shape,
      shapeInMarquee (Fin 0) (Fin 100) (Fin 0) (Fin 100)
        (withGeom 0 0 100 100 s) = true /\
      shapeInMarquee (Fin 0) (Fin 100) (Fin 0) (Fin 100)
        (withGeom 0 0 101 100 s) = false /\
      shapeInMarquee (Fin 0) (Fin 100) (Fin 0) (Fin 100)
        (withGeom (-1) 0 100 100 s) = false).
Proof.
  split; [| split; [| split; [exact shapeInMarquee_real |]]].
  - intros inp e st start Hd.
    unfold onUp; rewrite Hd.
    eexists; split; [reflexivity |].
    repeat split.
  - intros x0 y0 x1 y1 add st i left right top bottom st'.
    unfold st', applyMarquee; fold left right top bottom.
    cbn [selection set_selection].
    set (gs := fun s : Shape =>
                 if shapeInMarquee left right top bottom s
                 then Some (ShapeTag (s_id s)) else None).
    set (gc := fun c : Connector =>
                 match connectorEndpoints (shapes st) c with
                 | Some (p1, p2) =>
                     if segmentInMarquee left right top bottom p1 p2
                     then Some (ConnTag (c_id c)) else None
                 | None => None
                 end).
    rewrite (fold_left_ext_in _
               (fun acc c => match gc c with
                             | Some u => selAdd u acc | None => acc end)).
    2:{ intros acc c; unfold gc, connectorEndpoints.
        destruct (findShape (c_src c) (shapes st));
          [destruct (findShape (c_dst c) (shapes st)) |];
          try reflexivity.
        destruct (segmentInMarquee _ _ _ _ _ _); reflexivity. }
    rewrite (fold_left_ext_in _
               (fun acc s => match gs s with
                             | Some u => selAdd u acc | None => acc end)).
    2:{ intros acc s; unfold gs.
        destruct (shapeInMarquee _ _ _ _ _); reflexivity. }
    assert (Hsel0 : forall t, In t (if add then selection st else [])
                              <-> add = true /\ In t (selection st)).
    { intros t; destruct add; simpl; intuition congruence. }
    split.
    + rewrite !In_fold_selAdd, Hsel0; split.
      * intros [[H | [s [Hs Hg]]] | [c [Hc Hg]]].
        -- left; exact H.
        -- right; exists s; unfold gs in Hg.
           destruct (shapeInMarquee _ _ _ _ s) eqn:E; inversion Hg; auto.
        -- exfalso; unfold gc in Hg.
           destruct (connectorEndpoints _ c) as [[p1 p2] |];
             [destruct (segmentInMarquee _ _ _ _ _ _) |]; discriminate.
      * intros [H | [s [Hs [Hi Hin]]]]; [left; left; exact H |].
        left; right; exists s; split; [exact Hs |].
        unfold gs; rewrite Hin, Hi; reflexivity.
    + rewrite !In_fold_selAdd, Hsel0; split.
      * intros [[H | [s [Hs Hg]]] | [c [Hc Hg]]].
        -- left; exact H.
        -- exfalso; unfold gs in Hg.
           destruct (shapeInMarquee _ _ _ _ s); discriminate.
        -- right; unfold gc in Hg.
           destruct (connectorEndpoints _ c) as [[p1 p2] |] eqn:E;
             [| discriminate].
           destruct (segmentInMarquee _ _ _ _ _ _) eqn:E2; [| discriminate].
           rewrite segmentInMarquee_both in E2.
           apply andb_true_iff in E2 as [E2 E3].
           exists c, p1, p2; inversion Hg; auto.
      * intros [H | [c [p1 [p2 [Hc [Hi [He [H1 H2]]]]]]]];
          [left; left; exact H |].
        right; exists c; split; [exact Hc |].
        unfold gc; rewrite He, segmentInMarquee_both, H1, H2, Hi.
        reflexivity.
  - intros s.
    unfold shapeInMarquee, nge, withGeom, setGeom; cbn [s_x s_y s_w s_h].
    rewrite !nadd_Fin, !nle_Fin.
    repeat split.
    + rewrite !Rleb_le by lra; reflexivity.
    + rewrite (Rleb_gt (0 + 101) 100) by lra.
      rewrite !Rleb_le by lra; reflexivity.
    + rewrite (Rleb_gt 0 (-1)) by lra; reflexivity.
Qed.

(** C5 applied to a marquee from (0,0) released at (100,100) over a
    100 by 100 rectangle at the origin. *)
Lemma applyMarquee_selects_witness :
  drag marqueeFrom0 = Some (DragMarquee (mkPoint (Fin 0) (Fin 0))) /\
  (exists st',
      onUp inputs0 (pointerAt 100 100) marqueeFrom0 = Some st' /\
      drag st' = None /\
      m_visible (marqueeRect st') = false /\
      selection st'
      = selection
          (applyMarquee (Fin 0) (Fin 0) (Fin 100) (Fin 100) false
             marqueeFrom0)) /\
  0 <= 100 /\
  (shapeInMarquee (nmin (Fin 0) (Fin 100)) (nmax (Fin 0) (Fin 100))
     (nmin (Fin 0) (Fin 100)) (nmax (Fin 0) (Fin 100))
     (withGeom 0 0 100 100 rect0) = true
   <-> (forall px py : R,
           0 <= px <= 0 + 100 -> 0 <= py <= 0 + 100 ->
           Rmin 0 100 <= px <= Rmax 0 100 /\
           Rmin 0 100 <= py <= Rmax 0 100)).
Proof.
  split; [reflexivity |].
  split.
  - apply (proj1 applyMarquee_selects inputs0 (pointerAt 100 100)
             marqueeFrom0 (mkPoint (Fin 0) (Fin 0))).
    reflexivity.
  - assert (H : 0 <= 100) by lra.
    split; [exact H |].
    exact (proj1 (proj2 (proj2 applyMarquee_selects))
             rect0 0 0 100 100 0 0 100 100 H H).
Defined.

(** ** What one event does to the collections and the counter *)

Lemma map_updateShape {A : Type} (g : Shape -> A) (sid : Z)
  (f : Shape -> Shape) (l : list Shape) :
  (forall s, g (f s) = g s) ->
  map g (updateShape sid f l) = map g l.
Proof.
  intros Hf; induction l as [| s l IH]; simpl; [reflexivity |].
  destruct (s_id s =? sid)%Z; simpl; [now rewrite Hf | now rewrite IH].
Qed.

Lemma map_fold_updateShape {A : Type} (g : Shape -> A)
  (f : Z -> Shape -> Shape) (sids : list Z) (l : list Shape) :
  (forall sid s, g (f sid s) = g s) ->
  map g (fold_left (fun acc sid => updateShape sid (f sid) acc) sids l)
  = map g l.
Proof.
  intros Hf; revert l; induction sids as [| sid sids IH]; intros l; simpl;
    [reflexivity |].
  rewrite IH; apply map_updateShape; apply Hf.
Qed.

Lemma map_id_identity (l : list Shape) :
  map s_id l = map (fun t => fst (fst t)) (map identity l).
Proof. rewrite map_map; reflexivity. Qed.

Ltac same := solve [apply fp_same; cbn; reflexivity].

Lemma onDown_footprint (inp : Inputs) (e : PointerEvent) (st st' : State) :
  onDown inp e st = Some st' -> footprint st st'.
Proof.
  unfold onDown; intros H.
  destruct (e_handle e) as [[sid pos] |].
  { destruct (findShape sid (shapes st)); inversion H; subst; same. }
  destruct (tool st =? "select")%string.
  { destruct (e_tag e) as [tag |]; inversion H; subst;
      [destruct (isShapeTag tag) |]; same. }
  destruct ((tool st =? "rect")%string || (tool st =? "ellipse")%string
            || (tool st =? "symbol")%string).
  { inversion H; subst; eapply fp_shape; cbn; try reflexivity.
    cbn; discriminate. }
  destruct (tool st =? "connector")%string.
  { destruct (e_tag e) as [[sid | cid] |]; inversion H; subst; same. }
  destruct (tool st =? "text")%string.
  { destruct (e_tag e) as [[sid | cid] |];
      try (inversion H; subst; same).
    destruct (findShape sid (shapes st)); [| discriminate].
    destruct (e_prompt e); inversion H; subst; [| same].
    apply fp_same; cbn; try reflexivity.
    now apply map_updateShape. }
  inversion H; subst; same.
Qed.

Lemma onMove_footprint (e : PointerEvent) (st st' : State) :
  onMove e st = Some st' -> footprint st st'.
Proof.
  unfold onMove; intros H.
  destruct (drag st) as [[sid pos start orig | sids start | start
                         | sid start | src preview] |];
    try (inversion H; subst; same).
  - destruct (findShape sid (shapes st));
      [| inversion H; subst; same].
    destruct (resizeX _ _ _) as [nx nw], (resizeY _ _ _) as [ny nh].
    inversion H; subst; apply fp_same; cbn; try reflexivity.
    now apply map_updateShape.
  - inversion H; subst; apply fp_same; cbn; try reflexivity.
    now apply (map_fold_updateShape identity
                 (fun _ s => setXY (snap (s_x s + _)) (snap (s_y s + _)) s)).
  - destruct (findShape sid (shapes st)); [| discriminate].
    inversion H; subst; apply fp_same; cbn; try reflexivity.
    now apply map_updateShape.
  - destruct (findShape src (shapes st)); inversion H; subst; same.
Qed.

Lemma onUp_footprint (inp : Inputs) (e : PointerEvent) (st st' : State) :
  onUp inp e st = Some st' -> footprint st st'.
Proof.
  unfold onUp; intros H.
  destruct (drag st) as [[sid pos start orig | sids start | start
                         | sid start | src preview] |];
    try (inversion H; subst; same).
  destruct (e_tag e) as [[dst | cid] |];
    try (inversion H; subst; same).
  destruct (dst =? src)%Z eqn:E; cbn [negb] in H;
    inversion H; subst; [same |].
  apply Z.eqb_neq in E.
  eapply fp_connector; cbn; try reflexivity.
  cbn; congruence.
Qed.

Lemma dispatch_footprint (st : State) (ev : Event) :
  footprint st (dispatch st ev).
Proof.
  destruct ev as [inp e | e | inp e | t | v |]; cbn.
  - destruct (onDown inp e st) eqn:E; cbn;
      [eapply onDown_footprint; eassumption | same].
  - destruct (onMove e st) eqn:E; cbn;
      [eapply onMove_footprint; eassumption | same].
  - destruct (onUp inp e st) eqn:E; cbn;
      [eapply onUp_footprint; eassumption | same].
  - same.
  - same.
  - now apply fp_reset.
Qed.

(** An invariant of the collections and the counter that every kind of
    footprint keeps holds after every run. *)
Lemma run_invariant (P : State -> Prop) :
  (forall st st', footprint st st' -> P st -> P st') ->
  forall (evs : list Event) (st : State), P st -> P (run evs st).
Proof.
  intros Hstep evs; induction evs as [| ev evs IH]; intros st Hst; simpl;
    [exact Hst |].
  apply IH; eapply Hstep; [apply dispatch_footprint | exact Hst].
Qed.

(** ** Identifiers *)

Lemma footprint_idsFresh (st st' : State) :
  footprint st st' -> idsFresh st -> idsFresh st'.
Proof.
  unfold idsFresh, allIds; intros Hfp [Hlt Hnd].
  destruct Hfp as [Hs Hc Hn | s Hs Hi _ Hc Hn | c Hs Hc Hi _ Hn | Hs Hc Hn].
  - rewrite !map_id_identity, Hs, <- !map_id_identity, Hc, Hn.
    split; assumption.
  - rewrite Hs, Hc, Hn, map_app; simpl; rewrite Hi, <- app_assoc; simpl.
    split.
    + apply Forall_app in Hlt as [H1 H2].
      apply Forall_app; split; [| constructor].
      * eapply Forall_impl; [| exact H1]; simpl; intros; lia.
      * lia.
      * eapply Forall_impl; [| exact H2]; simpl; intros; lia.
    + eapply Permutation_NoDup; [apply Permutation_middle |].
      constructor; [| exact Hnd].
      intros Hin; rewrite Forall_forall in Hlt.
      specialize (Hlt _ Hin); lia.
  - rewrite Hs, Hc, Hn, map_app; simpl; rewrite Hi, app_assoc.
    split.
    + apply Forall_app; split; [| constructor; [lia | constructor]].
      eapply Forall_impl; [| exact Hlt]; simpl; intros; lia.
    + eapply Permutation_NoDup; [apply Permutation_cons_append |].
      constructor; [| exact Hnd].
      intros Hin; rewrite Forall_forall in Hlt.
      specialize (Hlt _ Hin); lia.
  - rewrite Hs, Hc; simpl; split; constructor.
Qed.

Lemma footprint_new_ids (st st' : State) (i : Z) :
  footprint st st' ->
  In i (allIds st') ->
  In i (allIds st) \/ (i = nextId st /\ nextId st' = (nextId st + 1)%Z).
Proof.
  unfold allIds; intros Hfp Hin.
  destruct Hfp as [Hs Hc Hn | s Hs Hi _ Hc Hn | c Hs Hc Hi _ Hn | Hs Hc Hn].
  - left; rewrite !map_id_identity, Hs, Hc in Hin.
    now rewrite !map_id_identity.
  - rewrite Hs, Hc, map_app in Hin; simpl in Hin.
    rewrite !in_app_iff in Hin; simpl in Hin; rewrite in_app_iff.
    destruct Hin as [[H | [H | []]] | H]; auto.
    right; split; congruence.
  - rewrite Hs, Hc, map_app in Hin; simpl in Hin.
    rewrite !in_app_iff in Hin; simpl in Hin; rewrite in_app_iff.
    destruct Hin as [H | [H | [H | []]]]; auto.
    right; split; congruence.
  - rewrite Hs, Hc in Hin; destruct Hin.
Qed.

Lemma idsFresh_initial : idsFresh initialState.
Proof. split; constructor. Qed.

Lemma run_idsFresh (evs : list Event) : idsFresh (run evs initialState).
Proof.
  apply (run_invariant idsFresh footprint_idsFresh), idsFresh_initial.
Qed.

(** ** The connect gesture *)

Lemma footprint_no_self_loop (st st' : State) :
  footprint st st' ->
  Forall (fun c => c_src c <> c_dst c) (connectors st) ->
  Forall (fun c => c_src c <> c_dst c) (connectors st').
Proof.
  intros Hfp H.
  destruct Hfp as [Hs Hc Hn | s Hs Hi _ Hc Hn | c Hs Hc Hi Hne Hn | Hs Hc Hn];
    rewrite Hc; auto.
  apply Forall_app; split; [exact H | constructor; [exact Hne | constructor]].
Qed.

(** C6.  A pointer-up that ends a connect gesture never fails, clears the
    drag descriptor, drops the preview line and leaves the shapes alone; it
    appends one connector from the source to the target, with the current
    stroke and width and the next id, when the release target is a shape
    other than the source, and leaves the connectors as they were in every
    other case.  No run of the editor from its initial state has a connector
    from a shape to itself. *)
Theorem onUp_connect :
  (forall (inp : Inputs) (e : PointerEvent) (st : State) (src : Z)
          (preview : Line),
      drag st = Some (DragConnect src preview) ->
      exists st',
        onUp inp e st = Some st' /\
        drag st' = None /\
        previewAttached st' = false /\
        shapes st' = shapes st /\
        ((exists dst,
             e_tag e = Some (ShapeTag dst) /\ dst <> src /\
             connectors st'
             = connectors st ++ [newConnector inp st src dst]) \/
         ((forall dst, e_tag e = Some (ShapeTag dst) -> dst = src) /\
          connectors st' = connectors st))) /\
  (forall evs : list Event,
      Forall (fun c => c_src c <> c_dst c)
        (connectors (run evs initialState))).
Proof.
  split.
  - intros inp e st src preview Hd.
    unfold onUp; rewrite Hd.
    eexists; split; [reflexivity |].
    destruct (e_tag e) as [[dst | cid] |].
    + destruct (dst =? src)%Z eqn:E; cbn [negb].
      * apply Z.eqb_eq in E; subst dst.
        repeat split; try reflexivity.
        right; split; [| reflexivity].
        intros d Hd'; congruence.
      * apply Z.eqb_neq in E.
        repeat split; try reflexivity.
        left; exists dst; repeat split; assumption.
    + repeat split; try reflexivity.
      right; split; [intros d Hd'; discriminate | reflexivity].
    + repeat split; try reflexivity.
      right; split; [intros d Hd'; discriminate | reflexivity].
  - intros evs.
    apply (run_invariant
             (fun st => Forall (fun c => c_src c <> c_dst c) (connectors st))
             footprint_no_self_loop).
    constructor.
Qed.

(** C6 applied to a gesture from shape 1 released over shape 2. *)
Lemma onUp_connect_witness :
  drag connectingFrom1
  = Some (DragConnect 1 (mkLine (Fin 0) (Fin 0) (Fin 0) (Fin 0))) /\
  exists st',
    onUp inputs0 (pointerOver 250 50 (ShapeTag 2)) connectingFrom1 = Some st' /\
    drag st' = None /\
    previewAttached st' = false /\
    shapes st' = shapes connectingFrom1 /\
    ((exists dst,
         e_tag (pointerOver 250 50 (ShapeTag 2)) = Some (ShapeTag dst) /\
         dst <> 1%Z /\
         connectors st'
         = connectors connectingFrom1
           ++ [newConnector inputs0 connectingFrom1 1 dst]) \/
     ((forall dst,
          e_tag (pointerOver 250 50 (ShapeTag 2)) = Some (ShapeTag dst) ->
          dst = 1%Z) /\
      connectors st' = connectors connectingFrom1)).
Proof.
  split; [reflexivity |].
  apply (proj1 onUp_connect inputs0 (pointerOver 250 50 (ShapeTag 2))
           connectingFrom1 1%Z (mkLine (Fin 0) (Fin 0) (Fin 0) (Fin 0))).
  reflexivity.
Defined.

(** ** The symbol field of created shapes *)

Lemma drawingTool_test (t : string) :
  drawingTool t ->
  (t =? "select")%string = false /\
  ((t =? "rect")%string || (t =? "ellipse")%string
   || (t =? "symbol")%string) = true /\
  (if (t =? "symbol")%string then "symbol"%string else t) = t.
Proof. intros [-> | [-> | ->]]; repeat split. Qed.

Lemma footprint_symbol_present (st st' : State) :
  footprint st st' ->
  Forall (fun s => s_symbol s <> None) (shapes st) ->
  Forall (fun s => s_symbol s <> None) (shapes st').
Proof.
  intros Hfp H.
  destruct Hfp as [Hs Hc Hn | s Hs Hi Hsym Hc Hn | c Hs Hc Hi Hne Hn
                  | Hs Hc Hn].
  - rewrite Forall_forall in *; intros s' Hs'.
    assert (Hin : In (identity s') (map identity (shapes st)))
      by (rewrite <- Hs; now apply in_map).
    apply in_map_iff in Hin as [s [Hid Hin]].
    replace (s_symbol s') with (s_symbol s)
      by (unfold identity in Hid; congruence).
    now apply H.
  - rewrite Hs; apply Forall_app; split; [exact H |].
    constructor; [exact Hsym | constructor].
  - rewrite Hs; exact H.
  - rewrite Hs; constructor.
Qed.

(** C9, counterexample.  A rectangle drawn in the initial editor carries the
    symbol field, with the selector's value. *)
Lemma onDown_rect_has_symbol :
  exists st' s,
    onDown inputs0 (pointerAt 0 0) (toolClick "rect" initialState) = Some st' /\
    shapes st' = [s] /\
    s_type s = "rect"%string /\
    s_symbol s = Some "pipe"%string /\
    s_symbol s <> None.
Proof.
  eexists; eexists; split; [reflexivity |].
  cbn; repeat split; discriminate.
Qed.

(** C9, as the code has it.  A pointer-down with a drawing tool, off the
    resize handles, appends one shape whose kind is the tool and whose symbol
    field holds the value of the symbol-kind selector, whatever the kind;
    [serialize] writes the shapes with that field; and every shape of every
    run of the editor from its initial state has the field. *)
Theorem onDown_symbol_always :
  (forall (inp : Inputs) (e : PointerEvent) (st : State),
      e_handle e = None ->
      drawingTool (tool st) ->
      exists st' s,
        onDown inp e st = Some st' /\
        shapes st' = shapes st ++ [s] /\
        s_id s = nextId st /\
        s_type s = tool st /\
        s_symbol s = Some (symbolKindValue inp) /\
        serializeShapes st' = shapes st') /\
  (forall evs : list Event,
      Forall (fun s => s_symbol s <> None) (shapes (run evs initialState))).
Proof.
  split.
  - intros inp e st Hh Ht.
    destruct (drawingTool_test _ Ht) as [Hsel [Hdraw Hty]].
    unfold onDown; rewrite Hh, Hsel, Hdraw.
    eexists; eexists; split; [reflexivity |].
    cbn; rewrite Hty.
    repeat split.
    unfold serializeShapes; cbn; apply map_id.
  - intros evs.
    apply (run_invariant
             (fun st => Forall (fun s => s_symbol s <> None) (shapes st))
             footprint_symbol_present).
    constructor.
Qed.

(** C9 applied to an ellipse drawn in the initial editor. *)
Lemma onDown_symbol_always_witness :
  e_handle (pointerAt 60 60) = None /\
  drawingTool (tool (toolClick "ellipse" initialState)) /\
  exists st' s,
    onDown inputs0 (pointerAt 60 60) (toolClick "ellipse" initialState)
    = Some st' /\
    shapes st' = shapes (toolClick "ellipse" initialState) ++ [s] /\
    s_id s = nextId (toolClick "ellipse" initialState) /\
    s_type s = tool (toolClick "ellipse" initialState) /\
    s_symbol s = Some (symbolKindValue inputs0) /\
    serializeShapes st' = shapes st'.
Proof.
  split; [reflexivity |].
  split; [right; left; reflexivity |].
  apply (proj1 onDown_symbol_always inputs0 (pointerAt 60 60)
           (toolClick "ellipse" initialState)).
  - reflexivity.
  - right; left; reflexivity.
Defined.

(** ** Loading a document *)

Lemma fold_max_ge (ids : list Z) (m : Z) :
  (m <= fold_left Z.max ids m)%Z /\
  Forall (fun i => (i <= fold_left Z.max ids m)%Z) ids /\
  (fold_left Z.max ids m = m \/ In (fold_left Z.max ids m) ids).
Proof.
  revert m; induction ids as [| i ids IH]; intros m; simpl.
  - repeat split; [lia | constructor | left; reflexivity].
  - destruct (IH (Z.max m i)) as [H1 [H2 H3]].
    repeat split.
    + lia.
    + constructor; [lia | exact H2].
    + destruct H3 as [H3 | H3]; [| right; right; exact H3].
      rewrite H3.
      destruct (Z.max_spec m i) as [[_ ->] | [_ ->]]; auto.
Qed.

Lemma maxFrom1_spec (ids : list Z) :
  (1 <= maxFrom1 ids)%Z /\
  Forall (fun i => (i <= maxFrom1 ids)%Z) ids /\
  (maxFrom1 ids = 1%Z \/ In (maxFrom1 ids) ids).
Proof. apply fold_max_ge. Qed.

(** C7, counterexample.  Loading a document with two empty collections and
    no counter sets the counter to 2, not to 1. *)
Lemma loadDocument_empty_is_2 :
  nextId (loadDocument emptyDocument initialState) = 2%Z /\
  nextId (loadDocument emptyDocument initialState) <> 1%Z.
Proof. split; [reflexivity | discriminate]. Qed.

(** C7, as the code has it.  When the document has neither [next_id] nor
    [nextId] (or has them as 0), the loaded counter is one more than the
    greatest of 1 and all ids of the two collections: it is above every id,
    it is at least 2, and it is 2 when both collections are empty. *)
Theorem loadDocument_derives_nextId :
  forall (data : Document) (st : State),
    (d_next_id data = None \/ d_next_id data = Some 0%Z) ->
    (d_nextId data = None \/ d_nextId data = Some 0%Z) ->
    let st' := loadDocument data st in
    let m := (nextId st' - 1)%Z in
    (1 <= m)%Z /\
    Forall (fun i => (i <= m)%Z) (allIds st') /\
    (m = 1%Z \/ In m (allIds st')) /\
    (allIds st' = [] -> nextId st' = 2%Z).
Proof.
  intros data st H1 H2 st' m.
  assert (Hn : nextId st' = (maxFrom1 (allIds st') + 1)%Z).
  { unfold st', loadDocument, allIds; cbn.
    destruct H1 as [-> | ->], H2 as [-> | ->]; reflexivity. }
  unfold m; rewrite Hn.
  replace (maxFrom1 (allIds st') + 1 - 1)%Z with (maxFrom1 (allIds st'))
    by lia.
  destruct (maxFrom1_spec (allIds st')) as [Ha [Hb Hc]].
  repeat split; try assumption.
  intros He; rewrite He; reflexivity.
Qed.

(** C7 applied to the document with two empty collections. *)
Lemma loadDocument_derives_nextId_witness :
  (d_next_id emptyDocument = None \/ d_next_id emptyDocument = Some 0%Z) /\
  (d_nextId emptyDocument = None \/ d_nextId emptyDocument = Some 0%Z) /\
  nextId (loadDocument emptyDocument initialState) = 2%Z.
Proof.
  split; [left; reflexivity |].
  split; [left; reflexivity |].
  apply (loadDocument_derives_nextId emptyDocument initialState);
    [left; reflexivity | left; reflexivity | reflexivity].
Defined.

(** ** Grid alignment of the edits *)

Lemma aligned_Fin (k : Z) : aligned (Fin (IZR k * 20)).
Proof. exists k; reflexivity. Qed.

Lemma aligned_finite (v : num) : aligned v -> isFinite v = true.
Proof. intros [k ->]; reflexivity. Qed.

Lemma aligned_nadd (a b : num) : aligned a -> aligned b -> aligned (a + b)%js.
Proof.
  intros [k ->] [m ->]; exists (k + m)%Z.
  rewrite nadd_Fin, plus_IZR; f_equal; lra.
Qed.

Lemma aligned_nsub (a b : num) : aligned a -> aligned b -> aligned (a - b)%js.
Proof.
  intros [k ->] [m ->]; exists (k - m)%Z.
  rewrite nsub_Fin, minus_IZR; f_equal; lra.
Qed.

Lemma aligned_nmin (a b : num) : aligned a -> aligned b -> aligned (nmin a b).
Proof.
  intros [k ->] [m ->]; rewrite nmin_Fin.
  unfold Rmin; destruct (Rle_dec _ _); apply aligned_Fin.
Qed.

Lemma aligned_nabs (a : num) : aligned a -> aligned (nabs a).
Proof.
  intros [k ->]; exists (Z.abs k).
  rewrite nabs_Fin, abs_IZR, Rabs_mult, (Rabs_right 20) by lra.
  reflexivity.
Qed.

Lemma alignedOrMin_clamp (a : num) :
  aligned a -> alignedOrMin (nmax (Fin 1) a).
Proof.
  intros [k ->]; rewrite nmax_Fin.
  destruct (Z_le_gt_dec k 0) as [Hk | Hk].
  - right; f_equal.
    apply IZR_le in Hk.
    rewrite Rmax_left by lra; reflexivity.
  - left; exists k; f_equal.
    assert (1 <= IZR k) by (apply IZR_le; lia).
    rewrite Rmax_right by lra; reflexivity.
Qed.

Lemma not_aligned_1 : ~ aligned (Fin 1).
Proof.
  intros [k Hk]; inversion Hk as [Hk'].
  destruct (Z_le_gt_dec k 0) as [H | H].
  - apply IZR_le in H; lra.
  - assert (1 <= IZR k) by (apply IZR_le; lia); lra.
Qed.

Lemma findShape_some_id (sid : Z) (l : list Shape) (s : Shape) :
  findShape sid l = Some s -> In s l /\ s_id s = sid.
Proof.
  unfold findShape; intros H; apply find_some in H as [Hin Hid].
  split; [exact Hin | now apply Z.eqb_eq].
Qed.

Lemma findShape_updateShape_same (sid : Z) (f : Shape -> Shape)
  (l : list Shape) :
  (forall s, s_id (f s) = s_id s) ->
  findShape sid (updateShape sid f l) = option_map f (findShape sid l).
Proof.
  intros Hf; unfold findShape; induction l as [| s l IH]; simpl;
    [reflexivity |].
  destruct (s_id s =? sid)%Z eqn:E; simpl.
  - now rewrite Hf, E.
  - now rewrite E.
Qed.

Lemma findShape_updateShape_other (sid sid' : Z) (f : Shape -> Shape)
  (l : list Shape) :
  sid <> sid' ->
  (forall s, s_id (f s) = s_id s) ->
  findShape sid (updateShape sid' f l) = findShape sid l.
Proof.
  intros Hne Hf; unfold findShape; induction l as [| s l IH]; simpl;
    [reflexivity |].
  destruct (s_id s =? sid')%Z eqn:E; simpl.
  - rewrite Hf.
    apply Z.eqb_eq in E.
    destruct (s_id s =? sid)%Z eqn:E'; [| reflexivity].
    apply Z.eqb_eq in E'; congruence.
  - destruct (s_id s =? sid)%Z; [reflexivity | exact IH].
Qed.

Lemma Forall_updateShape (P : Shape -> Prop) (sid : Z) (f : Shape -> Shape)
  (l : list Shape) :
  (forall s, P s -> P (f s)) ->
  Forall P l -> Forall P (updateShape sid f l).
Proof.
  intros Hf H; induction H as [| s l Hs Hl IH]; simpl; [constructor |].
  destruct (s_id s =? sid)%Z; constructor; auto.
Qed.

(** One step of the move loop on a shape with finite position. *)
Lemma move_step_aligned (dx dy : R) (s : Shape) :
  finiteXY s ->
  alignedXY (setXY (snap (s_x s + Fin dx)) (snap (s_y s + Fin dy)) s).
Proof.
  intros [Hx Hy]; unfold alignedXY; cbn [setXY s_x s_y].
  destruct (s_x s) as [x | | |], (s_y s) as [y | | |]; try discriminate.
  rewrite !nadd_Fin; split; apply snap_aligned.
Qed.

Lemma alignedXY_finiteXY (s : Shape) : alignedXY s -> finiteXY s.
Proof. intros [Hx Hy]; split; now apply aligned_finite. Qed.

Lemma move_loop_aligned (dx dy : R) (sids : list Z) :
  forall (l : list Shape) (done : Z -> Prop),
    Forall finiteXY l ->
    (forall sid s, done sid -> findShape sid l = Some s -> alignedXY s) ->
    let l' :=
      fold_left
        (fun acc sid =>
           updateShape sid
             (fun s => setXY (snap (s_x s + Fin dx)) (snap (s_y s + Fin dy)) s)
             acc)
        sids l in
    Forall finiteXY l' /\
    (forall sid s,
        done sid \/ In sid sids -> findShape sid l' = Some s -> alignedXY s).
Proof.
  induction sids as [| sid0 sids IH]; intros l done Hfin Hdone; simpl.
  - split; [exact Hfin |].
    intros sid s [H | []]; now apply Hdone.
  - set (f := fun s => setXY (snap (s_x s + Fin dx)) (snap (s_y s + Fin dy)) s).
    assert (Hid : forall s, s_id (f s) = s_id s) by reflexivity.
    destruct (IH (updateShape sid0 f l) (fun sid => done sid \/ sid = sid0))
      as [H1 H2].
    + apply Forall_updateShape; [| exact Hfin].
      intros s Hs; apply alignedXY_finiteXY, move_step_aligned, Hs.
    + intros sid s [Hd | ->] Hfind.
      * destruct (Z.eq_dec sid sid0) as [-> | Hne].
        -- rewrite findShape_updateShape_same in Hfind by exact Hid.
           destruct (findShape sid0 l) as [s0 |] eqn:E; [| discriminate].
           inversion Hfind; subst s.
           apply move_step_aligned.
           apply findShape_some_id in E as [Hin _].
           rewrite Forall_forall in Hfin; now apply Hfin.
        -- rewrite findShape_updateShape_other in Hfind by assumption.
           now apply (Hdone sid).
      * rewrite findShape_updateShape_same in Hfind by exact Hid.
        destruct (findShape sid0 l) as [s0 |] eqn:E; [| discriminate].
        inversion Hfind; subst s.
        apply move_step_aligned.
        apply findShape_some_id in E as [Hin _].
        rewrite Forall_forall in Hfin; now apply Hfin.
    + split; [exact H1 |].
      intros sid s Hc Hfind; apply (H2 sid s); [| exact Hfind].
      destruct Hc as [Hd | [Heq | Hin]]; auto.
Qed.

Lemma onMove_move_aligned (e : PointerEvent) (st : State) (sids : list Z)
  (start : Point) :
  drag st = Some (DragMove sids start) ->
  isFinite (p_x (e_pt e)) = true -> isFinite (p_y (e_pt e)) = true ->
  isFinite (p_x start) = true -> isFinite (p_y start) = true ->
  Forall finiteXY (shapes st) ->
  exists st',
    onMove e st = Some st' /\
    forall sid s,
      In sid sids -> findShape sid (shapes st') = Some s -> alignedXY s.
Proof.
  intros Hd Hx Hy Hsx Hsy Hfin.
  unfold onMove; rewrite Hd.
  eexists; split; [reflexivity |].
  cbn [shapes render set_previewAttached set_drag set_shapes].
  destruct (p_x (e_pt e)) as [x | | |]; try discriminate.
  destruct (p_y (e_pt e)) as [y | | |]; try discriminate.
  destruct (p_x start) as [sx | | |]; try discriminate.
  destruct (p_y start) as [sy | | |]; try discriminate.
  rewrite !nsub_Fin.
  intros sid s Hin Hfind.
  destruct (move_loop_aligned (x - sx) (y - sy) sids (shapes st)
              (fun _ => False) Hfin) as [_ H]; [tauto |].
  eapply H; eauto.
Qed.

Lemma resizeX_aligned (pos : string) (orig : Geom) (x : R) :
  aligned (g_x orig) -> aligned (g_w orig) ->
  aligned (fst (resizeX pos orig (snap (Fin x)))) /\
  aligned (snd (resizeX pos orig (snap (Fin x)))).
Proof.
  intros Hx Hw; unfold resizeX.
  pose proof (snap_aligned x) as Hs.
  destruct (includes "e" pos); [| destruct (includes "w" pos)];
    cbn [fst snd]; split;
    auto using aligned_nmin, aligned_nabs, aligned_nsub, aligned_nadd.
Qed.

Lemma resizeY_aligned (pos : string) (orig : Geom) (y : R) :
  aligned (g_y orig) -> aligned (g_h orig) ->
  aligned (fst (resizeY pos orig (snap (Fin y)))) /\
  aligned (snd (resizeY pos orig (snap (Fin y)))).
Proof.
  intros Hy Hh; unfold resizeY.
  pose proof (snap_aligned y) as Hs.
  destruct (includes "s" pos); [| destruct (includes "n" pos)];
    cbn [fst snd]; split;
    auto using aligned_nmin, aligned_nabs, aligned_nsub, aligned_nadd.
Qed.

Lemma onMove_resize_aligned (e : PointerEvent) (st : State) (sid : Z)
  (pos : string) (start : Point) (orig : Geom) :
  drag st = Some (DragResize sid pos start orig) ->
  isFinite (p_x (e_pt e)) = true -> isFinite (p_y (e_pt e)) = true ->
  aligned (g_x orig) -> aligned (g_y orig) ->
  aligned (g_w orig) -> aligned (g_h orig) ->
  findShape sid (shapes st) <> None ->
  exists st' s,
    onMove e st = Some st' /\
    findShape sid (shapes st') = Some s /\ alignedGeom s.
Proof.
  intros Hd Hx Hy Hox Hoy How Hoh Hfind.
  unfold onMove; rewrite Hd.
  destruct (findShape sid (shapes st)) as [s0 |] eqn:E; [| congruence].
  destruct (p_x (e_pt e)) as [x | | |]; try discriminate.
  destruct (p_y (e_pt e)) as [y | | |]; try discriminate.
  destruct (resizeX_aligned pos orig x Hox How) as [Hnx Hnw].
  destruct (resizeY_aligned pos orig y Hoy Hoh) as [Hny Hnh].
  destruct (resizeX pos orig (snap (Fin x))) as [nx nw].
  destruct (resizeY pos orig (snap (Fin y))) as [ny nh].
  cbn [fst snd] in *.
  eexists; eexists; split; [reflexivity |].
  cbn [shapes render set_previewAttached set_shapes].
  rewrite findShape_updateShape_same, E by reflexivity.
  split; [reflexivity |].
  unfold alignedGeom; cbn [setGeom s_x s_y s_w s_h].
  repeat split; auto using alignedOrMin_clamp.
Qed.

Lemma onMove_create_aligned (e : PointerEvent) (st : State) (sid : Z)
  (start : Point) :
  drag st = Some (DragCreate sid start) ->
  isFinite (p_x (e_pt e)) = true -> isFinite (p_y (e_pt e)) = true ->
  aligned (p_x start) -> aligned (p_y start) ->
  findShape sid (shapes st) <> None ->
  exists st' s,
    onMove e st = Some st' /\
    findShape sid (shapes st') = Some s /\ alignedGeom s.
Proof.
  intros Hd Hx Hy Hsx Hsy Hfind.
  unfold onMove; rewrite Hd.
  destruct (findShape sid (shapes st)) as [s0 |] eqn:E; [| congruence].
  destruct (p_x (e_pt e)) as [x | | |]; try discriminate.
  destruct (p_y (e_pt e)) as [y | | |]; try discriminate.
  pose proof (snap_aligned x) as Hs1.
  pose proof (snap_aligned y) as Hs2.
  eexists; eexists; split; [reflexivity |].
  cbn [shapes render set_previewAttached set_shapes].
  rewrite findShape_updateShape_same, E by reflexivity.
  split; [reflexivity |].
  unfold alignedGeom; cbn [setGeom s_x s_y s_w s_h].
  repeat split;
    auto using alignedOrMin_clamp, aligned_nmin, aligned_nabs, aligned_nsub.
Qed.

Lemma snap_value (v : R) (k : Z) :
  IZR k <= v / 20 + / 2 < IZR k + 1 -> snap (Fin v) = Fin (IZR k * 20).
Proof.
  intros H; rewrite snap_Fin; now rewrite (Zfloor_eq k).
Qed.

(** C4, counterexample.  A rectangle is started at the grid point (0,0) and
    the pointer moves to (5,5): the shape's width is the minimum size 1,
    which is no multiple of 20. *)
Lemma onMove_create_min_size :
  exists st' s,
    onMove (pointerAt 5 5) (drawingRectFrom 0 0) = Some st' /\
    findShape 1 (shapes st') = Some s /\
    s_w s = Fin 1 /\
    ~ aligned (s_w s).
Proof.
  eexists; eexists; split; [reflexivity |].
  split; [reflexivity |].
  cbn [s_w setGeom p_x p_y e_pt pointerAt].
  assert (Hw : nmax (Fin 1) (nabs (snap (Fin 5) - Fin 0)) = Fin 1).
  { rewrite (snap_value 5 0) by (simpl; lra).
    rewrite nsub_Fin, nabs_Fin, nmax_Fin.
    rewrite Rabs_right by (simpl; lra).
    rewrite Rmax_left by (simpl; lra).
    reflexivity. }
  split; [exact Hw |].
  rewrite Hw; exact not_aligned_1.
Qed.

(** A rectangle started off the grid, at (3,3), and dragged to (97,43) is at
    (3,3) with size 97 by 37: the create step measures from the raw
    pointer-down point, although the pointer-down itself placed the shape at
    the snapped point (0,0). *)
Lemma onMove_create_raw_start :
  (exists s, findShape 1 (shapes (drawingRectFrom 3 3)) = Some s /\
             s_x s = Fin (IZR 0 * 20) /\ s_y s = Fin (IZR 0 * 20)) /\
  exists st' s,
    onMove (pointerAt 97 43) (drawingRectFrom 3 3) = Some st' /\
    findShape 1 (shapes st') = Some s /\
    s_x s = Fin 3 /\ s_y s = Fin 3 /\ s_w s = Fin 97 /\ s_h s = Fin 37.
Proof.
  split.
  - eexists; split; [reflexivity |].
    cbn [s_x s_y p_x p_y pointerAt e_pt].
    split; apply snap_value; simpl; lra.
  - eexists; eexists; split; [reflexivity |].
    split; [reflexivity |].
    cbn [s_x s_y s_w s_h setGeom p_x p_y pointerAt e_pt].
    rewrite (snap_value 97 5), (snap_value 43 2) by (simpl; lra).
    rewrite !nsub_Fin, !nabs_Fin, !nmax_Fin, !nmin_Fin.
    repeat split; f_equal.
    + rewrite Rmin_left by (simpl; lra); reflexivity.
    + rewrite Rmin_left by (simpl; lra); reflexivity.
    + rewrite Rabs_right by (simpl; lra).
      rewrite Rmax_right by (simpl; lra); simpl; lra.
    + rewrite Rabs_right by (simpl; lra).
      rewrite Rmax_right by (simpl; lra); simpl; lra.
Qed.

(** C4, as the code has it by design.  A move step leaves the position of
    every captured shape on the grid; a create step that started on a grid
    point, and a resize step whose snapshot was on the grid, leave the
    position on the grid and each side either on the grid or at the minimum
    size 1.  The pointer and the geometry are finite numbers. *)
Theorem onMove_grid_aligned :
  (forall (e : PointerEvent) (st : State) (sids : list Z) (start : Point),
      drag st = Some (DragMove sids start) ->
      isFinite (p_x (e_pt e)) = true -> isFinite (p_y (e_pt e)) = true ->
      isFinite (p_x start) = true -> isFinite (p_y start) = true ->
      Forall finiteXY (shapes st) ->
      exists st',
        onMove e st = Some st' /\
        forall sid s,
          In sid sids -> findShape sid (shapes st') = Some s ->
          alignedXY s) /\
  (forall (e : PointerEvent) (st : State) (sid : Z) (start : Point),
      drag st = Some (DragCreate sid start) ->
      isFinite (p_x (e_pt e)) = true -> isFinite (p_y (e_pt e)) = true ->
      aligned (p_x start) -> aligned (p_y start) ->
      findShape sid (shapes st) <> None ->
      exists st' s,
        onMove e st = Some st' /\
        findShape sid (shapes st') = Some s /\ alignedGeom s) /\
  (forall (e : PointerEvent) (st : State) (sid : Z) (pos : string)
          (start : Point) (orig : Geom),
      drag st = Some (DragResize sid pos start orig) ->
      isFinite (p_x (e_pt e)) = true -> isFinite (p_y (e_pt e)) = true ->
      aligned (g_x orig) -> aligned (g_y orig) ->
      aligned (g_w orig) -> aligned (g_h orig) ->
      findShape sid (shapes st) <> None ->
      exists st' s,
        onMove e st = Some st' /\
        findShape sid (shapes st') = Some s /\ alignedGeom s).
Proof.
  split; [exact onMove_move_aligned |].
  split; [exact onMove_create_aligned | exact onMove_resize_aligned].
Qed.

Lemma aligned_0 : aligned (Fin 0).
Proof. exists 0%Z; f_equal; simpl; lra. Qed.

Lemma aligned_100 : aligned (Fin 100).
Proof. exists 5%Z; f_equal; simpl; lra. Qed.

Lemma aligned_40 : aligned (Fin 40).
Proof. exists 2%Z; f_equal; simpl; lra. Qed.

(** C4 applied to a move step by (7,-3) of the grabbed rectangle, to the
    create step of the specification, from (0,0) to (97,43), and to a resize
    step of the north-west handle to (13,9). *)
Lemma onMove_grid_aligned_witness :
  (exists st',
      onMove (pointerAt 57 17) movingShape1 = Some st' /\
      forall sid s,
        In sid [1%Z] -> findShape sid (shapes st') = Some s -> alignedXY s) /\
  (exists st' s,
      onMove (pointerAt 97 43) (drawingRectFrom 0 0) = Some st' /\
      findShape 1 (shapes st') = Some s /\ alignedGeom s) /\
  (exists st' s,
      onMove (pointerAt 13 9) resizingShape1 = Some st' /\
      findShape 1 (shapes st') = Some s /\ alignedGeom s).
Proof.
  split; [| split].
  - apply (proj1 onMove_grid_aligned (pointerAt 57 17) movingShape1
             [1%Z] (mkPoint (Fin 50) (Fin 20))); try reflexivity.
    repeat constructor.
  - apply (proj1 (proj2 onMove_grid_aligned) (pointerAt 97 43)
             (drawingRectFrom 0 0) 1%Z (mkPoint (Fin 0) (Fin 0)));
      try reflexivity; try exact aligned_0.
    discriminate.
  - apply (proj2 (proj2 onMove_grid_aligned) (pointerAt 13 9)
             resizingShape1 1%Z "nw"%string (mkPoint (Fin 0) (Fin 0))
             (mkGeom (Fin 0) (Fin 0) (Fin 100) (Fin 40)));
      try reflexivity;
      try exact aligned_0; try exact aligned_100; try exact aligned_40.
    discriminate.
Defined.

(** * Further properties of the code *)

(** ** More on the grid snap *)

Lemma snap_near_multiple (k : Z) (d : R) :
  -10 <= d < 10 -> snap (Fin (IZR k * 20 + d)) = Fin (IZR k * 20).
Proof.
  intros Hd; apply snap_value; lra.
Qed.

Lemma snap_shift (v : R) (k : Z) :
  snap (Fin (v + IZR k * 20)) = (snap (Fin v) + Fin (IZR k * 20))%js.
Proof.
  rewrite !snap_Fin, nadd_Fin.
  replace ((v + IZR k * 20) / 20 + / 2) with (v / 20 + / 2 + IZR k) by lra.
  rewrite Zfloor_addz, plus_IZR.
  f_equal; lra.
Qed.

Lemma snap_monotone (v w : R) :
  v <= w -> (snap (Fin v) <=? snap (Fin w))%js = true.
Proof.
  intros H; rewrite !snap_Fin, nle_Fin; apply Rleb_le.
  apply Rmult_le_compat_r; [lra |].
  apply IZR_le, Zfloor_le; lra.
Qed.

(** X1.  [snap] commutes with a translation by a multiple of the grid unit,
    never reverses the order of two reals, and sends every real within half
    a grid unit below or strictly less than half a unit above a grid point to
    that grid point. *)
Theorem snap_shift_monotone :
  (forall (v : R) (k : Z),
      snap (Fin (v + IZR k * 20)) = (snap (Fin v) + Fin (IZR k * 20))%js) /\
  (forall v w : R, v <= w -> (snap (Fin v) <=? snap (Fin w))%js = true) /\
  (forall (k : Z) (d : R),
      -10 <= d < 10 -> snap (Fin (IZR k * 20 + d)) = Fin (IZR k * 20)).
Proof.
  split; [exact snap_shift |].
  split; [exact snap_monotone | exact snap_near_multiple].
Qed.

(** X1 applied to 27 and 35, and to 47 = 2 * 20 + 7. *)
Lemma snap_shift_monotone_witness :
  27 <= 35 /\
  (snap (Fin 27) <=? snap (Fin 35))%js = true /\
  -10 <= 7 < 10 /\
  snap (Fin (IZR 2 * 20 + 7)) = Fin (IZR 2 * 20).
Proof.
  assert (H1 : 27 <= 35) by lra.
  assert (H2 : -10 <= 7 < 10) by lra.
  split; [exact H1 |].
  split; [exact (proj1 (proj2 snap_shift_monotone) 27 35 H1) |].
  split; [exact H2 |].
  exact (proj2 (proj2 snap_shift_monotone) 2%Z 7 H2).
Defined.

(** ** Where the anchor point lies *)

Lemma Rabs_scale (d t : R) : 0 < t -> Rabs (d * t) = Rabs d * t.
Proof. intros Ht; rewrite Rabs_mult, (Rabs_right t) by lra; reflexivity. Qed.

Lemma rectScale_props (hw hh dx dy : R) :
  0 < hw -> 0 < hh -> dx <> 0 \/ dy <> 0 ->
  let t := spec_rectScale hw hh dx dy in
  0 < t /\
  Rabs (dx * t) <= hw /\ Rabs (dy * t) <= hh /\
  (Rabs (dx * t) = hw \/ Rabs (dy * t) = hh).
Proof.
  intros Hw Hh Hd t; unfold t, spec_rectScale.
  destruct (Req_dec_T dx 0) as [Hx | Hx].
  - assert (Hy : dy <> 0) by (destruct Hd; [contradiction | assumption]).
    assert (Ha : 0 < Rabs dy) by now apply Rabs_pos_lt.
    assert (Ht : 0 < hh / Rabs dy) by now apply Rdiv_lt_0_compat.
    subst dx; rewrite Rmult_0_l, Rabs_R0, (Rabs_scale _ _ Ht).
    replace (Rabs dy * (hh / Rabs dy)) with hh by (field; lra).
    repeat split; try lra.
  - assert (Ha : 0 < Rabs dx) by now apply Rabs_pos_lt.
    assert (Hta : 0 < hw / Rabs dx) by now apply Rdiv_lt_0_compat.
    destruct (Req_dec_T dy 0) as [Hy | Hy].
    + subst dy; rewrite Rmult_0_l, Rabs_R0, (Rabs_scale _ _ Hta).
      replace (Rabs dx * (hw / Rabs dx)) with hw by (field; lra).
      repeat split; try lra.
    + assert (Hb : 0 < Rabs dy) by now apply Rabs_pos_lt.
      assert (Htb : 0 < hh / Rabs dy) by now apply Rdiv_lt_0_compat.
      assert (Ht : 0 < Rmin (hw / Rabs dx) (hh / Rabs dy))
        by now apply Rmin_glb_lt.
      rewrite !(Rabs_scale _ _ Ht).
      assert (Ex : Rabs dx * (hw / Rabs dx) = hw) by (field; lra).
      assert (Ey : Rabs dy * (hh / Rabs dy) = hh) by (field; lra).
      pose proof (Rmin_l (hw / Rabs dx) (hh / Rabs dy)) as Hl.
      pose proof (Rmin_r (hw / Rabs dx) (hh / Rabs dy)) as Hr.
      split; [exact Ht |].
      split; [rewrite <- Ex at 2; apply Rmult_le_compat_l; lra |].
      split; [rewrite <- Ey at 2; apply Rmult_le_compat_l; lra |].
      unfold Rmin in *; destruct (Rle_dec _ _); [left | right]; assumption.
Qed.

(** X2.  For a rect or symbol shape with positive real width and height and
    a real target other than its centre, the anchor point is the centre plus
    a positive multiple of the direction to the target, and it lies on the
    boundary of the bounding rectangle: no further than half a side from the
    centre along each axis, and exactly half a side along one of them. *)
Theorem rect_anchor_on_boundary :
  forall (s : Shape) (x y w h qx qy : R),
    rectLike s ->
    0 < w -> 0 < h ->
    qx <> x + w / 2 \/ qy <> y + h / 2 ->
    exists px py t : R,
      anchorPoint (withGeom x y w h s) (mkPoint (Fin qx) (Fin qy))
      = mkPoint (Fin px) (Fin py) /\
      0 < t /\
      px - (x + w / 2) = (qx - (x + w / 2)) * t /\
      py - (y + h / 2) = (qy - (y + h / 2)) * t /\
      Rabs (px - (x + w / 2)) <= w / 2 /\
      Rabs (py - (y + h / 2)) <= h / 2 /\
      (Rabs (px - (x + w / 2)) = w / 2 \/ Rabs (py - (y + h / 2)) = h / 2).
Proof.
  intros s x y w h qx qy Hty Hw Hh Hne.
  rewrite (rect_anchor_formula s x y w h qx qy Hty Hne).
  set (dx := qx - (x + w / 2)); set (dy := qy - (y + h / 2)).
  destruct (rectScale_props (w / 2) (h / 2) dx dy) as [Ht [Hx [Hy Hb]]];
    [lra | lra | unfold dx, dy; lra |].
  set (t := spec_rectScale (w / 2) (h / 2) dx dy) in *.
  exists (x + w / 2 + dx * t), (y + h / 2 + dy * t), t.
  replace (x + w / 2 + dx * t - (x + w / 2)) with (dx * t) by lra.
  replace (y + h / 2 + dy * t - (y + h / 2)) with (dy * t) by lra.
  repeat split; assumption.
Qed.

(** X2 applied to the rectangle of the specification. *)
Lemma rect_anchor_on_boundary_witness :
  rectLike rect0 /\ 0 < 100 /\ 0 < 50 /\
  (200 <> 0 + 100 / 2 \/ 25 <> 0 + 50 / 2) /\
  exists px py t : R,
    anchorPoint (withGeom 0 0 100 50 rect0) (mkPoint (Fin 200) (Fin 25))
    = mkPoint (Fin px) (Fin py) /\
    0 < t /\
    px - (0 + 100 / 2) = (200 - (0 + 100 / 2)) * t /\
    py - (0 + 50 / 2) = (25 - (0 + 50 / 2)) * t /\
    Rabs (px - (0 + 100 / 2)) <= 100 / 2 /\
    Rabs (py - (0 + 50 / 2)) <= 50 / 2 /\
    (Rabs (px - (0 + 100 / 2)) = 100 / 2 \/
     Rabs (py - (0 + 50 / 2)) = 50 / 2).
Proof.
  assert (H1 : rectLike rect0) by (left; reflexivity).
  assert (H2 : 0 < 100) by lra.
  assert (H3 : 0 < 50) by lra.
  assert (H4 : 200 <> 0 + 100 / 2 \/ 25 <> 0 + 50 / 2) by (left; lra).
  split; [exact H1 |].
  split; [exact H2 |].
  split; [exact H3 |].
  split; [exact H4 |].
  exact (rect_anchor_on_boundary rect0 0 0 100 50 200 25 H1 H2 H3 H4).
Defined.

(** X3.  For an ellipse with non-zero real width and height and a real
    target other than its centre, the anchor point is the centre plus a
    positive multiple of the direction to the target, and it satisfies the
    equation of the ellipse with half-axes [w/2] and [h/2]. *)
Theorem ellipse_anchor_on_curve :
  forall (s : Shape) (x y w h qx qy : R),
    s_type s = "ellipse"%string ->
    w <> 0 -> h <> 0 ->
    qx <> x + w / 2 \/ qy <> y + h / 2 ->
    exists px py t : R,
      anchorPoint (withGeom x y w h s) (mkPoint (Fin qx) (Fin qy))
      = mkPoint (Fin px) (Fin py) /\
      0 < t /\
      px - (x + w / 2) = (qx - (x + w / 2)) * t /\
      py - (y + h / 2) = (qy - (y + h / 2)) * t /\
      (px - (x + w / 2)) * (px - (x + w / 2)) / (w / 2 * (w / 2))
      + (py - (y + h / 2)) * (py - (y + h / 2)) / (h / 2 * (h / 2)) = 1.
Proof.
  intros s x y w h qx qy Hty Hw Hh Hne.
  destruct (ellipse_anchor_formula s x y w h qx qy Hty Hw Hh Hne)
    as [Hpos ->].
  set (dx := qx - (x + w / 2)) in *; set (dy := qy - (y + h / 2)) in *.
  unfold spec_ellipseScale.
  set (D := spec_ellipseDenom (w / 2) (h / 2) dx dy) in *.
  assert (Hs : 0 < sqrt D) by now apply sqrt_lt_R0.
  assert (Hss : sqrt D * sqrt D = D) by (apply sqrt_def; lra).
  set (t := 1 / sqrt D).
  assert (Ht : 0 < t) by (unfold t; apply Rdiv_lt_0_compat; lra).
  assert (Htt : t * t * D = 1).
  { unfold t; rewrite <- Hss at 3; field; lra. }
  exists (x + w / 2 + dx * t), (y + h / 2 + dy * t), t.
  replace (x + w / 2 + dx * t - (x + w / 2)) with (dx * t) by lra.
  replace (y + h / 2 + dy * t - (y + h / 2)) with (dy * t) by lra.
  repeat split; try assumption; try reflexivity.
  rewrite <- Htt at 1; unfold D, spec_ellipseDenom; field; lra.
Qed.

(** X3 applied to the ellipse of the specification, target (30,100). *)
Lemma ellipse_anchor_on_curve_witness :
  s_type ellipse0 = "ellipse"%string /\ 100 <> 0 /\ 50 <> 0 /\
  (30 <> -50 + 100 / 2 \/ 100 <> -25 + 50 / 2) /\
  exists px py t : R,
    anchorPoint (withGeom (-50) (-25) 100 50 ellipse0)
      (mkPoint (Fin 30) (Fin 100))
    = mkPoint (Fin px) (Fin py) /\
    0 < t /\
    px - (-50 + 100 / 2) = (30 - (-50 + 100 / 2)) * t /\
    py - (-25 + 50 / 2) = (100 - (-25 + 50 / 2)) * t /\
    (px - (-50 + 100 / 2)) * (px - (-50 + 100 / 2)) / (100 / 2 * (100 / 2))
    + (py - (-25 + 50 / 2)) * (py - (-25 + 50 / 2)) / (50 / 2 * (50 / 2))
    = 1.
Proof.
  assert (H1 : s_type ellipse0 = "ellipse"%string) by reflexivity.
  assert (H2 : 100 <> 0) by lra.
  assert (H3 : 50 <> 0) by lra.
  assert (H4 : 30 <> -50 + 100 / 2 \/ 100 <> -25 + 50 / 2) by (left; lra).
  split; [exact H1 |].
  split; [exact H2 |].
  split; [exact H3 |].
  split; [exact H4 |].
  exact (ellipse_anchor_on_curve ellipse0 (-50) (-25) 100 50 30 100
           H1 H2 H3 H4).
Defined.

(** ** The symbol generator *)

Lemma Rmax_1_IZR (z : Z) : Rmax 1 (IZR z) = IZR (Z.max 1 z).
Proof.
  destruct (Z_le_gt_dec z 1) as [H | H].
  - rewrite Z.max_l by lia.
    apply Rmax_left; now apply IZR_le.
  - rewrite Z.max_r by lia.
    apply Rmax_right; apply IZR_le; lia.
Qed.

Lemma symbolThick_real (x y w h : R) (s : Shape) :
  symbolThick (withGeom x y w h s)
  = Fin (IZR (Z.max 1 (Zfloor (Rmin w h * (25 / 100))))).
Proof.
  unfold symbolThick, withGeom, setGeom; cbn [s_w s_h].
  rewrite nmin_Fin, nmul_Fin; cbn [nfloor].
  now rewrite nmax_Fin, Rmax_1_IZR.
Qed.

Lemma symbolThin_real (x y w h : R) (s : Shape) :
  symbolThin (withGeom x y w h s)
  = Fin (IZR (Z.max 1 (Zfloor (Rmin w h * (8 / 100))))).
Proof.
  unfold symbolThin, withGeom, setGeom; cbn [s_w s_h].
  rewrite nmin_Fin, nmul_Fin; cbn [nfloor].
  now rewrite nmax_Fin, Rmax_1_IZR.
Qed.

Lemma thin_le_thick (m : R) :
  (Z.max 1 (Zfloor (m * (8 / 100))) <= Z.max 1 (Zfloor (m * (25 / 100))))%Z.
Proof.
  destruct (Rle_lt_dec 0 m) as [Hm | Hm].
  - apply Z.max_le_compat_l, Zfloor_le; lra.
  - assert (Zfloor (m * (8 / 100)) <= 0)%Z.
    { apply le_IZR.
      destruct (Zfloor_bound (m * (8 / 100))) as [Hb _]; simpl; lra. }
    lia.
Qed.

Lemma symbolGeometry_widths (s : Shape) :
  Forall (fun p => primStrokeWidth p = symbolThick s \/
                   primStrokeWidth p = symbolThin s)
    (symbolGeometry s).
Proof.
  unfold symbolGeometry.
  repeat match goal with
         | |- context [if ?b then _ else _] => destruct b
         end;
    repeat (first [apply Forall_nil | apply Forall_cons]);
    cbn [primStrokeWidth]; auto.
Qed.

(** X4.  The two stroke widths of a symbol with real geometry are integers
    of at least 1, the minor one never above the major one, and every
    primitive of the symbol is stroked with one of the two; the list of
    primitives is never empty. *)
Theorem symbolGeometry_strokes :
  forall (s : Shape) (x y w h : R),
    let s' := withGeom x y w h s in
    exists k j : Z,
      symbolThick s' = Fin (IZR k) /\
      symbolThin s' = Fin (IZR j) /\
      (1 <= j <= k)%Z /\
      Forall (fun p => primStrokeWidth p = Fin (IZR k) \/
                       primStrokeWidth p = Fin (IZR j))
        (symbolGeometry s') /\
      symbolGeometry s' <> [].
Proof.
  intros s x y w h s'.
  exists (Z.max 1 (Zfloor (Rmin w h * (25 / 100)))),
    (Z.max 1 (Zfloor (Rmin w h * (8 / 100)))).
  pose proof (symbolThick_real x y w h s) as Hk.
  pose proof (symbolThin_real x y w h s) as Hj.
  fold s' in Hk, Hj.
  split; [exact Hk |].
  split; [exact Hj |].
  split; [split; [lia | apply thin_le_thick] |].
  split.
  - rewrite <- Hk, <- Hj; apply symbolGeometry_widths.
  - unfold symbolGeometry.
    repeat match goal with
           | |- context [if ?b then _ else _] => destruct b
           end; discriminate.
Qed.

Lemma symbolGeometry_pipe_like (s : Shape) :
  (symbolKindOf s =? "elbow")%string = false ->
  (symbolKindOf s =? "tee")%string = false ->
  (symbolKindOf s =? "valve")%string = false ->
  (symbolKindOf s =? "reducer")%string = false ->
  (symbolKindOf s =? "flange")%string = false ->
  (symbolKindOf s =? "instrument")%string = false ->
  symbolGeometry s
  = [PLine (s_x s) (s_y s + s_h s / Fin 2)%js (s_x s + s_w s)%js
       (s_y s + s_h s / Fin 2)%js (s_outline s) (symbolThick s)].
Proof.
  intros H1 H2 H3 H4 H5 H6; unfold symbolGeometry.
  rewrite H1, H2, H3, H4, H5, H6.
  destruct (symbolKindOf s =? "pipe")%string; reflexivity.
Qed.

(** X5.  A symbol whose kind field is missing, empty, or none of the seven
    known kinds is drawn as a pipe: one horizontal line through the vertical
    centre, from the left side to the right side, with the major stroke
    width. *)
Theorem symbolGeometry_fallback :
  forall s : Shape,
    (s_symbol s = None \/ s_symbol s = Some ""%string \/
     exists k, s_symbol s = Some k /\
               k <> "elbow"%string /\ k <> "tee"%string /\
               k <> "valve"%string /\ k <> "reducer"%string /\
               k <> "flange"%string /\ k <> "instrument"%string) ->
    symbolGeometry s
    = [PLine (s_x s) (s_y s + s_h s / Fin 2)%js (s_x s + s_w s)%js
         (s_y s + s_h s / Fin 2)%js (s_outline s) (symbolThick s)].
Proof.
  intros s H.
  assert (Hk : symbolKindOf s = "pipe"%string \/
               (symbolKindOf s <> "elbow"%string /\
                symbolKindOf s <> "tee"%string /\
                symbolKindOf s <> "valve"%string /\
                symbolKindOf s <> "reducer"%string /\
                symbolKindOf s <> "flange"%string /\
                symbolKindOf s <> "instrument"%string)).
  { unfold symbolKindOf.
    destruct H as [-> | [-> | [k [-> Hk]]]]; [left; reflexivity .. |].
    destruct (k =? "")%string; [left; reflexivity | right; exact Hk]. }
  apply symbolGeometry_pipe_like;
    destruct Hk as [-> | [H1 [H2 [H3 [H4 [H5 H6]]]]]];
    try reflexivity; now apply String.eqb_neq.
Qed.

(** X5 applied to a symbol of the unknown kind "pump". *)
Lemma symbolGeometry_fallback_witness :
  symbolGeometry pump0
  = [PLine (s_x pump0) (s_y pump0 + s_h pump0 / Fin 2)%js
       (s_x pump0 + s_w pump0)%js (s_y pump0 + s_h pump0 / Fin 2)%js
       (s_outline pump0) (symbolThick pump0)].
Proof.
  apply (symbolGeometry_fallback pump0).
  right; right; exists "pump"%string.
  repeat split; discriminate.
Defined.

Ltac in_box :=
  match goal with
  | |- inBox _ _ _ _ _ =>
      eexists; eexists; split; [reflexivity |];
      try match goal with
        | |- context [Rmin ?a ?b] =>
            pose proof (Rmin_l a b); pose proof (Rmin_r a b);
            assert (0 <= Rmin a b) by (apply Rmin_glb; lra)
        end;
      lra
  end.

(** X6.  Every primitive of a symbol with real geometry and non-negative
    width and height stays inside the shape's bounding rectangle: the ends
    of its lines, the vertices of its polyline and polygon, and the box of
    its circle. *)
Theorem symbolGeometry_in_bounds :
  forall (s : Shape) (x y w h : R),
    0 <= w -> 0 <= h ->
    Forall (fun p => Forall (inBox x y w h) (primPoints p))
      (symbolGeometry (withGeom x y w h s)).
Proof.
  intros s x y w h Hw Hh.
  unfold symbolGeometry.
  replace (s_x (withGeom x y w h s)) with (Fin x) by reflexivity.
  replace (s_y (withGeom x y w h s)) with (Fin y) by reflexivity.
  replace (s_w (withGeom x y w h s)) with (Fin w) by reflexivity.
  replace (s_h (withGeom x y w h s)) with (Fin h) by reflexivity.
  rewrite !ndiv_Fin_2, !nadd_Fin, !nmul_Fin, !nmin_Fin, !ndiv_Fin_2.
  repeat match goal with
         | |- context [if ?b then _ else _] => destruct b
         end;
    repeat (first [apply Forall_nil | apply Forall_cons];
            cbn [primPoints]);
    rewrite ?nadd_Fin, ?nsub_Fin;
    in_box.
Qed.

(** X6 applied to a 100 by 40 flange at the origin. *)
Lemma symbolGeometry_in_bounds_witness :
  0 <= 100 /\ 0 <= 40 /\
  Forall (fun p => Forall (inBox 0 0 100 40) (primPoints p))
    (symbolGeometry (withGeom 0 0 100 40 flange0)).
Proof.
  assert (H1 : 0 <= 100) by lra.
  assert (H2 : 0 <= 40) by lra.
  split; [exact H1 |].
  split; [exact H2 |].
  exact (symbolGeometry_in_bounds flange0 0 0 100 40 H1 H2).
Defined.

(** ** Resize handles *)

Lemma updateShape_fixed (sid : Z) (f : Shape -> Shape) (l : list Shape)
  (s : Shape) :
  findShape sid l = Some s -> f s = s -> updateShape sid f l = l.
Proof.
  unfold findShape; induction l as [| s0 l IH]; simpl; [reflexivity |].
  destruct (s_id s0 =? sid)%Z.
  - intros H Hf; inversion H; subst; now rewrite Hf.
  - intros H Hf; now rewrite IH.
Qed.

Lemma snap_on (k : Z) (p : R) :
  Rabs (p - IZR k * 20) <= 5 -> snap (Fin p) = Fin (IZR k * 20).
Proof.
  intros H.
  assert (-5 <= p - IZR k * 20 <= 5)
    by (unfold Rabs in H; destruct (Rcase_abs _); lra).
  replace p with (IZR k * 20 + (p - IZR k * 20)) by lra.
  apply snap_near_multiple; lra.
Qed.

Lemma resizeX_hold (pos : string) (a c : Z) (gy gh : num) (p : R) :
  (1 <= c)%Z ->
  (includes "e" pos = true -> Rabs (p - IZR (a + c) * 20) <= 5) ->
  (includes "e" pos = false -> includes "w" pos = true ->
   Rabs (p - IZR a * 20) <= 5) ->
  resizeX pos (mkGeom (Fin (IZR a * 20)) gy (Fin (IZR c * 20)) gh)
    (snap (Fin p))
  = (Fin (IZR a * 20), Fin (IZR c * 20)).
Proof.
  intros Hc He Hw; unfold resizeX; cbn [g_x g_w].
  assert (Hcr : 1 <= IZR c) by (apply IZR_le; exact Hc).
  destruct (includes "e" pos).
  - rewrite (snap_on (a + c) p) by auto.
    rewrite nsub_Fin, nabs_Fin, nmin_Fin, plus_IZR.
    rewrite Rmin_left by lra.
    rewrite Rabs_right by lra.
    f_equal; f_equal; lra.
  - destruct (includes "w" pos); [| reflexivity].
    rewrite (snap_on a p) by auto.
    rewrite nadd_Fin, nsub_Fin, nabs_Fin, nmin_Fin.
    rewrite Rmin_left by lra.
    rewrite Rabs_right by lra.
    f_equal; f_equal; lra.
Qed.

Lemma resizeY_hold (pos : string) (b d : Z) (gx gw : num) (p : R) :
  (1 <= d)%Z ->
  (includes "s" pos = true -> Rabs (p - IZR (b + d) * 20) <= 5) ->
  (includes "s" pos = false -> includes "n" pos = true ->
   Rabs (p - IZR b * 20) <= 5) ->
  resizeY pos (mkGeom gx (Fin (IZR b * 20)) gw (Fin (IZR d * 20)))
    (snap (Fin p))
  = (Fin (IZR b * 20), Fin (IZR d * 20)).
Proof.
  intros Hd Hs Hn; unfold resizeY; cbn [g_y g_h].
  assert (Hdr : 1 <= IZR d) by (apply IZR_le; exact Hd).
  destruct (includes "s" pos).
  - rewrite (snap_on (b + d) p) by auto.
    rewrite nsub_Fin, nabs_Fin, nmin_Fin, plus_IZR.
    rewrite Rmin_left by lra.
    rewrite Rabs_right by lra.
    f_equal; f_equal; lra.
  - destruct (includes "n" pos); [| reflexivity].
    rewrite (snap_on b p) by auto.
    rewrite nadd_Fin, nsub_Fin, nabs_Fin, nmin_Fin.
    rewrite Rmin_left by lra.
    rewrite Rabs_right by lra.
    f_equal; f_equal; lra.
Qed.

Lemma setGeom_same (s : Shape) :
  setGeom (s_x s) (s_y s) (s_w s) (s_h s) s = s.
Proof. destruct s; reflexivity. Qed.

Lemma clamp_grid (c : Z) :
  (1 <= c)%Z -> nmax (Fin 1) (Fin (IZR c * 20)) = Fin (IZR c * 20).
Proof.
  intros Hc; rewrite nmax_Fin.
  assert (1 <= IZR c) by (apply IZR_le; exact Hc).
  rewrite Rmax_right by lra; reflexivity.
Qed.

(** A press on a handle followed by a move at the same point, when the
    snapped pointer is where the handle's code needs it. *)
Lemma hold_handle (inp : Inputs) (st : State) (s : Shape) (pos : string)
  (a b c d : Z) (px py : R) :
  findShape (s_id s) (shapes st) = Some s ->
  s_x s = Fin (IZR a * 20) -> s_y s = Fin (IZR b * 20) ->
  s_w s = Fin (IZR c * 20) -> s_h s = Fin (IZR d * 20) ->
  (1 <= c)%Z -> (1 <= d)%Z ->
  (includes "e" pos = true -> Rabs (px - IZR (a + c) * 20) <= 5) ->
  (includes "e" pos = false -> includes "w" pos = true ->
   Rabs (px - IZR a * 20) <= 5) ->
  (includes "s" pos = true -> Rabs (py - IZR (b + d) * 20) <= 5) ->
  (includes "s" pos = false -> includes "n" pos = true ->
   Rabs (py - IZR b * 20) <= 5) ->
  let e := mkEvent (mkPoint (Fin px) (Fin py)) (Some (s_id s, pos)) None
             false None in
  exists st1 st2,
    onDown inp e st = Some st1 /\
    drag st1
    = Some (DragResize (s_id s) pos (mkPoint (Fin px) (Fin py))
              (mkGeom (s_x s) (s_y s) (s_w s) (s_h s))) /\
    onMove e st1 = Some st2 /\
    shapes st2 = shapes st.
Proof.
  intros Hf Hx Hy Hw Hh Hc Hd He Hwst Hs Hn e.
  unfold onDown; cbn [e_handle e]; rewrite Hf.
  eexists; eexists; split; [reflexivity |].
  split; [reflexivity |].
  unfold onMove; cbn [drag set_drag shapes e_pt e p_x p_y]; rewrite Hf.
  rewrite Hx, Hy, Hw, Hh.
  rewrite (resizeX_hold pos a c _ _ px Hc He Hwst).
  rewrite (resizeY_hold pos b d _ _ py Hd Hs Hn).
  split; [reflexivity |].
  cbn [shapes render set_previewAttached set_shapes set_drag].
  rewrite !clamp_grid by assumption.
  apply (updateShape_fixed _ _ _ s Hf).
  rewrite <- Hx, <- Hy, <- Hw, <- Hh; apply setGeom_same.
Qed.

Ltac handle_side :=
  cbn [includes Ascii.eqb Bool.eqb orb andb]; intros;
  try discriminate; rewrite ?plus_IZR; apply Rabs_le; lra.

(** X7.  When exactly one shape is selected and it lies on the grid with
    sides of at least one grid unit, pressing any of the eight handles that
    [render] draws, anywhere on the handle's square, and getting a
    pointer-move at the same point starts a resize of that shape and leaves
    every shape as it was. *)
Theorem handle_press_keeps_shapes :
  forall (inp : Inputs) (st : State) (hs : list Handle) (hd : Handle)
         (p : Point),
    renderHandles st = Some hs ->
    In hd hs ->
    (forall s, findShape (fst (h_data hd)) (shapes st) = Some s ->
               gridShape s) ->
    insideHandle hd p ->
    exists st1 st2 sid pos orig,
      onDown inp (onHandle hd p) st = Some st1 /\
      drag st1 = Some (DragResize sid pos p orig) /\
      h_data hd = (sid, pos) /\
      onMove (onHandle hd p) st1 = Some st2 /\
      shapes st2 = shapes st.
Proof.
  intros inp st hs hd p Hr Hin Hgrid Hp.
  unfold renderHandles in Hr.
  destruct (selectedShapeIds st) as [| i [| j rest]];
    try (inversion Hr; subst hs; destruct Hin).
  destruct (findShape i (shapes st)) as [s |] eqn:Ef; [| discriminate].
  inversion Hr; subst hs; clear Hr.
  destruct (findShape_some_id _ _ _ Ef) as [_ Hi]; subst i.
  assert (Hdata : fst (h_data hd) = s_id s).
  { unfold drawHandles, handlePoints in Hin; cbn [map In] in Hin.
    repeat destruct Hin as [Hin | Hin]; try (subst hd; reflexivity).
    destruct Hin. }
  rewrite Hdata in Hgrid.
  destruct (Hgrid s Ef) as [a [b [c [d [Hx [Hy [Hw [Hh [Hc Hd]]]]]]]]].
  destruct Hp as [hx [hy [px [py [Hhx [Hhy [Hpt [Hpx Hpy]]]]]]]].
  assert (Hcr : 1 <= IZR c) by (apply IZR_le; exact Hc).
  assert (Hdr : 1 <= IZR d) by (apply IZR_le; exact Hd).
  unfold drawHandles, handlePoints in Hin; cbn [map In] in Hin.
  rewrite Hx, Hy, Hw, Hh in Hin.
  rewrite !ndiv_Fin_2, !nadd_Fin, !nsub_Fin in Hin.
  repeat destruct Hin as [Hin | Hin]; try contradiction; subst hd;
    cbn [h_x h_y] in Hhx, Hhy; inversion Hhx; inversion Hhy; subst hx hy;
    subst p; unfold onHandle; cbn [h_data].
  all: match goal with
       | |- context [mkEvent _ (Some (_, ?pos))] =>
           destruct (hold_handle inp st s pos a b c d px py
                       Ef Hx Hy Hw Hh Hc Hd)
             as [st1 [st2 [H1 [H2 [H3 H4]]]]];
           [handle_side | handle_side | handle_side | handle_side |];
           exists st1, st2, (s_id s), pos,
             (mkGeom (s_x s) (s_y s) (s_w s) (s_h s));
           repeat split; assumption
       end.
Qed.

Lemma gridShape_shape1 : gridShape shape1.
Proof.
  exists 0%Z, 0%Z, 5%Z, 2%Z; cbn.
  repeat split; try lia; f_equal; lra.
Qed.

(** X7 applied to the north-west handle of the selected 100 by 40
    rectangle, pressed at (2,-3). *)
Lemma handle_press_keeps_shapes_witness :
  renderHandles shape1Selected = Some (drawHandles shape1) /\
  In nwHandle1 (drawHandles shape1) /\
  insideHandle nwHandle1 (mkPoint (Fin 2) (Fin (-3))) /\
  exists st1 st2 sid pos orig,
    onDown inputs0 (onHandle nwHandle1 (mkPoint (Fin 2) (Fin (-3))))
      shape1Selected = Some st1 /\
    drag st1 = Some (DragResize sid pos (mkPoint (Fin 2) (Fin (-3))) orig) /\
    h_data nwHandle1 = (sid, pos) /\
    onMove (onHandle nwHandle1 (mkPoint (Fin 2) (Fin (-3)))) st1 = Some st2 /\
    shapes st2 = shapes shape1Selected.
Proof.
  assert (H1 : renderHandles shape1Selected = Some (drawHandles shape1))
    by reflexivity.
  assert (H2 : In nwHandle1 (drawHandles shape1)) by (left; reflexivity).
  assert (H3 : insideHandle nwHandle1 (mkPoint (Fin 2) (Fin (-3)))).
  { exists (0 - 5), (0 - 5), 2, (-3).
    repeat split; try reflexivity; lra. }
  split; [exact H1 |].
  split; [exact H2 |].
  split; [exact H3 |].
  apply (handle_press_keeps_shapes inputs0 shape1Selected
           (drawHandles shape1) nwHandle1 (mkPoint (Fin 2) (Fin (-3)))
           H1 H2); [| exact H3].
  intros s Hs; inversion Hs; subst s; exact gridShape_shape1.
Defined.

(** ** The resize and create steps *)

Lemma onMove_resize_result (e : PointerEvent) (st : State) (sid : Z)
  (pos : string) (start : Point) (orig : Geom) (s0 : Shape) :
  drag st = Some (DragResize sid pos start orig) ->
  findShape sid (shapes st) = Some s0 ->
  exists st',
    onMove e st = Some st' /\
    findShape sid (shapes st')
    = Some (setGeom (fst (resizeX pos orig (snap (p_x (e_pt e)))))
              (fst (resizeY pos orig (snap (p_y (e_pt e)))))
              (nmax (Fin 1) (snd (resizeX pos orig (snap (p_x (e_pt e))))))
              (nmax (Fin 1) (snd (resizeY pos orig (snap (p_y (e_pt e))))))
              s0).
Proof.
  intros Hd Hf; unfold onMove; rewrite Hd, Hf.
  destruct (resizeX _ _ _) as [nx nw], (resizeY _ _ _) as [ny nh].
  eexists; split; [reflexivity |].
  cbn [shapes render set_previewAttached set_shapes fst snd].
  rewrite findShape_updateShape_same, Hf by reflexivity.
  reflexivity.
Qed.

Lemma resizeX_west (pos : string) (ox ow r : R) (gy gh : num) :
  includes "w" pos = true -> includes "e" pos = false ->
  resizeX pos (mkGeom (Fin ox) gy (Fin ow) gh) (Fin r)
  = (Fin (Rmin r (ox + ow)), Fin (Rabs (ox + ow - r))).
Proof.
  intros Hw He; unfold resizeX; rewrite Hw, He; cbn [g_x g_w].
  now rewrite nadd_Fin, nsub_Fin, nabs_Fin, nmin_Fin.
Qed.

Lemma resizeX_east (pos : string) (ox ow r : R) (gy gh : num) :
  includes "e" pos = true ->
  resizeX pos (mkGeom (Fin ox) gy (Fin ow) gh) (Fin r)
  = (Fin (Rmin ox r), Fin (Rabs (r - ox))).
Proof.
  intros He; unfold resizeX; rewrite He; cbn [g_x g_w].
  now rewrite nsub_Fin, nabs_Fin, nmin_Fin.
Qed.

Lemma resizeY_north (pos : string) (oy oh r : R) (gx gw : num) :
  includes "n" pos = true -> includes "s" pos = false ->
  resizeY pos (mkGeom gx (Fin oy) gw (Fin oh)) (Fin r)
  = (Fin (Rmin r (oy + oh)), Fin (Rabs (oy + oh - r))).
Proof.
  intros Hn Hs; unfold resizeY; rewrite Hn, Hs; cbn [g_y g_h].
  now rewrite nadd_Fin, nsub_Fin, nabs_Fin, nmin_Fin.
Qed.

Lemma resizeY_south (pos : string) (oy oh r : R) (gx gw : num) :
  includes "s" pos = true ->
  resizeY pos (mkGeom gx (Fin oy) gw (Fin oh)) (Fin r)
  = (Fin (Rmin oy r), Fin (Rabs (r - oy))).
Proof.
  intros Hs; unfold resizeY; rewrite Hs; cbn [g_y g_h].
  now rewrite nsub_Fin, nabs_Fin, nmin_Fin.
Qed.

Lemma resizeX_none (pos : string) (orig : Geom) (x1 : num) :
  includes "w" pos = false -> includes "e" pos = false ->
  resizeX pos orig x1 = (g_x orig, g_w orig).
Proof. intros Hw He; unfold resizeX; now rewrite Hw, He. Qed.

Lemma resizeY_none (pos : string) (orig : Geom) (y1 : num) :
  includes "n" pos = false -> includes "s" pos = false ->
  resizeY pos orig y1 = (g_y orig, g_h orig).
Proof. intros Hn Hs; unfold resizeY; now rewrite Hn, Hs. Qed.

(** X8.  A resize step pins the edge opposite to the handle.  With a
    snapshot of real geometry and a real pointer, whose snapped position is
    [(rx, ry)]: a west handle at least 1 left of the right edge puts the left
    edge at [rx] and keeps the right edge; an east handle at least 1 right of
    the left edge keeps the left edge and puts the right edge at [rx]; north
    and south do the same with top and bottom; and an axis the handle's code
    does not name keeps the snapshot's position and, when it is at least 1,
    its size. *)
Theorem onMove_resize_pins_edge :
  forall (e : PointerEvent) (st : State) (sid : Z) (pos : string)
         (start : Point) (ox oy ow oh x y : R) (s0 : Shape),
    drag st
    = Some (DragResize sid pos start
              (mkGeom (Fin ox) (Fin oy) (Fin ow) (Fin oh))) ->
    e_pt e = mkPoint (Fin x) (Fin y) ->
    findShape sid (shapes st) = Some s0 ->
    exists st' s',
      onMove e st = Some st' /\
      findShape sid (shapes st') = Some s' /\
      (includes "w" pos = true -> includes "e" pos = false ->
       snapR x + 1 <= ox + ow ->
       s_x s' = Fin (snapR x) /\ (s_x s' + s_w s')%js = Fin (ox + ow)) /\
      (includes "e" pos = true -> ox + 1 <= snapR x ->
       s_x s' = Fin ox /\ (s_x s' + s_w s')%js = Fin (snapR x)) /\
      (includes "n" pos = true -> includes "s" pos = false ->
       snapR y + 1 <= oy + oh ->
       s_y s' = Fin (snapR y) /\ (s_y s' + s_h s')%js = Fin (oy + oh)) /\
      (includes "s" pos = true -> oy + 1 <= snapR y ->
       s_y s' = Fin oy /\ (s_y s' + s_h s')%js = Fin (snapR y)) /\
      (includes "w" pos = false -> includes "e" pos = false -> 1 <= ow ->
       s_x s' = Fin ox /\ s_w s' = Fin ow) /\
      (includes "n" pos = false -> includes "s" pos = false -> 1 <= oh ->
       s_y s' = Fin oy /\ s_h s' = Fin oh).
Proof.
  intros e st sid pos start ox oy ow oh x y s0 Hd He Hf.
  destruct (onMove_resize_result e st sid pos start _ s0 Hd Hf)
    as [st' [Hm Hs']].
  eexists; eexists; split; [exact Hm |].
  split; [exact Hs' |].
  rewrite He; cbn [p_x p_y s_x s_y s_w s_h setGeom].
  rewrite !snap_Fin; fold (snapR x) (snapR y).
  repeat split.
  - rewrite resizeX_west by assumption; cbn [fst].
    f_equal; apply Rmin_left; lra.
  - rewrite resizeX_west by assumption; cbn [fst snd].
    rewrite nmax_Fin, nadd_Fin, Rmin_left by lra.
    rewrite Rabs_right by lra.
    rewrite Rmax_right by lra; f_equal; lra.
  - rewrite resizeX_east by assumption; cbn [fst].
    f_equal; apply Rmin_left; lra.
  - rewrite resizeX_east by assumption; cbn [fst snd].
    rewrite nmax_Fin, nadd_Fin, Rmin_left by lra.
    rewrite Rabs_right by lra.
    rewrite Rmax_right by lra; f_equal; lra.
  - rewrite resizeY_north by assumption; cbn [fst].
    f_equal; apply Rmin_left; lra.
  - rewrite resizeY_north by assumption; cbn [fst snd].
    rewrite nmax_Fin, nadd_Fin, Rmin_left by lra.
    rewrite Rabs_right by lra.
    rewrite Rmax_right by lra; f_equal; lra.
  - rewrite resizeY_south by assumption; cbn [fst].
    f_equal; apply Rmin_left; lra.
  - rewrite resizeY_south by assumption; cbn [fst snd].
    rewrite nmax_Fin, nadd_Fin, Rmin_left by lra.
    rewrite Rabs_right by lra.
    rewrite Rmax_right by lra; f_equal; lra.
  - rewrite resizeX_none by assumption; reflexivity.
  - rewrite resizeX_none by assumption; cbn [snd g_w].
    rewrite nmax_Fin, Rmax_right by lra; reflexivity.
  - rewrite resizeY_none by assumption; reflexivity.
  - rewrite resizeY_none by assumption; cbn [snd g_h].
    rewrite nmax_Fin, Rmax_right by lra; reflexivity.
Qed.

(** X8 applied to the north-west handle of the 100 by 40 rectangle dragged
    to (13,9): the snapped pointer is (20,0). *)
Lemma onMove_resize_pins_edge_witness :
  drag resizingShape1
  = Some (DragResize 1 "nw" (mkPoint (Fin 0) (Fin 0))
            (mkGeom (Fin 0) (Fin 0) (Fin 100) (Fin 40))) /\
  findShape 1 (shapes resizingShape1) = Some shape1 /\
  includes "w" "nw" = true /\ includes "e" "nw" = false /\
  snapR 13 + 1 <= 0 + 100 /\
  exists st' s',
    onMove (pointerAt 13 9) resizingShape1 = Some st' /\
    findShape 1 (shapes st') = Some s' /\
    s_x s' = Fin (snapR 13) /\ (s_x s' + s_w s')%js = Fin (0 + 100).
Proof.
  assert (H1 : drag resizingShape1
               = Some (DragResize 1 "nw" (mkPoint (Fin 0) (Fin 0))
                         (mkGeom (Fin 0) (Fin 0) (Fin 100) (Fin 40))))
    by reflexivity.
  assert (H2 : findShape 1 (shapes resizingShape1) = Some shape1)
    by reflexivity.
  assert (H3 : includes "w" "nw" = true) by reflexivity.
  assert (H4 : includes "e" "nw" = false) by reflexivity.
  assert (H5 : snapR 13 + 1 <= 0 + 100).
  { unfold snapR; rewrite (Zfloor_eq 1) by (simpl; lra); simpl; lra. }
  repeat (split; [assumption |]).
  destruct (onMove_resize_pins_edge (pointerAt 13 9) resizingShape1 1%Z
              "nw"%string (mkPoint (Fin 0) (Fin 0)) 0 0 100 40 13 9 shape1
              H1 eq_refl H2)
    as [st' [s' [Hm [Hf [Hw _]]]]].
  exists st', s'; split; [exact Hm |]; split; [exact Hf |].
  exact (Hw H3 H4 H5).
Defined.

Lemma updateShape_twice (sid : Z) (f g : Shape -> Shape) (l : list Shape) :
  (forall s, s_id (f s) = s_id s) ->
  (forall s, g (f s) = g s) ->
  updateShape sid g (updateShape sid f l) = updateShape sid g l.
Proof.
  intros Hf Hg; induction l as [| s l IH]; simpl; [reflexivity |].
  destruct (s_id s =? sid)%Z eqn:E; simpl.
  - now rewrite Hf, E, Hg.
  - now rewrite E, IH.
Qed.

(** X9.  The create and resize steps are absolute: a pointer-move that
    follows another pointer-move of the same gesture gives the state it
    would have given without the first, so the shape depends on the last
    pointer position only and not on the path of the drag. *)
Theorem onMove_absolute :
  forall (e1 e2 : PointerEvent) (st st1 : State),
    absoluteGesture (drag st) ->
    onMove e1 st = Some st1 ->
    onMove e2 st1 = onMove e2 st.
Proof.
  intros e1 e2 st st1 Hg H1.
  unfold onMove in *.
  destruct (drag st) as [[sid pos start orig | | | sid start |] |] eqn:Hd;
    try contradiction.
  - destruct (findShape sid (shapes st)) as [s0 |] eqn:Hf.
    + destruct (resizeX pos orig (snap (p_x (e_pt e1)))) as [nx nw].
      destruct (resizeY pos orig (snap (p_y (e_pt e1)))) as [ny nh].
      inversion H1; subst st1; clear H1.
      cbn [drag shapes render set_previewAttached set_shapes]; rewrite Hd.
      rewrite findShape_updateShape_same, Hf by reflexivity.
      cbn [option_map].
      destruct (resizeX pos orig (snap (p_x (e_pt e2)))) as [nx2 nw2].
      destruct (resizeY pos orig (snap (p_y (e_pt e2)))) as [ny2 nh2].
      rewrite updateShape_twice by reflexivity.
      reflexivity.
    + inversion H1; subst st1; rewrite Hd, Hf; reflexivity.
  - destruct (findShape sid (shapes st)) as [s0 |] eqn:Hf; [| discriminate].
    inversion H1; subst st1; clear H1.
    cbn [drag shapes render set_previewAttached set_shapes]; rewrite Hd.
    rewrite findShape_updateShape_same, Hf by reflexivity.
    cbn [option_map].
    rewrite updateShape_twice by reflexivity.
    reflexivity.
Qed.

(** X9 applied to the rectangle being drawn from (0,0): a move to (33,71)
    and then to (97,43) is a move to (97,43). *)
Lemma onMove_absolute_witness :
  absoluteGesture (drag (drawingRectFrom 0 0)) /\
  exists st1,
    onMove (pointerAt 33 71) (drawingRectFrom 0 0) = Some st1 /\
    onMove (pointerAt 97 43) st1
    = onMove (pointerAt 97 43) (drawingRectFrom 0 0).
Proof.
  assert (H : absoluteGesture (drag (drawingRectFrom 0 0))) by exact I.
  split; [exact H |].
  eexists; split; [reflexivity |].
  apply (onMove_absolute (pointerAt 33 71) (pointerAt 97 43)
           (drawingRectFrom 0 0) _ H).
  reflexivity.
Defined.

(** ** The move step *)

Lemma move_loop_find (f : Shape -> Shape) (sids : list Z) :
  (forall s, s_id (f s) = s_id s) ->
  NoDup sids ->
  forall (l : list Shape) (sid : Z),
    findShape sid (fold_left (fun acc i => updateShape i f acc) sids l)
    = if in_dec Z.eq_dec sid sids
      then option_map f (findShape sid l)
      else findShape sid l.
Proof.
  intros Hf Hnd; induction Hnd as [| i sids Hni Hnd IH]; intros l sid; simpl.
  - reflexivity.
  - rewrite IH.
    destruct (Z.eq_dec i sid) as [-> | Hne].
    + destruct (in_dec Z.eq_dec sid sids) as [Hin | _]; [contradiction |].
      now apply findShape_updateShape_same.
    + rewrite findShape_updateShape_other by (auto; congruence).
      destruct (in_dec Z.eq_dec sid sids); reflexivity.
Qed.

Lemma snapR_small (d : R) : -10 <= d < 10 -> snapR d = 0.
Proof.
  intros H; unfold snapR.
  rewrite (Zfloor_eq 0) by (simpl; lra); simpl; lra.
Qed.

Lemma snap_grid_plus (a : Z) (d : R) :
  snap (Fin (IZR a * 20) + Fin d)%js = Fin (IZR a * 20 + snapR d).
Proof.
  rewrite nadd_Fin, (Rplus_comm (IZR a * 20) d), snap_shift, snap_Fin.
  rewrite nadd_Fin; fold (snapR d); f_equal; lra.
Qed.

Lemma move_step_formula :
  forall (e : PointerEvent) (st : State) (sids : list Z) (sid : Z)
         (sx sy x y : R) (a b : Z) (s : Shape),
    drag st = Some (DragMove sids (mkPoint (Fin sx) (Fin sy))) ->
    NoDup sids -> In sid sids ->
    e_pt e = mkPoint (Fin x) (Fin y) ->
    findShape sid (shapes st) = Some s ->
    s_x s = Fin (IZR a * 20) -> s_y s = Fin (IZR b * 20) ->
    exists st' s',
      onMove e st = Some st' /\
      drag st' = Some (DragMove sids (mkPoint (Fin x) (Fin y))) /\
      findShape sid (shapes st') = Some s' /\
      s_x s' = Fin (IZR a * 20 + snapR (x - sx)) /\
      s_y s' = Fin (IZR b * 20 + snapR (y - sy)) /\
      s_w s' = s_w s /\ s_h s' = s_h s.
Proof.
  intros e st sids sid sx sy x y a b s Hd Hnd Hin He Hf Hx Hy.
  unfold onMove; rewrite Hd, He; cbn [p_x p_y].
  eexists; eexists; split; [reflexivity |].
  cbn [drag shapes render set_previewAttached set_drag set_shapes].
  split; [reflexivity |].
  rewrite (move_loop_find
             (fun s => setXY (snap (s_x s + (Fin x - Fin sx)))
                         (snap (s_y s + (Fin y - Fin sy))) s))
    by (auto; reflexivity).
  destruct (in_dec Z.eq_dec sid sids) as [_ | Hn]; [| contradiction].
  rewrite Hf; cbn [option_map].
  split; [reflexivity |].
  cbn [setXY s_x s_y s_w s_h].
  rewrite Hx, Hy, !nsub_Fin, !snap_grid_plus.
  repeat split.
Qed.

(** X10.  The move step is incremental.  For a captured shape on the grid
    (the captured ids being distinct), one pointer-move shifts its position
    by the snapped difference between the pointer and the descriptor's
    start, keeps its size, and makes the pointer the new start. *)
Theorem onMove_move_step :
  forall (e : PointerEvent) (st : State) (sids : list Z) (sid : Z)
         (sx sy x y : R) (a b : Z) (s : Shape),
    drag st = Some (DragMove sids (mkPoint (Fin sx) (Fin sy))) ->
    NoDup sids -> In sid sids ->
    e_pt e = mkPoint (Fin x) (Fin y) ->
    findShape sid (shapes st) = Some s ->
    s_x s = Fin (IZR a * 20) -> s_y s = Fin (IZR b * 20) ->
    exists st' s',
      onMove e st = Some st' /\
      drag st' = Some (DragMove sids (mkPoint (Fin x) (Fin y))) /\
      findShape sid (shapes st') = Some s' /\
      s_x s' = Fin (IZR a * 20 + snapR (x - sx)) /\
      s_y s' = Fin (IZR b * 20 + snapR (y - sy)) /\
      s_w s' = s_w s /\ s_h s' = s_h s.
Proof. exact move_step_formula. Qed.

(** X10 applied to the grabbed rectangle of the examples and a pointer at
    (87,17): the shape moves by (40,0). *)
Lemma onMove_move_step_witness :
  drag movingShape1 = Some (DragMove [1%Z] (mkPoint (Fin 50) (Fin 20))) /\
  NoDup [1%Z] /\ In 1%Z [1%Z] /\
  findShape 1 (shapes movingShape1) = Some shape1 /\
  s_x shape1 = Fin (IZR 0 * 20) /\ s_y shape1 = Fin (IZR 0 * 20) /\
  exists st' s',
    onMove (pointerAt 87 17) movingShape1 = Some st' /\
    drag st' = Some (DragMove [1%Z] (mkPoint (Fin 87) (Fin 17))) /\
    findShape 1 (shapes st') = Some s' /\
    s_x s' = Fin (IZR 0 * 20 + snapR (87 - 50)) /\
    s_y s' = Fin (IZR 0 * 20 + snapR (17 - 20)) /\
    s_w s' = s_w shape1 /\ s_h s' = s_h shape1.
Proof.
  assert (H1 : drag movingShape1
               = Some (DragMove [1%Z] (mkPoint (Fin 50) (Fin 20))))
    by reflexivity.
  assert (H2 : NoDup [1%Z]) by (repeat constructor; simpl; tauto).
  assert (H3 : In 1%Z [1%Z]) by (left; reflexivity).
  assert (H4 : findShape 1 (shapes movingShape1) = Some shape1)
    by reflexivity.
  assert (H5 : s_x shape1 = Fin (IZR 0 * 20)) by (cbn; f_equal; lra).
  assert (H6 : s_y shape1 = Fin (IZR 0 * 20)) by (cbn; f_equal; lra).
  repeat (split; [assumption |]).
  exact (onMove_move_step (pointerAt 87 17) movingShape1 [1%Z] 1%Z
           50 20 87 17 0%Z 0%Z shape1 H1 H2 H3 eq_refl H4 H5 H6).
Defined.

Lemma slow_drag_aux (pts : list (R * R)) :
  forall (st : State) (sids : list Z) (sid : Z) (x0 y0 : R) (a b : Z)
         (s : Shape),
    drag st = Some (DragMove sids (mkPoint (Fin x0) (Fin y0))) ->
    NoDup sids -> In sid sids ->
    findShape sid (shapes st) = Some s ->
    s_x s = Fin (IZR a * 20) -> s_y s = Fin (IZR b * 20) ->
    smallSteps x0 y0 pts ->
    exists s',
      findShape sid (shapes (run (moveEvents pts) st)) = Some s' /\
      s_x s' = Fin (IZR a * 20) /\ s_y s' = Fin (IZR b * 20) /\
      s_w s' = s_w s /\ s_h s' = s_h s.
Proof.
  induction pts as [| [x y] pts IH];
    intros st sids sid x0 y0 a b s Hd Hnd Hin Hf Hx Hy Hsm.
  - exists s; repeat split; assumption.
  - destruct Hsm as [Hdx [Hdy Hrest]].
    destruct (move_step_formula (pointerAt x y) st sids sid x0 y0 x y a b s
                Hd Hnd Hin eq_refl Hf Hx Hy)
      as [st' [s1 [Hm [Hd' [Hf' [Hx' [Hy' [Hw' Hh']]]]]]]].
    rewrite snapR_small, Rplus_0_r in Hx' by exact Hdx.
    rewrite snapR_small, Rplus_0_r in Hy' by exact Hdy.
    cbn [moveEvents map run fold_left dispatch fst snd].
    rewrite Hm; cbn [orSame].
    destruct (IH st' sids sid x y a b s1 Hd' Hnd Hin Hf' Hx' Hy' Hrest)
      as [s' [H1 [H2 [H3 [H4 H5]]]]].
    exists s'; repeat split; try assumption; congruence.
Qed.

(** X11.  A move gesture made of small steps does not move the shape: when
    every pointer-move is less than half a grid unit (at least -10 and below
    10 along each axis) from the one before it, a captured shape on the grid
    is at its old position with its old size after all of them, however far
    the pointer has travelled in total. *)
Theorem slow_drag_leaves_shape :
  forall (pts : list (R * R)) (st : State) (sids : list Z) (sid : Z)
         (x0 y0 : R) (s : Shape),
    drag st = Some (DragMove sids (mkPoint (Fin x0) (Fin y0))) ->
    NoDup sids -> In sid sids ->
    findShape sid (shapes st) = Some s ->
    aligned (s_x s) -> aligned (s_y s) ->
    smallSteps x0 y0 pts ->
    exists s',
      findShape sid (shapes (run (moveEvents pts) st)) = Some s' /\
      s_x s' = s_x s /\ s_y s' = s_y s /\
      s_w s' = s_w s /\ s_h s' = s_h s.
Proof.
  intros pts st sids sid x0 y0 s Hd Hnd Hin Hf [a Hx] [b Hy] Hsm.
  destruct (slow_drag_aux pts st sids sid x0 y0 a b s Hd Hnd Hin Hf Hx Hy Hsm)
    as [s' [H1 [H2 [H3 [H4 H5]]]]].
  exists s'; repeat split; try assumption; congruence.
Qed.

(** X11 applied to the grabbed rectangle of the examples dragged from
    (50,20) to (77,20) in three steps of 9. *)
Lemma slow_drag_leaves_shape_witness :
  smallSteps 50 20 [(59, 20); (68, 20); (77, 20)] /\
  exists s',
    findShape 1
      (shapes (run (moveEvents [(59, 20); (68, 20); (77, 20)]) movingShape1))
    = Some s' /\
    s_x s' = s_x shape1 /\ s_y s' = s_y shape1 /\
    s_w s' = s_w shape1 /\ s_h s' = s_h shape1.
Proof.
  assert (Hs : smallSteps 50 20 [(59, 20); (68, 20); (77, 20)])
    by (cbn; repeat split; lra).
  split; [exact Hs |].
  apply (slow_drag_leaves_shape [(59, 20); (68, 20); (77, 20)] movingShape1
           [1%Z] 1%Z 50 20 shape1).
  - reflexivity.
  - repeat constructor; simpl; tauto.
  - left; reflexivity.
  - reflexivity.
  - exact aligned_0.
  - exact aligned_0.
  - exact Hs.
Defined.

(** ** What a pointer-move leaves alone *)

Lemma sameStyle_refl (s : Shape) : sameStyle s s.
Proof. repeat split. Qed.

Lemma frameRel_refl (ids : list Z) (l : list Shape) :
  Forall2 (frameRel ids) l l.
Proof.
  induction l; constructor; auto.
  split; [apply sameStyle_refl | reflexivity].
Qed.

Lemma frameRel_trans (ids : list Z) (l1 l2 l3 : list Shape) :
  Forall2 (frameRel ids) l1 l2 -> Forall2 (frameRel ids) l2 l3 ->
  Forall2 (frameRel ids) l1 l3.
Proof.
  intros H; revert l3; induction H as [| a b l1 l2 Hab H12 IH];
    intros l3 H23; inversion H23; subst; constructor; auto.
  destruct Hab as [Hs1 Hk1].
  match goal with H : frameRel ids b ?c |- _ => destruct H as [Hs2 Hk2] end.
  destruct Hs1 as [A1 [A2 [A3 [A4 [A5 [A6 A7]]]]]].
  destruct Hs2 as [B1 [B2 [B3 [B4 [B5 [B6 B7]]]]]].
  split.
  - repeat split; congruence.
  - intros Hn; rewrite Hk2, Hk1; auto.
    rewrite A1; exact Hn.
Qed.

Lemma frameRel_updateShape (ids : list Z) (sid : Z) (f : Shape -> Shape)
  (l : list Shape) :
  (forall s, sameStyle s (f s)) ->
  In sid ids ->
  Forall2 (frameRel ids) l (updateShape sid f l).
Proof.
  intros Hf Hin; induction l as [| s l IH]; simpl; [constructor |].
  destruct (s_id s =? sid)%Z eqn:E.
  - constructor; [| apply frameRel_refl].
    apply Z.eqb_eq in E; split; [apply Hf |].
    intros Hn; rewrite E in Hn; contradiction.
  - constructor; [| exact IH].
    split; [apply sameStyle_refl | reflexivity].
Qed.

Lemma frameRel_move_loop (ids : list Z) (f : Shape -> Shape)
  (sids : list Z) :
  (forall s, sameStyle s (f s)) ->
  (forall i, In i sids -> In i ids) ->
  forall l,
    Forall2 (frameRel ids) l
      (fold_left (fun acc i => updateShape i f acc) sids l).
Proof.
  intros Hf; induction sids as [| i sids IH]; intros Hsub l; simpl.
  - apply frameRel_refl.
  - eapply frameRel_trans.
    + apply (frameRel_updateShape ids i f l Hf); apply Hsub; now left.
    + apply IH; intros j Hj; apply Hsub; now right.
Qed.

Lemma move_frame :
  forall (e : PointerEvent) (st st' : State),
    onMove e st = Some st' ->
    tool st' = tool st /\ symbol st' = symbol st /\
    nextId st' = nextId st /\ connectors st' = connectors st /\
    selection st' = selection st /\
    Forall2 (frameRel (gestureIds (drag st))) (shapes st) (shapes st').
Proof.
  intros e st st' H; unfold onMove in H.
  destruct (drag st) as [[sid pos start orig | sids start | start
                         | sid start | src preview] |] eqn:Hd;
    cbn [gestureIds].
  - destruct (findShape sid (shapes st)).
    + destruct (resizeX _ _ _) as [nx nw], (resizeY _ _ _) as [ny nh].
      inversion H; subst st'; cbn; repeat split.
      apply frameRel_updateShape; [intros ?; repeat split | now left].
    + inversion H; subst st'; repeat split; apply frameRel_refl.
  - inversion H; subst st'; cbn; repeat split.
    apply (frameRel_move_loop sids
             (fun s => setXY (snap (s_x s + _)) (snap (s_y s + _)) s));
      [intros ?; repeat split | auto].
  - inversion H; subst st'; cbn; repeat split; apply frameRel_refl.
  - destruct (findShape sid (shapes st)); [| discriminate].
    inversion H; subst st'; cbn; repeat split.
    apply frameRel_updateShape; [intros ?; repeat split | now left].
  - destruct (findShape src (shapes st));
      inversion H; subst st'; cbn; repeat split; apply frameRel_refl.
  - inversion H; subst st'; repeat split; apply frameRel_refl.
Qed.

(** X12.  A pointer-move that returns changes no tool, symbol kind,
    counter, connector or selection entry, changes no shape's id, kind,
    symbol, colours, stroke width or label, keeps the number and order of
    the shapes, and leaves every shape untouched whose id is not among those
    of the gesture (the captured ids of a move, the one id of a create or
    resize, none for the other gestures). *)
Theorem onMove_frame :
  forall (e : PointerEvent) (st st' : State),
    onMove e st = Some st' ->
    tool st' = tool st /\ symbol st' = symbol st /\
    nextId st' = nextId st /\ connectors st' = connectors st /\
    selection st' = selection st /\
    Forall2 (frameRel (gestureIds (drag st))) (shapes st) (shapes st').
Proof. exact move_frame. Qed.

(** X12 applied to a move step of the grabbed rectangle. *)
Lemma onMove_frame_witness :
  exists st',
    onMove (pointerAt 87 17) movingShape1 = Some st' /\
    tool st' = tool movingShape1 /\ symbol st' = symbol movingShape1 /\
    nextId st' = nextId movingShape1 /\
    connectors st' = connectors movingShape1 /\
    selection st' = selection movingShape1 /\
    Forall2 (frameRel (gestureIds (drag movingShape1)))
      (shapes movingShape1) (shapes st').
Proof.
  eexists; split; [reflexivity |].
  apply (onMove_frame (pointerAt 87 17) movingShape1).
  reflexivity.
Defined.

(** ** Sizes in every run *)

Lemma finite_Fin (v : num) : isFinite v = true -> exists r, v = Fin r.
Proof. destruct v; try discriminate; eauto. Qed.

Lemma wellSized_clamped (a b c d : R) (s : Shape) :
  wellSized (setGeom (Fin a) (Fin b) (nmax (Fin 1) (Fin c))
               (nmax (Fin 1) (Fin d)) s).
Proof.
  exists a, b, (Rmax 1 c), (Rmax 1 d); cbn [setGeom s_x s_y s_w s_h].
  rewrite !nmax_Fin; repeat split; apply Rmax_l.
Qed.

Lemma resizeX_finite (pos : string) (orig : Geom) (r : R) :
  finiteGeom orig ->
  exists a c, resizeX pos orig (Fin r) = (Fin a, Fin c).
Proof.
  intros [Hx [_ [Hw _]]]; unfold resizeX.
  apply finite_Fin in Hx as [ox ->]; apply finite_Fin in Hw as [ow ->].
  destruct (includes "e" pos); [| destruct (includes "w" pos)];
    rewrite ?nadd_Fin, ?nsub_Fin, ?nabs_Fin, ?nmin_Fin; eauto.
Qed.

Lemma resizeY_finite (pos : string) (orig : Geom) (r : R) :
  finiteGeom orig ->
  exists b d, resizeY pos orig (Fin r) = (Fin b, Fin d).
Proof.
  intros [_ [Hy [_ Hh]]]; unfold resizeY.
  apply finite_Fin in Hy as [oy ->]; apply finite_Fin in Hh as [oh ->].
  destruct (includes "s" pos); [| destruct (includes "n" pos)];
    rewrite ?nadd_Fin, ?nsub_Fin, ?nabs_Fin, ?nmin_Fin; eauto.
Qed.

Lemma wellSized_finiteGeom (s : Shape) :
  wellSized s -> finiteGeom (mkGeom (s_x s) (s_y s) (s_w s) (s_h s)).
Proof.
  intros [x [y [w [h [-> [-> [-> [-> _]]]]]]]]; repeat split.
Qed.

Lemma wellSized_moved (dx dy : R) (s : Shape) :
  wellSized s ->
  wellSized (setXY (snap (s_x s + Fin dx)) (snap (s_y s + Fin dy)) s).
Proof.
  intros [x [y [w [h [Hx [Hy [Hw [Hh [H1 H2]]]]]]]]].
  rewrite Hx, Hy, !nadd_Fin, !snap_Fin.
  eexists; eexists; exists w, h; cbn [setXY s_x s_y s_w s_h].
  repeat split; assumption.
Qed.

Lemma Forall_move_loop (P : Shape -> Prop) (f : Shape -> Shape)
  (sids : list Z) :
  (forall s, P s -> P (f s)) ->
  forall l, Forall P l ->
            Forall P (fold_left (fun acc i => updateShape i f acc) sids l).
Proof.
  intros Hf; induction sids as [| i sids IH]; intros l Hl; simpl;
    [exact Hl |].
  apply IH, Forall_updateShape; assumption.
Qed.

Lemma onDown_sizesKept (inp : Inputs) (e : PointerEvent) (st st' : State) :
  finitePoint (e_pt e) -> sizesKept st ->
  onDown inp e st = Some st' -> sizesKept st'.
Proof.
  intros [Hx Hy] [Hsz Hdr] H; unfold onDown in H.
  assert (Hp : finitePoint (mkPoint (p_x (e_pt e)) (p_y (e_pt e))))
    by (split; assumption).
  destruct (e_handle e) as [[sid pos] |].
  { destruct (findShape sid (shapes st)) as [s |] eqn:Ef;
      inversion H; subst st'; [| split; assumption].
    split; [exact Hsz |].
    cbn; intros d Hd; inversion Hd; subst d; cbn.
    split; [exact Hp |].
    apply wellSized_finiteGeom.
    apply findShape_some_id in Ef as [Hin _].
    rewrite Forall_forall in Hsz; now apply Hsz. }
  destruct (tool st =? "select")%string.
  { destruct (e_tag e) as [tag |]; inversion H; subst st'.
    - destruct (isShapeTag tag); split; cbn; try assumption.
      intros d Hd; inversion Hd; subst d; exact Hp.
    - split; cbn; [assumption |].
      intros d Hd; inversion Hd; subst d; exact Hp. }
  destruct ((tool st =? "rect")%string || (tool st =? "ellipse")%string
            || (tool st =? "symbol")%string).
  { inversion H; subst st'; split; cbn.
    - apply Forall_app; split; [exact Hsz |].
      constructor; [| constructor].
      apply finite_Fin in Hx as [x Ex], Hy as [y Ey].
      rewrite Ex, Ey, !snap_Fin.
      eexists; eexists; exists 1, 1; cbn; repeat split; lra.
    - intros d Hd; inversion Hd; subst d; exact Hp. }
  destruct (tool st =? "connector")%string.
  { destruct (e_tag e) as [[sid | cid] |]; inversion H; subst st';
      try (split; assumption).
    split; cbn; [assumption |].
    intros d Hd; inversion Hd; subst d; exact I. }
  destruct (tool st =? "text")%string.
  { destruct (e_tag e) as [[sid | cid] |];
      try (inversion H; subst st'; split; assumption).
    destruct (findShape sid (shapes st)); [| discriminate].
    destruct (e_prompt e); inversion H; subst st'; [| split; assumption].
    split; cbn; [| assumption].
    apply Forall_updateShape; [| exact Hsz].
    intros ? Hs; exact Hs. }
  inversion H; subst st'; split; assumption.
Qed.

Lemma onMove_sizesKept (e : PointerEvent) (st st' : State) :
  finitePoint (e_pt e) -> sizesKept st ->
  onMove e st = Some st' -> sizesKept st'.
Proof.
  intros [Hx Hy] Hs H; pose proof Hs as [Hsz Hdr]; unfold onMove in H.
  apply finite_Fin in Hx as [x Ex], Hy as [y Ey].
  destruct (drag st) as [[sid pos start orig | sids start | start
                         | sid start | src preview] |] eqn:Hd;
    try (inversion H; subst st'; exact Hs).
  - destruct (Hdr _ eq_refl) as [_ Hor].
    destruct (findShape sid (shapes st));
      [| inversion H; subst st'; exact Hs].
    rewrite Ex, Ey, !snap_Fin in H.
    destruct (resizeX_finite pos orig (IZR (Zfloor (x / 20 + / 2)) * 20) Hor)
      as [a [c Ea]].
    destruct (resizeY_finite pos orig (IZR (Zfloor (y / 20 + / 2)) * 20) Hor)
      as [b [d Eb]].
    rewrite Ea, Eb in H.
    inversion H; subst st'; split; cbn.
    + apply Forall_updateShape; [| exact Hsz].
      intros ? _; apply wellSized_clamped.
    + exact (proj2 Hs).
  - destruct (Hdr _ eq_refl) as [Hsx Hsy].
    apply finite_Fin in Hsx as [sx Esx], Hsy as [sy Esy].
    rewrite Ex, Ey, Esx, Esy, !nsub_Fin in H.
    inversion H; subst st'; split; cbn.
    + apply (Forall_move_loop wellSized
               (fun s => setXY (snap (s_x s + Fin (x - sx)))
                           (snap (s_y s + Fin (y - sy))) s));
        [| exact Hsz].
      intros ? Hws; now apply wellSized_moved.
    + intros d Hd'; inversion Hd'; subst d; split; reflexivity.
  - destruct (Hdr _ eq_refl) as [Hsx Hsy].
    apply finite_Fin in Hsx as [sx Esx], Hsy as [sy Esy].
    destruct (findShape sid (shapes st)); [| discriminate].
    rewrite Ex, Ey, Esx, Esy, !snap_Fin, !nsub_Fin, !nabs_Fin, !nmin_Fin in H.
    inversion H; subst st'; split; cbn.
    + apply Forall_updateShape; [| exact Hsz].
      intros ? _; apply wellSized_clamped.
    + exact (proj2 Hs).
  - destruct (findShape src (shapes st));
      inversion H; subst st'; [| exact Hs].
    split; cbn; [assumption |].
    intros d Hd'; inversion Hd'; subst d; exact I.
Qed.

Lemma onUp_sizesKept (inp : Inputs) (e : PointerEvent) (st st' : State) :
  sizesKept st -> onUp inp e st = Some st' -> sizesKept st'.
Proof.
  intros Hs H; pose proof Hs as [Hsz _]; unfold onUp in H.
  destruct (drag st) as [d |]; [| inversion H; subst st'; exact Hs].
  inversion H; subst st'; clear H.
  split; [| cbn; discriminate].
  destruct d as [sid pos start orig | sids start | start
                | sid start | src preview]; cbn; try assumption.
  destruct (e_tag e) as [[dst | cid] |]; try assumption.
  destruct (negb (dst =? src)%Z); cbn; assumption.
Qed.

Lemma dispatch_sizesKept (st : State) (ev : Event) :
  finitePointer ev -> sizesKept st -> sizesKept (dispatch st ev).
Proof.
  intros Hf Hs; destruct ev as [inp e | e | inp e | t | v |]; cbn in *.
  - destruct (onDown inp e st) eqn:E; cbn; [| exact Hs].
    eapply onDown_sizesKept; eauto.
  - destruct (onMove e st) eqn:E; cbn; [| exact Hs].
    eapply onMove_sizesKept; eauto.
  - destruct (onUp inp e st) eqn:E; cbn; [| exact Hs].
    eapply onUp_sizesKept; eauto.
  - exact Hs.
  - exact Hs.
  - split; cbn; [constructor | discriminate].
Qed.

(** X13.  In every run of the editor from its initial state whose mouse
    events carry finite pointer positions, every shape has finite position
    and size with width and height of at least 1. *)
Theorem run_keeps_sizes :
  forall evs : list Event,
    Forall finitePointer evs ->
    Forall wellSized (shapes (run evs initialState)).
Proof.
  assert (H : forall evs st, Forall finitePointer evs -> sizesKept st ->
                             sizesKept (run evs st)).
  { induction evs as [| ev evs IH]; intros st Hf Hs; simpl; [exact Hs |].
    inversion Hf; subst.
    apply IH; [assumption |].
    now apply dispatch_sizesKept. }
  intros evs Hf.
  apply (H evs initialState Hf).
  split; [constructor | discriminate].
Qed.

(** X13 applied to a rectangle drawn from (3,3) with a move to (4,4). *)
Lemma run_keeps_sizes_witness :
  Forall finitePointer
    [ToolClick "rect"; MouseDown inputs0 (pointerAt 3 3);
     MouseMove (pointerAt 4 4); MouseUp inputs0 (pointerAt 4 4)] /\
  Forall wellSized
    (shapes
       (run [ToolClick "rect"; MouseDown inputs0 (pointerAt 3 3);
             MouseMove (pointerAt 4 4); MouseUp inputs0 (pointerAt 4 4)]
          initialState)).
Proof.
  assert (H : Forall finitePointer
                [ToolClick "rect"; MouseDown inputs0 (pointerAt 3 3);
                 MouseMove (pointerAt 4 4); MouseUp inputs0 (pointerAt 4 4)])
    by (repeat constructor).
  split; [exact H |].
  exact (run_keeps_sizes _ H).
Defined.

(** ** The collections only grow *)

Ltac grow_same := solve [left; cbn; repeat split; reflexivity].

Lemma onDown_grows (inp : Inputs) (e : PointerEvent) (st st' : State) :
  onDown inp e st = Some st' -> growsStep st st'.
Proof.
  unfold onDown; intros H.
  destruct (e_handle e) as [[sid pos] |].
  { destruct (findShape sid (shapes st)); inversion H; subst; grow_same. }
  destruct (tool st =? "select")%string.
  { destruct (e_tag e) as [tag |]; inversion H; subst;
      [destruct (isShapeTag tag) |]; grow_same. }
  destruct ((tool st =? "rect")%string || (tool st =? "ellipse")%string
            || (tool st =? "symbol")%string).
  { inversion H; subst; right; left; eexists; cbn; repeat split. }
  destruct (tool st =? "connector")%string.
  { destruct (e_tag e) as [[sid | cid] |]; inversion H; subst; grow_same. }
  destruct (tool st =? "text")%string.
  { destruct (e_tag e) as [[sid | cid] |];
      try (inversion H; subst; grow_same).
    destruct (findShape sid (shapes st)); [| discriminate].
    destruct (e_prompt e); inversion H; subst; [| grow_same].
    left; cbn; repeat split.
    now apply map_updateShape. }
  inversion H; subst; grow_same.
Qed.

Lemma onMove_grows (e : PointerEvent) (st st' : State) :
  onMove e st = Some st' -> growsStep st st'.
Proof.
  intros H; left.
  destruct (move_frame e st st' H) as [_ [_ [Hn [Hc [_ Hf]]]]].
  repeat split; try assumption.
  clear H; induction Hf as [| a b l l' [Hs _] _ IH]; simpl;
    [reflexivity |].
  rewrite IH; f_equal.
  destruct Hs as [A1 [A2 [A3 _]]]; unfold identity; congruence.
Qed.

Lemma onUp_grows (inp : Inputs) (e : PointerEvent) (st st' : State) :
  onUp inp e st = Some st' -> growsStep st st'.
Proof.
  unfold onUp; intros H.
  destruct (drag st) as [[sid pos start orig | sids start | start
                         | sid start | src preview] |];
    try (inversion H; subst; grow_same).
  destruct (e_tag e) as [[dst | cid] |];
    try (inversion H; subst; grow_same).
  destruct (dst =? src)%Z; cbn [negb] in H;
    inversion H; subst; [grow_same |].
  right; right; eexists; cbn; repeat split.
Qed.

Lemma dispatch_grows (st : State) (ev : Event) :
  isNewDoc ev = false -> growsStep st (dispatch st ev).
Proof.
  destruct ev as [inp e | e | inp e | t | v |]; cbn; intros Hn;
    try discriminate.
  - destruct (onDown inp e st) eqn:E; cbn;
      [eapply onDown_grows; eassumption | grow_same].
  - destruct (onMove e st) eqn:E; cbn;
      [eapply onMove_grows; eassumption | grow_same].
  - destruct (onUp inp e st) eqn:E; cbn;
      [eapply onUp_grows; eassumption | grow_same].
  - grow_same.
  - grow_same.
Qed.

(** X14.  Apart from the new-document button no event removes or reorders
    anything: after any run without it, the shapes are the old ones, each
    with its id, kind and symbol, followed by the added ones; the connectors
    are the old ones unchanged followed by the added ones; and the counter
    has grown by exactly the number of shapes and connectors added. *)
Theorem run_only_grows :
  forall (evs : list Event) (st : State),
    Forall (fun ev => isNewDoc ev = false) evs ->
    exists (l1 : list (Z * string * option string)) (l2 : list Connector),
      map identity (shapes (run evs st)) = map identity (shapes st) ++ l1 /\
      connectors (run evs st) = connectors st ++ l2 /\
      nextId (run evs st)
      = (nextId st + Z.of_nat (List.length l1 + List.length l2))%Z.
Proof.
  induction evs as [| ev evs IH]; intros st Hf.
  - exists [], []; cbn; rewrite !app_nil_r; repeat split; lia.
  - inversion Hf as [| ? ? Hev Hrest]; subst.
    destruct (IH (dispatch st ev) Hrest) as [l1 [l2 [Hs [Hc Hn]]]].
    change (run (ev :: evs) st) with (run evs (dispatch st ev)).
    destruct (dispatch_grows st ev Hev)
      as [[Es [Ec En]] | [[s [Es [Ei [Ec En]]]] | [c [Es [Ec [Ei En]]]]]].
    + exists l1, l2; rewrite Hs, Hc, Hn, Es, Ec, En; repeat split.
    + exists (identity s :: l1), l2.
      rewrite Hs, Hc, Hn, Es, Ec, En, map_app; cbn [map List.length].
      rewrite <- app_assoc; repeat split; lia.
    + exists l1, (c :: l2).
      rewrite Hs, Hc, Hn, Es, Ec, En; cbn [List.length].
      rewrite <- app_assoc; repeat split; lia.
Qed.

(** X14 applied to the events that draw one rectangle. *)
Lemma run_only_grows_witness :
  Forall (fun ev => isNewDoc ev = false) oneRectDrawn /\
  exists (l1 : list (Z * string * option string)) (l2 : list Connector),
    map identity (shapes (run oneRectDrawn initialState))
    = map identity (shapes initialState) ++ l1 /\
    connectors (run oneRectDrawn initialState)
    = connectors initialState ++ l2 /\
    nextId (run oneRectDrawn initialState)
    = (nextId initialState + Z.of_nat (List.length l1 + List.length l2))%Z.
Proof.
  assert (H : Forall (fun ev => isNewDoc ev = false) oneRectDrawn)
    by (repeat constructor).
  split; [exact H |].
  exact (run_only_grows oneRectDrawn initialState H).
Defined.

(** ** The shared counter *)

Lemma growsStep_allIds (st st' : State) (j : Z) :
  growsStep st st' -> In j (allIds st) -> In j (allIds st').
Proof.
  unfold allIds.
  intros [[Es [Ec _]] | [[s [Es [_ [Ec _]]]] | [c [Es [Ec _]]]]] Hin;
    rewrite in_app_iff in *.
  - rewrite map_id_identity, Es, <- map_id_identity, Ec; exact Hin.
  - rewrite Es, Ec, map_app, in_app_iff; tauto.
  - rewrite Es, Ec, map_app, in_app_iff; tauto.
Qed.

(** C10, counterexample.  Id 1 is given to the first rectangle; after the
    new-document button the counter is 1 again and the next rectangle gets
    id 1 too, which is not greater than the id 1 allocated before. *)
Lemma newDoc_reissues_id :
  In 1%Z (allIds (run oneRectDrawn initialState)) /\
  fst (newId (run (oneRectDrawn ++ [NewDoc]) initialState)) = 1%Z /\
  In 1%Z (allIds (run drawnResetDrawn initialState)) /\
  ~ (1 < fst (newId (run (oneRectDrawn ++ [NewDoc]) initialState)))%Z.
Proof.
  split; [cbn; auto |].
  split; [reflexivity |].
  split; [cbn; auto |].
  cbn; lia.
Qed.

(** C10, as the code has it.  [newId] returns the counter and leaves it one
    higher, touching nothing else.  After every run of mouse, toolbar and
    new-document events from the initial state all ids of shapes and
    connectors together are pairwise distinct and below [nextId]; an id that
    the next event adds to the document is the value the counter had, which
    is greater than every id in the document; no event but the new-document
    button takes an id out of the document, so those are all the ids
    allocated since the last reset; and the new-document button empties the
    document and puts the counter back to 1. *)
Theorem newId_shared_counter :
  (forall st : State,
      fst (newId st) = nextId st /\
      nextId (snd (newId st)) = (nextId st + 1)%Z /\
      shapes (snd (newId st)) = shapes st /\
      connectors (snd (newId st)) = connectors st) /\
  (forall evs : list Event,
      let st := run evs initialState in
      Forall (fun i => (i < nextId st)%Z) (allIds st) /\
      NoDup (allIds st)) /\
  (forall (evs : list Event) (ev : Event) (i : Z),
      let st := run evs initialState in
      let st' := dispatch st ev in
      In i (allIds st') ->
      In i (allIds st) \/
      (i = nextId st /\ nextId st' = (nextId st + 1)%Z /\
       forall j, In j (allIds st) -> (j < i)%Z)) /\
  (forall (st : State) (ev : Event) (j : Z),
      isNewDoc ev = false ->
      In j (allIds st) -> In j (allIds (dispatch st ev))) /\
  (forall st : State,
      allIds (dispatch st NewDoc) = [] /\
      nextId (dispatch st NewDoc) = 1%Z).
Proof.
  split; [| split; [| split; [| split]]].
  - intros st; repeat split.
  - intros evs; apply run_idsFresh.
  - intros evs ev i st st' Hin.
    destruct (footprint_new_ids st st' i (dispatch_footprint st ev) Hin)
      as [H | [Hi Hn]]; [left; exact H | right].
    repeat split; try assumption.
    intros j Hj.
    destruct (run_idsFresh evs) as [Hlt _]; fold st in Hlt.
    rewrite Forall_forall in Hlt; specialize (Hlt _ Hj); lia.
  - intros st ev j Hev Hj.
    eapply growsStep_allIds; [apply dispatch_grows; exact Hev | exact Hj].
  - intros st; split; reflexivity.
Qed.

(** C10 applied to a rectangle drawn, then a second one: the second
    shape's id is the counter's value 2, above the id 1 already there, and
    the id 1 stays in the document. *)
Lemma newId_shared_counter_witness :
  In 2%Z (allIds (dispatch (run oneRectDrawn initialState)
                    (MouseDown inputs0 (pointerAt 40 40)))) /\
  (In 2%Z (allIds (run oneRectDrawn initialState)) \/
   (2%Z = nextId (run oneRectDrawn initialState) /\
    nextId (dispatch (run oneRectDrawn initialState)
              (MouseDown inputs0 (pointerAt 40 40)))
    = (nextId (run oneRectDrawn initialState) + 1)%Z /\
    forall j, In j (allIds (run oneRectDrawn initialState)) -> (j < 2)%Z)) /\
  isNewDoc (MouseDown inputs0 (pointerAt 40 40)) = false /\
  In 1%Z (allIds (run oneRectDrawn initialState)) /\
  In 1%Z (allIds (dispatch (run oneRectDrawn initialState)
                    (MouseDown inputs0 (pointerAt 40 40)))).
Proof.
  assert (Hin : In 2%Z (allIds (dispatch (run oneRectDrawn initialState)
                                  (MouseDown inputs0 (pointerAt 40 40)))))
    by (cbn; auto).
  assert (Hev : isNewDoc (MouseDown inputs0 (pointerAt 40 40)) = false)
    by reflexivity.
  assert (H1 : In 1%Z (allIds (run oneRectDrawn initialState)))
    by (cbn; auto).
  split; [exact Hin |].
  split; [exact (proj1 (proj2 (proj2 newId_shared_counter)) oneRectDrawn
                   (MouseDown inputs0 (pointerAt 40 40)) 2%Z Hin) |].
  split; [exact Hev |].
  split; [exact H1 |].
  exact (proj1 (proj2 (proj2 (proj2 newId_shared_counter)))
           (run oneRectDrawn initialState)
           (MouseDown inputs0 (pointerAt 40 40)) 1%Z Hev H1).
Defined.

(** ** Exceptions *)

Lemma In_ids_findShape (sid : Z) (l : list Shape) :
  In sid (map s_id l) -> findShape sid l <> None.
Proof.
  unfold findShape; induction l as [| s l IH]; simpl; [tauto |].
  intros [H | H].
  - rewrite (proj2 (Z.eqb_eq _ _) H); discriminate.
  - destruct (s_id s =? sid)%Z; [discriminate | auto].
Qed.

Lemma growsStep_ids (st st' : State) (sid : Z) :
  growsStep st st' -> In sid (map s_id (shapes st)) ->
  In sid (map s_id (shapes st')).
Proof.
  intros [[Es _] | [[s [Es _]] | [c [Es _]]]] Hin.
  - rewrite map_id_identity, Es, <- map_id_identity; exact Hin.
  - rewrite Es, map_app, in_app_iff; now left.
  - rewrite Es; exact Hin.
Qed.

Lemma onDown_createTarget (inp : Inputs) (e : PointerEvent)
  (st st' : State) :
  createTargetExists st -> onDown inp e st = Some st' ->
  createTargetExists st'.
Proof.
  intros Hinv H sid0 start0 Hd0.
  pose proof (onDown_grows inp e st st' H) as Hg.
  assert (Hold : drag st = Some (DragCreate sid0 start0) ->
                 In sid0 (map s_id (shapes st')))
    by (intros Hd; eapply growsStep_ids; eauto).
  clear Hg Hinv; unfold onDown in H.
  destruct (e_handle e) as [[sid pos] |].
  { destruct (findShape sid (shapes st)); inversion H; subst;
      cbn in Hd0; auto; discriminate. }
  destruct (tool st =? "select")%string.
  { destruct (e_tag e) as [tag |]; inversion H; subst;
      [destruct (isShapeTag tag) |]; cbn in Hd0; auto; discriminate. }
  destruct ((tool st =? "rect")%string || (tool st =? "ellipse")%string
            || (tool st =? "symbol")%string).
  { inversion H; subst; cbn in Hd0 |- *; inversion Hd0; subst.
    rewrite map_app, in_app_iff; right; left; reflexivity. }
  destruct (tool st =? "connector")%string.
  { destruct (e_tag e) as [[sid | cid] |]; inversion H; subst;
      cbn in Hd0; auto; discriminate. }
  destruct (tool st =? "text")%string.
  { destruct (e_tag e) as [[sid | cid] |];
      try (inversion H; subst; auto).
    destruct (findShape sid (shapes st)); [| discriminate].
    destruct (e_prompt e); inversion H; subst; cbn in Hd0; auto. }
  inversion H; subst; auto.
Qed.

Lemma onMove_createTarget (e : PointerEvent) (st st' : State) :
  createTargetExists st -> onMove e st = Some st' ->
  createTargetExists st'.
Proof.
  intros Hinv H sid0 start0 Hd0.
  pose proof (onMove_grows e st st' H) as Hg.
  assert (Hold : drag st = Some (DragCreate sid0 start0) ->
                 In sid0 (map s_id (shapes st')))
    by (intros Hd; eapply growsStep_ids; eauto).
  clear Hg Hinv; unfold onMove in H.
  destruct (drag st) as [[sid pos start orig | sids start | start
                         | sid start | src preview] |] eqn:Hd.
  - destruct (findShape sid (shapes st)).
    + destruct (resizeX _ _ _) as [nx nw], (resizeY _ _ _) as [ny nh].
      inversion H; subst; cbn in Hd0; congruence.
    + inversion H; subst; congruence.
  - inversion H; subst; cbn in Hd0; discriminate.
  - inversion H; subst; cbn in Hd0; congruence.
  - destruct (findShape sid (shapes st)); [| discriminate].
    inversion H; subst; cbn in Hd0; apply Hold; congruence.
  - destruct (findShape src (shapes st)); inversion H; subst;
      cbn in Hd0; congruence.
  - inversion H; subst; congruence.
Qed.

Lemma onUp_drag_none (inp : Inputs) (e : PointerEvent) (st st' : State) :
  onUp inp e st = Some st' -> drag st' = None.
Proof.
  unfold onUp; intros H.
  destruct (drag st) eqn:Hd; inversion H; subst; [reflexivity | exact Hd].
Qed.

Lemma dispatch_createTarget (st : State) (ev : Event) :
  createTargetExists st -> createTargetExists (dispatch st ev).
Proof.
  intros Hinv; destruct ev as [inp e | e | inp e | t | v |]; cbn.
  - destruct (onDown inp e st) eqn:E; cbn; [| exact Hinv].
    eapply onDown_createTarget; eauto.
  - destruct (onMove e st) eqn:E; cbn; [| exact Hinv].
    eapply onMove_createTarget; eauto.
  - destruct (onUp inp e st) eqn:E; cbn; [| exact Hinv].
    intros sid start Hd.
    rewrite (onUp_drag_none _ _ _ _ E) in Hd; discriminate.
  - exact Hinv.
  - exact Hinv.
  - intros sid start Hd; cbn in Hd; discriminate.
Qed.

Lemma run_createTarget (evs : list Event) :
  forall st, createTargetExists st -> createTargetExists (run evs st).
Proof.
  induction evs as [| ev evs IH]; intros st H; simpl; [exact H |].
  apply IH, dispatch_createTarget, H.
Qed.

(** ** Saving and loading *)

Lemma footprint_counter_positive (st st' : State) :
  footprint st st' -> (1 <= nextId st)%Z -> (1 <= nextId st')%Z.
Proof.
  intros [_ _ Hn | s _ _ _ _ Hn | c _ _ _ _ Hn | _ _ Hn] H;
    rewrite Hn; lia.
Qed.

Lemma serialize_load (inp : Inputs) (st st0 : State) :
  nextId st <> 0%Z ->
  let st' := loadDocument (fst (serialize inp st)) st0 in
  shapes st' = shapes st /\ connectors st' = connectors st /\
  nextId st' = nextId st /\ selection st' = [] /\
  tool st' = tool st0 /\ drag st' = drag st0.
Proof.
  intros Hn st'; unfold st', loadDocument, serialize, serializeShapes.
  cbn [fst d_shapes d_connectors d_next_id d_nextId orElse].
  apply Z.eqb_neq in Hn; rewrite Hn; cbn.
  rewrite !map_id; repeat split.
Qed.

(** X16.  Loading the object [serialize] builds (the text form in between
    left aside) restores the shapes, the connectors and the counter of any
    state whose counter is not 0, empties the selection and keeps the tool
    and the drag descriptor of the state it is loaded into; this holds for
    every state the editor reaches from its initial state. *)
Theorem serialize_load_roundtrip :
  (forall (inp : Inputs) (st st0 : State),
      nextId st <> 0%Z ->
      let st' := loadDocument (fst (serialize inp st)) st0 in
      shapes st' = shapes st /\ connectors st' = connectors st /\
      nextId st' = nextId st /\ selection st' = [] /\
      tool st' = tool st0 /\ drag st' = drag st0) /\
  (forall (evs : list Event) (inp : Inputs) (st0 : State),
      let st := run evs initialState in
      let st' := loadDocument (fst (serialize inp st)) st0 in
      shapes st' = shapes st /\ connectors st' = connectors st /\
      nextId st' = nextId st /\ selection st' = []).
Proof.
  split; [exact serialize_load |].
  intros evs inp st0 st st'.
  assert (Hpos : (1 <= nextId st)%Z).
  { apply (run_invariant (fun s => (1 <= nextId s)%Z)
             footprint_counter_positive); cbn; lia. }
  destruct (serialize_load inp st st0) as [H1 [H2 [H3 [H4 _]]]]; [lia |].
  repeat split; assumption.
Qed.

(** X16 applied to the editor with one rectangle drawn. *)
Lemma serialize_load_roundtrip_witness :
  nextId (run oneRectDrawn initialState) <> 0%Z /\
  shapes (loadDocument
            (fst (serialize inputs0 (run oneRectDrawn initialState)))
            initialState)
  = shapes (run oneRectDrawn initialState).
Proof.
  assert (H : nextId (run oneRectDrawn initialState) <> 0%Z)
    by (cbn; discriminate).
  split; [exact H |].
  exact (proj1 (proj1 serialize_load_roundtrip inputs0
                  (run oneRectDrawn initialState) initialState H)).
Defined.

(** X17.  A document without a counter (no [next_id] and no [nextId], or
    0) whose ids are pairwise distinct can be edited safely: after loading
    it and any run of the editor, all ids of shapes and connectors are still
    pairwise distinct and below the counter. *)
Theorem load_then_edit_keeps_ids :
  forall (data : Document) (st0 : State) (evs : list Event),
    (d_next_id data = None \/ d_next_id data = Some 0%Z) ->
    (d_nextId data = None \/ d_nextId data = Some 0%Z) ->
    NoDup (documentIds data) ->
    let st := run evs (loadDocument data st0) in
    Forall (fun i => (i < nextId st)%Z) (allIds st) /\ NoDup (allIds st).
Proof.
  intros data st0 evs H1 H2 Hnd st.
  apply (run_invariant idsFresh footprint_idsFresh).
  assert (Hids : allIds (loadDocument data st0) = documentIds data)
    by reflexivity.
  assert (Hn : nextId (loadDocument data st0)
               = (maxFrom1 (documentIds data) + 1)%Z).
  { unfold loadDocument, documentIds; cbn.
    destruct H1 as [-> | ->], H2 as [-> | ->]; reflexivity. }
  unfold idsFresh; rewrite Hids, Hn; split; [| exact Hnd].
  destruct (maxFrom1_spec (documentIds data)) as [_ [Hle _]].
  eapply Forall_impl; [| exact Hle]; simpl; intros; lia.
Qed.

(** X17 applied to a document with the ids 3 and 8, then one rectangle
    drawn. *)
Lemma load_then_edit_keeps_ids_witness :
  (d_next_id twoShapeDocument = None \/
   d_next_id twoShapeDocument = Some 0%Z) /\
  (d_nextId twoShapeDocument = None \/
   d_nextId twoShapeDocument = Some 0%Z) /\
  NoDup (documentIds twoShapeDocument) /\
  Forall
    (fun i =>
       (i < nextId (run oneRectDrawn
                      (loadDocument twoShapeDocument initialState)))%Z)
    (allIds (run oneRectDrawn (loadDocument twoShapeDocument initialState)))
  /\
  NoDup
    (allIds (run oneRectDrawn (loadDocument twoShapeDocument initialState))).
Proof.
  assert (H1 : d_next_id twoShapeDocument = None \/
               d_next_id twoShapeDocument = Some 0%Z) by (left; reflexivity).
  assert (H2 : d_nextId twoShapeDocument = None \/
               d_nextId twoShapeDocument = Some 0%Z) by (left; reflexivity).
  assert (H3 : NoDup (documentIds twoShapeDocument)).
  { cbn; repeat constructor; simpl; intuition discriminate. }
  split; [exact H1 |].
  split; [exact H2 |].
  split; [exact H3 |].
  exact (load_then_edit_keeps_ids twoShapeDocument initialState oneRectDrawn
           H1 H2 H3).
Defined.

(** ** More on the marquee *)

Lemma nmin_comm (a b : num) : nmin a b = nmin b a.
Proof.
  destruct a, b; cbn [nmin nle]; try reflexivity.
  rdec; try reflexivity; f_equal; lra.
Qed.

Lemma nmax_comm (a b : num) : nmax a b = nmax b a.
Proof.
  destruct a, b; cbn [nmax nle]; try reflexivity.
  rdec; try reflexivity; f_equal; lra.
Qed.

Lemma applyMarquee_sides (x0 y0 x1 y1 x0' y0' x1' y1' : num) (add : bool)
  (st : State) :
  nmin x0 x1 = nmin x0' x1' -> nmax x0 x1 = nmax x0' x1' ->
  nmin y0 y1 = nmin y0' y1' -> nmax y0 y1 = nmax y0' y1' ->
  applyMarquee x0 y0 x1 y1 add st = applyMarquee x0' y0' x1' y1' add st.
Proof.
  intros H1 H2 H3 H4; unfold applyMarquee.
  rewrite H1, H2, H3, H4; reflexivity.
Qed.

(** X18.  The selection a marquee commits does not depend on the direction
    of the drag: exchanging the start and the release point, or only their
    [x] or only their [y] coordinates, gives the same state. *)
Theorem applyMarquee_direction :
  forall (x0 y0 x1 y1 : num) (add : bool) (st : State),
    applyMarquee x1 y1 x0 y0 add st = applyMarquee x0 y0 x1 y1 add st /\
    applyMarquee x1 y0 x0 y1 add st = applyMarquee x0 y0 x1 y1 add st /\
    applyMarquee x0 y1 x1 y0 add st = applyMarquee x0 y0 x1 y1 add st.
Proof.
  intros; repeat split; apply applyMarquee_sides;
    auto using nmin_comm, nmax_comm.
Qed.

Lemma Rmin_plus_dist (a b : R) : Rmin a b + Rabs (b - a) = Rmax a b.
Proof.
  unfold Rmin, Rmax, Rabs.
  destruct (Rle_dec a b), (Rcase_abs (b - a)); lra.
Qed.

(** X19.  The rectangle shown is the rectangle tested.  During a marquee
    gesture with real coordinates a pointer-move shows the rectangle [m]
    with corner [(min, min)] and non-negative size, and a pointer-up at the
    same point hides it and commits the selection of exactly that rectangle,
    from [(m.x, m.y)] to [(m.x + m.width, m.y + m.height)]. *)
Theorem marquee_shown_is_tested :
  forall (inp : Inputs) (e : PointerEvent) (st : State) (x0 y0 x1 y1 : R),
    drag st = Some (DragMarquee (mkPoint (Fin x0) (Fin y0))) ->
    e_pt e = mkPoint (Fin x1) (Fin y1) ->
    exists st1 st2,
      onMove e st = Some st1 /\
      onUp inp e st1 = Some st2 /\
      let m := marqueeRect st1 in
      m_visible m = true /\
      m_x m = Fin (Rmin x0 x1) /\ m_y m = Fin (Rmin y0 y1) /\
      m_width m = Fin (Rabs (x1 - x0)) /\
      m_height m = Fin (Rabs (y1 - y0)) /\
      m_visible (marqueeRect st2) = false /\
      selection st2
      = selection
          (applyMarquee (m_x m) (m_y m) (m_x m + m_width m)%js
             (m_y m + m_height m)%js (shiftKey e) st).
Proof.
  intros inp e st x0 y0 x1 y1 Hd He.
  unfold onMove; rewrite Hd, He; cbn [p_x p_y].
  eexists; eexists; split; [reflexivity |].
  unfold onUp; cbn [drag updateMarquee set_marqueeRect]; rewrite Hd, He.
  split; [reflexivity |].
  cbn [marqueeRect updateMarquee set_marqueeRect m_visible m_x m_y m_width
         m_height p_x p_y].
  rewrite !nsub_Fin, !nabs_Fin, !nmin_Fin, !nadd_Fin.
  repeat split.
  cbn [selection set_drag render set_previewAttached hideMarquee
         set_marqueeRect].
  unfold applyMarquee; cbn [selection set_selection shapes connectors].
  rewrite !nmin_Fin, !nmax_Fin, !Rmin_plus_dist.
  rewrite (Rmin_left (Rmin x0 x1) (Rmax x0 x1))
    by (apply Rle_trans with x0; [apply Rmin_l | apply Rmax_l]).
  rewrite (Rmax_right (Rmin x0 x1) (Rmax x0 x1))
    by (apply Rle_trans with x0; [apply Rmin_l | apply Rmax_l]).
  rewrite (Rmin_left (Rmin y0 y1) (Rmax y0 y1))
    by (apply Rle_trans with y0; [apply Rmin_l | apply Rmax_l]).
  rewrite (Rmax_right (Rmin y0 y1) (Rmax y0 y1))
    by (apply Rle_trans with y0; [apply Rmin_l | apply Rmax_l]).
  reflexivity.
Qed.

(** X19 applied to the marquee of the examples dragged to (100,100). *)
Lemma marquee_shown_is_tested_witness :
  drag marqueeFrom0 = Some (DragMarquee (mkPoint (Fin 0) (Fin 0))) /\
  exists st1 st2,
    onMove (pointerAt 100 100) marqueeFrom0 = Some st1 /\
    onUp inputs0 (pointerAt 100 100) st1 = Some st2 /\
    m_visible (marqueeRect st1) = true /\
    m_x (marqueeRect st1) = Fin (Rmin 0 100) /\
    m_y (marqueeRect st1) = Fin (Rmin 0 100) /\
    m_width (marqueeRect st1) = Fin (Rabs (100 - 0)) /\
    m_height (marqueeRect st1) = Fin (Rabs (100 - 0)) /\
    m_visible (marqueeRect st2) = false /\
    selection st2
    = selection
        (applyMarquee (m_x (marqueeRect st1)) (m_y (marqueeRect st1))
           (m_x (marqueeRect st1) + m_width (marqueeRect st1))%js
           (m_y (marqueeRect st1) + m_height (marqueeRect st1))%js
           (shiftKey (pointerAt 100 100)) marqueeFrom0).
Proof.
  split; [reflexivity |].
  apply (marquee_shown_is_tested inputs0 (pointerAt 100 100) marqueeFrom0
           0 0 100 100); reflexivity.
Defined.

(** ** Picking with the select tool *)

Lemma In_selectedShapeIds (st : State) (j : Z) :
  In j (selectedShapeIds st) <-> In (ShapeTag j) (selection st).
Proof.
  unfold selectedShapeIds; rewrite in_flat_map; split.
  - intros [[i | i] [Hin Hj]]; simpl in Hj; [| contradiction].
    destruct Hj as [-> | []]; exact Hin.
  - intros Hin; exists (ShapeTag j); split; [exact Hin | now left].
Qed.

(** X20.  A pointer-down with the select tool on a shape or connector, off
    the handles, never changes the shapes or connectors and selects the
    picked element: alone without the shift key, added to the old selection
    with it.  On a shape it starts a move that captures exactly the shapes
    now selected, the picked one among them, from the pointer position; on a
    connector it leaves the drag descriptor as it was. *)
Theorem onDown_select_pick :
  forall (inp : Inputs) (e : PointerEvent) (st : State) (tag : Tag),
    e_handle e = None ->
    tool st = "select"%string ->
    e_tag e = Some tag ->
    exists st',
      onDown inp e st = Some st' /\
      shapes st' = shapes st /\ connectors st' = connectors st /\
      In tag (selection st') /\
      (shiftKey e = false -> selection st' = [tag]) /\
      (shiftKey e = true ->
       forall t, In t (selection st') <-> t = tag \/ In t (selection st)) /\
      (forall i, tag = ShapeTag i ->
                 exists sids,
                   drag st'
                   = Some (DragMove sids
                             (mkPoint (p_x (e_pt e)) (p_y (e_pt e)))) /\
                   In i sids /\
                   forall j, In j sids <-> In (ShapeTag j) (selection st')) /\
      (forall i, tag = ConnTag i -> drag st' = drag st).
Proof.
  intros inp e st tag Hh Ht Htag.
  unfold onDown; rewrite Hh, Ht, Htag; cbn [String.eqb Ascii.eqb Bool.eqb].
  eexists; split; [reflexivity |].
  assert (Hsel : forall t,
             In t (selAdd tag (if shiftKey e then selection st else []))
             <-> t = tag \/ In t (if shiftKey e then selection st else []))
    by (intros t; apply In_selAdd).
  destruct tag as [i | i]; cbn [isShapeTag].
  - cbn [shapes connectors selection drag render set_previewAttached
           set_drag set_selection].
    split; [reflexivity |].
    split; [reflexivity |].
    split; [apply Hsel; now left |].
    split; [intros Hs; rewrite Hs; reflexivity |].
    split; [intros Hs; rewrite Hs in Hsel |- *; exact Hsel |].
    split; [| intros j Hj; discriminate].
    intros j Hj; inversion Hj; subst j.
    eexists; split; [reflexivity |].
    split.
    + apply In_selectedShapeIds; cbn [selection set_selection].
      apply Hsel; now left.
    + intros j; apply In_selectedShapeIds.
  - cbn [shapes connectors selection drag render set_previewAttached
           set_selection].
    split; [reflexivity |].
    split; [reflexivity |].
    split; [apply Hsel; now left |].
    split; [intros Hs; rewrite Hs; reflexivity |].
    split; [intros Hs; rewrite Hs in Hsel |- *; exact Hsel |].
    split; [intros j Hj; discriminate | reflexivity].
Qed.

(** X20 applied to a pick of shape 1 with the shift key in the editor with
    one rectangle. *)
Lemma onDown_select_pick_witness :
  e_handle (pick true 10 10 (ShapeTag 1)) = None /\
  tool shape1Selected = "select"%string /\
  e_tag (pick true 10 10 (ShapeTag 1)) = Some (ShapeTag 1) /\
  exists st',
    onDown inputs0 (pick true 10 10 (ShapeTag 1)) shape1Selected = Some st' /\
    shapes st' = shapes shape1Selected /\
    connectors st' = connectors shape1Selected /\
    In (ShapeTag 1) (selection st').
Proof.
  split; [reflexivity |].
  split; [reflexivity |].
  split; [reflexivity |].
  destruct (onDown_select_pick inputs0 (pick true 10 10 (ShapeTag 1))
              shape1Selected (ShapeTag 1) eq_refl eq_refl eq_refl)
    as [st' [H1 [H2 [H3 [H4 _]]]]].
  exists st'; repeat split; assumption.
Defined.

(** ** No handler raises *)

Lemma fold_selAdd_keeps {A : Type} (Q : Tag -> Prop)
  (f : list Tag -> A -> list Tag) (l : list A) :
  (forall acc a t, In a l -> In t (f acc a) -> In t acc \/ Q t) ->
  forall sel t, In t (fold_left f l sel) -> In t sel \/ Q t.
Proof.
  induction l as [| a l IH]; intros Hf sel t Hin; simpl in Hin.
  - now left.
  - destruct (IH (fun acc b u Hb => Hf acc b u (or_intror Hb)) _ _ Hin)
      as [H | H]; [| now right].
    apply (Hf sel a t); [now left | exact H].
Qed.

Lemma applyMarquee_tags (x0 y0 x1 y1 : num) (add : bool) (st : State)
  (t : Tag) :
  In t (selection (applyMarquee x0 y0 x1 y1 add st)) ->
  In t (selection st) \/ tagValid st t.
Proof.
  unfold applyMarquee; cbn [selection set_selection]; intros Hin.
  apply (fold_selAdd_keeps (tagValid st)) in Hin.
  - destruct Hin as [Hin | Hq]; [| now right].
    apply (fold_selAdd_keeps (tagValid st)) in Hin.
    + destruct Hin as [Hin | Hq]; [| now right].
      destruct add; [now left | destruct Hin].
    + intros acc s u Hs Hu.
      destruct (shapeInMarquee _ _ _ _ s); [| now left].
      apply In_selAdd in Hu as [-> | Hu]; [right | now left].
      cbn; now apply in_map.
  - intros acc c u Hc Hu.
    destruct (findShape (c_src c) (shapes st)); [| now left].
    destruct (findShape (c_dst c) (shapes st)); [| now left].
    destruct (segmentInMarquee _ _ _ _ _ _); [| now left].
    apply In_selAdd in Hu as [-> | Hu]; [right; exact I | now left].
Qed.

Lemma onDown_selectionValid (inp : Inputs) (e : PointerEvent)
  (st st' : State) :
  selectionValid st -> targetExists st (MouseDown inp e) ->
  onDown inp e st = Some st' -> selectionValid st'.
Proof.
  intros Hv Ht H i Hin.
  pose proof (onDown_grows inp e st st' H) as Hg.
  assert (Hold : In (ShapeTag i) (selection st) ->
                 In i (map s_id (shapes st')))
    by (intros Hs; eapply growsStep_ids; eauto).
  clear Hg Hv; cbn in Ht; unfold onDown in H.
  destruct (e_handle e) as [[sid pos] |].
  { destruct (findShape sid (shapes st)); inversion H; subst; auto. }
  destruct (tool st =? "select")%string.
  { destruct (e_tag e) as [tag |] eqn:Etag; inversion H; subst;
      [| auto].
    destruct (isShapeTag tag); cbn in Hin, Hold |- *;
      (apply In_selAdd in Hin as [Heq | Hsel];
       [apply Ht; now rewrite Heq
       | destruct (shiftKey e); [auto | destruct Hsel]]). }
  destruct ((tool st =? "rect")%string || (tool st =? "ellipse")%string
            || (tool st =? "symbol")%string).
  { inversion H; subst; cbn in Hin |- *.
    destruct Hin as [Hin | []]; inversion Hin; subst.
    rewrite map_app, in_app_iff; right; now left. }
  destruct (tool st =? "connector")%string.
  { destruct (e_tag e) as [[sid | cid] |]; inversion H; subst; auto. }
  destruct (tool st =? "text")%string.
  { destruct (e_tag e) as [[sid | cid] |];
      try (inversion H; subst; auto).
    destruct (findShape sid (shapes st)); [| discriminate].
    destruct (e_prompt e); inversion H; subst; auto. }
  inversion H; subst; auto.
Qed.

Lemma onMove_selectionValid (e : PointerEvent) (st st' : State) :
  selectionValid st -> onMove e st = Some st' -> selectionValid st'.
Proof.
  intros Hv H i Hin.
  destruct (move_frame e st st' H) as [_ [_ [_ [_ [Hs _]]]]].
  rewrite Hs in Hin.
  eapply growsStep_ids; [eapply onMove_grows; exact H | now apply Hv].
Qed.

Lemma onUp_selectionValid (inp : Inputs) (e : PointerEvent)
  (st st' : State) :
  selectionValid st -> onUp inp e st = Some st' -> selectionValid st'.
Proof.
  intros Hv H i Hin.
  pose proof (onUp_grows inp e st st' H) as Hg.
  assert (Hold : In i (map s_id (shapes st)) ->
                 In i (map s_id (shapes st')))
    by (intros Hs; eapply growsStep_ids; eauto).
  apply Hold; clear Hold Hg.
  unfold onUp in H.
  destruct (drag st) as [d |]; [| inversion H; subst; now apply Hv].
  inversion H; subst; clear H.
  destruct d as [sid pos start orig | sids start | start
                | sid start | src preview];
    try (now apply Hv).
  - cbn [selection set_drag render set_previewAttached hideMarquee
           set_marqueeRect] in Hin.
    apply applyMarquee_tags in Hin as [Hin | Hq];
      [now apply Hv | exact Hq].
  - apply Hv.
    destruct (e_tag e) as [[dst | cid] |]; try exact Hin.
    destruct (negb (dst =? src)%Z); exact Hin.
Qed.

Lemma dispatch_selectionValid (st : State) (ev : Event) :
  selectionValid st -> targetExists st ev ->
  selectionValid (dispatch st ev).
Proof.
  intros Hv Ht; destruct ev as [inp e | e | inp e | t | v |]; cbn.
  - destruct (onDown inp e st) eqn:E; cbn; [| exact Hv].
    eapply onDown_selectionValid; eauto.
  - destruct (onMove e st) eqn:E; cbn; [| exact Hv].
    eapply onMove_selectionValid; eauto.
  - destruct (onUp inp e st) eqn:E; cbn; [| exact Hv].
    eapply onUp_selectionValid; eauto.
  - exact Hv.
  - exact Hv.
  - intros i Hin; destruct Hin.
Qed.

Lemma run_selectionValid (evs : list Event) :
  forall st, selectionValid st -> targetsExist st evs ->
             selectionValid (run evs st).
Proof.
  induction evs as [| ev evs IH]; intros st Hv Ht; simpl; [exact Hv |].
  destruct Ht as [Ht Hrest].
  apply IH; [now apply dispatch_selectionValid | exact Hrest].
Qed.

Lemma selectionValid_renderHandles (st : State) :
  selectionValid st -> renderHandles st <> None.
Proof.
  intros Hv; unfold renderHandles.
  destruct (selectedShapeIds st) as [| i [| j rest]] eqn:E;
    try discriminate.
  assert (Hin : In i (selectedShapeIds st)) by (rewrite E; now left).
  apply In_selectedShapeIds, Hv, In_ids_findShape in Hin.
  destruct (findShape i (shapes st)); [discriminate | contradiction].
Qed.

(** X15.  In a run of mouse, toolbar and new-document events from the
    initial state in which every pointer-down that is on a shape tag is on a
    shape then in the document, nothing raises.  In the state it reaches
    every selected shape tag has its shape, so [render], which every handler
    calls after its last change to the selection and the shapes, never hands
    [undefined] to [drawHandles]; [onMove] and [onUp] return on every event;
    and [onDown] returns on every pointer-down that is again on a shape of
    the document or on no shape. *)
Theorem handlers_never_raise :
  forall evs : list Event,
    targetsExist initialState evs ->
    let st := run evs initialState in
    renderHandles st <> None /\
    (forall e, onMove e st <> None) /\
    (forall inp e, onUp inp e st <> None) /\
    (forall inp e,
        targetExists st (MouseDown inp e) -> onDown inp e st <> None).
Proof.
  intros evs Hevs st.
  assert (Hc : createTargetExists st).
  { apply run_createTarget; intros sid start Hd; discriminate. }
  assert (Hv : selectionValid st).
  { apply run_selectionValid; [| exact Hevs].
    intros i Hin; destruct Hin. }
  split; [now apply selectionValid_renderHandles |].
  split; [| split].
  - intros e; unfold onMove.
    destruct (drag st) as [[sid pos start orig | sids start | start
                           | sid start | src preview] |] eqn:Hd;
      try discriminate.
    + destruct (findShape sid (shapes st)); [| discriminate].
      destruct (resizeX _ _ _), (resizeY _ _ _); discriminate.
    + destruct (findShape sid (shapes st)) eqn:Ef; [discriminate |].
      exfalso; apply (In_ids_findShape sid (shapes st)); [| exact Ef].
      now apply (Hc sid start).
    + destruct (findShape src (shapes st)); discriminate.
  - intros inp e; unfold onUp.
    destruct (drag st); discriminate.
  - intros inp e Ht; cbn in Ht; unfold onDown.
    destruct (e_handle e) as [[sid pos] |].
    { destruct (findShape sid (shapes st)); discriminate. }
    destruct (tool st =? "select")%string.
    { destruct (e_tag e); discriminate. }
    destruct ((tool st =? "rect")%string || (tool st =? "ellipse")%string
              || (tool st =? "symbol")%string); [discriminate |].
    destruct (tool st =? "connector")%string.
    { destruct (e_tag e) as [[sid | cid] |]; discriminate. }
    destruct (tool st =? "text")%string; [| discriminate].
    destruct (e_tag e) as [[sid | cid] |]; try discriminate.
    destruct (findShape sid (shapes st)) eqn:Ef.
    + destruct (e_prompt e); discriminate.
    + exfalso; apply (In_ids_findShape sid (shapes st)); [| exact Ef].
      now apply Ht.
Qed.

(** X15 applied to a rectangle drawn and then picked with the select
    tool. *)
Lemma handlers_never_raise_witness :
  targetsExist initialState drawnThenPicked /\
  renderHandles (run drawnThenPicked initialState) <> None /\
  onMove (pointerAt 30 30) (run drawnThenPicked initialState) <> None /\
  onUp inputs0 (pointerAt 30 30) (run drawnThenPicked initialState) <> None.
Proof.
  assert (H : targetsExist initialState drawnThenPicked).
  { cbn; repeat split; intros i Hi; inversion Hi; subst; now left. }
  split; [exact H |].
  destruct (handlers_never_raise drawnThenPicked H) as [H1 [H2 [H3 _]]].
  split; [exact H1 |].
  split; [apply H2 | apply H3].
Defined.
